(** * Position / P&L aggregation of the trading journal

    A shallow embedding of [src/helpers.ts] ([calculatePositions],
    [getMonthlyStats]) and of the day-level round-trip metrics of the
    dashboard ([getTradeComputed], [getDaySummary], [avgReturnPct]).

    Modelling conventions.
    - A JavaScript [number] is an exact rational ([Qc]) in the first two
      parts; the rounding of IEEE doubles is the matter of the third part
      ([Double]).  The only unguarded division of the
      aggregators (line 81 of [helpers.ts]) has a non-zero divisor on
      validated input (positive quantities).  For other input a quotient by
      zero, [NaN] or an infinity in JavaScript, is [0] here; like [NaN] it is
      falsy in [positions.get(key) || trade.price].  [count] only ever grows
      by [++] from [0] and is a [nat].
    - A JavaScript [Map] keeps its keys in insertion order and
      [Array.from(map.values())] exposes that order, so a [Map] is an
      association list ([JsMap]) in which [set] overwrites in place or
      appends.
    - [Array.prototype.sort] is stable; it is an insertion sort here (any
      stable sort yields the same list).  Dates are ISO [YYYY-MM-DD] strings,
      on which [localeCompare] is the lexicographic order of the characters.
    - [a || b] on numbers takes [b] when [a] is [0]; on a possibly missing
      field it also takes [b] when the field is absent.  [a ?? b] takes [b]
      only when the field is absent.

    The second part of the model embeds further code of the same files and
    of their callers: [getTradesForDate], the cards, the calendar and the
    sections of the dashboard, the market ticker, the portfolio page, the
    handlers of the collections in [App], and the handlers of the settings
    page.
    - An event handler is the function from the state it reads to the state
      it leaves; a handler that returns before its [set...] call leaves the
      state as it was.  [handleMoveSection] can read a field of [undefined]:
      it has an [Outcome], a value or a [TypeError].
    - The [while] loop of the calendar cells runs under a bound and is shown
      to end within it.
    - [String.prototype.trim] is a parameter of [normalizePresets].  Code
      that goes through [Date], [Intl], [toFixed] or the DOM is not
      modelled.

    The third part ([Double]) embeds the two aggregators once more on
    binary64 numbers, with the IEEE operations that JavaScript's [+], [-],
    [*], [/] and [>] are.  It settles what depends on rounding: the value of
    a quotient that no double holds, and the order in which amounts are
    added. *)

From Stdlib Require Import String Ascii List Bool Arith ZArith QArith Qabs
  Qcanon.
From Stdlib Require Import Lia Permutation Sorted Field.
From Stdlib Require PrimFloat SpecFloat FloatOps.
Import ListNotations.

Local Open Scope string_scope.
Local Open Scope list_scope.
Local Open Scope Qc_scope.

(** ** Numbers *)

Definition Qcltb (x y : Qc) : bool :=
match x ?= y with
| Lt => true
| _ => false
end.

(** [a || b] on two numbers. *)
Definition orElse (a b : Qc) : Qc :=
if Qc_eq_bool a 0 then b else a.

(** [f ?? b] on an optional field. *)
Definition nullish (f : option Qc) (b : Qc) : Qc :=
match f with
| Some v => v
| None => b
end.

(** [Number(f || b)] on an optional field. *)
Definition fieldOr (f : option Qc) (b : Qc) : Qc :=
match f with
| Some v => orElse v b
| None => b
end.

Definition ofNat (n : nat) : Qc := Q2Qc (inject_Z (Z.of_nat n)).

Definition hundred : Qc := Q2Qc 100.

(** ** JavaScript [Map] with string keys *)

Module JsMap.

Definition t (V : Type) : Type := list (string * V).

Definition empty {V : Type} : t V := [].

Fixpoint get {V : Type} (k : string) (m : t V) : option V :=
match m with
| [] => None
| (k', v) :: rest => if String.eqb k' k then Some v else get k rest
end.

Fixpoint set {V : Type} (k : string) (v : V) (m : t V) : t V :=
match m with
| [] => [(k, v)]
| (k', v') :: rest =>
    if String.eqb k' k then (k, v) :: rest else (k', v') :: set k v rest
end.

Definition keys {V : Type} (m : t V) : list string := map fst m.

Definition values {V : Type} (m : t V) : list V := map snd m.

Definition entries {V : Type} (m : t V) : list (string * V) := m.

End JsMap.

(** ** Stable sort and [slice] *)

Section StableSort.

Context {A : Type} (le : A -> A -> bool).

Fixpoint insertSorted (x : A) (l : list A) : list A :=
match l with
| [] => [x]
| h :: t => if le x h then x :: h :: t else h :: insertSorted x t
end.

Definition stableSort (l : list A) : list A :=
fold_right insertSorted [] l.

End StableSort.

(** [l.slice(-n)]: the last [n] elements, the whole list when it is shorter. *)
Definition sliceLast {A : Type} (n : nat) (l : list A) : list A :=
skipn (length l - n) l.

(** ** Data model ([types]) *)

Inductive TradeType : Type :=
| buy
| sell
| roundtrip.

Definition isBuy (ty : TradeType) : bool :=
match ty with
| buy => true
| _ => false
end.

Record Trade : Type := mkTrade {
  id : string;
  date : string;
  stockName : string;
  stockCode : string;
  type : TradeType;
  quantity : Qc;
  price : Qc;
  memo : string;
  images : list string;
  buyPrice : option Qc;
  sellPrice : option Qc;
  realizedPnl : option Qc
}.

Record StockPosition : Type := mkPosition {
  posStockName : string;
  posStockCode : string;
  buyQuantity : Qc;
  sellQuantity : Qc;
  holdingQuantity : Qc;
  avgBuyPrice : Qc;
  totalBuyCost : Qc;
  totalSellRevenue : Qc;
  realizedPnL : Qc
}.

(** [trade.stockCode || trade.stockName] *)
Definition stockKey (trade : Trade) : string :=
if String.eqb (stockCode trade) "" then stockName trade else stockCode trade.

(** [[...trades].sort((a, b) => a.date.localeCompare(b.date))] *)
Definition dateLe (a b : Trade) : bool := String.leb (date a) (date b).

Definition sortByDate (trades : list Trade) : list Trade :=
stableSort dateLe trades.

(** ** [calculatePositions] *)

Definition zeroPosition (trade : Trade) : StockPosition :=
{| posStockName := stockName trade;
   posStockCode := stockCode trade;
   buyQuantity := 0;
   sellQuantity := 0;
   holdingQuantity := 0;
   avgBuyPrice := 0;
   totalBuyCost := 0;
   totalSellRevenue := 0;
   realizedPnL := 0 |}.

(** The [if (trade.type === 'buy')] branch. *)
Definition applyBuy (pos : StockPosition) (trade : Trade) : StockPosition :=
let cost := price trade * quantity trade in
let tbc := totalBuyCost pos + cost in
let bq := buyQuantity pos + quantity trade in
{| posStockName := posStockName pos;
   posStockCode := posStockCode pos;
   buyQuantity := bq;
   sellQuantity := sellQuantity pos;
   holdingQuantity := holdingQuantity pos;
   avgBuyPrice := if Qcltb 0 bq then tbc / bq else 0;
   totalBuyCost := tbc;
   totalSellRevenue := totalSellRevenue pos;
   realizedPnL := realizedPnL pos |}.

(** The [else] branch. *)
Definition applySell (pos : StockPosition) (trade : Trade) : StockPosition :=
let revenue := price trade * quantity trade in
let costBasis := avgBuyPrice pos * quantity trade in
{| posStockName := posStockName pos;
   posStockCode := posStockCode pos;
   buyQuantity := buyQuantity pos;
   sellQuantity := sellQuantity pos + quantity trade;
   holdingQuantity := holdingQuantity pos;
   avgBuyPrice := avgBuyPrice pos;
   totalBuyCost := totalBuyCost pos;
   totalSellRevenue := totalSellRevenue pos + revenue;
   realizedPnL := realizedPnL pos + (revenue - costBasis) |}.

(** [pos.holdingQuantity = pos.buyQuantity - pos.sellQuantity] *)
Definition setHolding (pos : StockPosition) : StockPosition :=
{| posStockName := posStockName pos;
   posStockCode := posStockCode pos;
   buyQuantity := buyQuantity pos;
   sellQuantity := sellQuantity pos;
   holdingQuantity := buyQuantity pos - sellQuantity pos;
   avgBuyPrice := avgBuyPrice pos;
   totalBuyCost := totalBuyCost pos;
   totalSellRevenue := totalSellRevenue pos;
   realizedPnL := realizedPnL pos |}.

Definition applyTrade (pos : StockPosition) (trade : Trade) : StockPosition :=
setHolding (if isBuy (type trade) then applyBuy pos trade
            else applySell pos trade).

(** What one iteration stores for the key of [t], given what was there. *)
Definition posUpdate (o : option StockPosition) (t : Trade) : StockPosition :=
applyTrade (match o with Some p => p | None => zeroPosition t end) t.

(** One iteration of the loop over [sorted]. *)
Definition positionStep (posMap : JsMap.t StockPosition) (trade : Trade)
  : JsMap.t StockPosition :=
let key := stockKey trade in
JsMap.set key (posUpdate (JsMap.get key posMap) trade) posMap.

Definition positionMap (trades : list Trade) : JsMap.t StockPosition :=
fold_left positionStep (sortByDate trades) JsMap.empty.

Definition calculatePositions (trades : list Trade) : list StockPosition :=
JsMap.values (positionMap trades).

(** ** [getMonthlyStats] *)

Record CostAcc : Type := mkCostAcc {
  totalCost : Qc;
  totalQty : Qc
}.

Module Bucket.

Record t : Type := mk {
  buyAmount : Qc;
  sellAmount : Qc;
  pnl : Qc;
  count : nat
}.

Definition zero : t :=
{| buyAmount := 0; sellAmount := 0; pnl := 0; count := 0 |}.

End Bucket.

Record MonthlyStat : Type := mkMonthlyStat {
  month : string;
  buyAmount : Qc;
  sellAmount : Qc;
  pnl : Qc;
  count : nat
}.

(** [existing] after the two [+=] of the first loop, given what
    [avgPrices.get(key)] returned. *)
Definition costUpdate (o : option CostAcc) (trade : Trade) : CostAcc :=
let existing :=
  match o with
  | Some e => e
  | None => {| totalCost := 0; totalQty := 0 |}
  end in
{| totalCost := totalCost existing + price trade * quantity trade;
   totalQty := totalQty existing + quantity trade |}.

(** First loop: the maps [avgPrices] and [positions]. *)
Definition avgPriceStep (st : JsMap.t CostAcc * JsMap.t Qc) (trade : Trade)
  : JsMap.t CostAcc * JsMap.t Qc :=
let '(avgPrices, positions) := st in
let key := stockKey trade in
if isBuy (type trade) then
  let existing := costUpdate (JsMap.get key avgPrices) trade in
  (JsMap.set key existing avgPrices,
   JsMap.set key (totalCost existing / totalQty existing) positions)
else st.

Definition avgPricePass (sorted : list Trade) : JsMap.t Qc :=
snd (fold_left avgPriceStep sorted (JsMap.empty, JsMap.empty)).

(** [trade.date.slice(0, 7)] *)
Definition monthOf (trade : Trade) : string := substring 0 7 (date trade).

(** [positions.get(key) || trade.price] *)
Definition avgPriceFor (positions : JsMap.t Qc) (trade : Trade) : Qc :=
fieldOr (JsMap.get (stockKey trade) positions) (price trade).

(** [(trade.price - avgPrice) * trade.quantity], the amount a sell adds to
    its month's [pnl]. *)
Definition sellPnlContribution (positions : JsMap.t Qc) (trade : Trade) : Qc :=
(price trade - avgPriceFor positions trade) * quantity trade.

Definition bucketStep (positions : JsMap.t Qc) (existing : Bucket.t)
  (trade : Trade) : Bucket.t :=
let amount := price trade * quantity trade in
if isBuy (type trade) then
  {| Bucket.buyAmount := Bucket.buyAmount existing + amount;
     Bucket.sellAmount := Bucket.sellAmount existing;
     Bucket.pnl := Bucket.pnl existing;
     Bucket.count := S (Bucket.count existing) |}
else
  {| Bucket.buyAmount := Bucket.buyAmount existing;
     Bucket.sellAmount := Bucket.sellAmount existing + amount;
     Bucket.pnl := Bucket.pnl existing + sellPnlContribution positions trade;
     Bucket.count := S (Bucket.count existing) |}.

(** Second loop: one iteration. *)
Definition monthStep (positions : JsMap.t Qc) (monthMap : JsMap.t Bucket.t)
  (trade : Trade) : JsMap.t Bucket.t :=
let m := monthOf trade in
let existing :=
  match JsMap.get m monthMap with
  | Some e => e
  | None => Bucket.zero
  end in
JsMap.set m (bucketStep positions existing trade) monthMap.

Definition monthMapOf (trades : list Trade) : JsMap.t Bucket.t :=
let sorted := sortByDate trades in
fold_left (monthStep (avgPricePass sorted)) sorted JsMap.empty.

(** [([month, stats]) => ({ month, ...stats })] *)
Definition toMonthlyStat (e : string * Bucket.t) : MonthlyStat :=
{| month := fst e;
   buyAmount := Bucket.buyAmount (snd e);
   sellAmount := Bucket.sellAmount (snd e);
   pnl := Bucket.pnl (snd e);
   count := Bucket.count (snd e) |}.

Definition monthLe (a b : MonthlyStat) : bool := String.leb (month a) (month b).

(** Everything before the final [.slice(-12)]. *)
Definition allMonthlyStats (trades : list Trade) : list MonthlyStat :=
stableSort monthLe (map toMonthlyStat (JsMap.entries (monthMapOf trades))).

Definition getMonthlyStats (trades : list Trade) : list MonthlyStat :=
sliceLast 12 (allMonthlyStats trades).

(** ** Day-level round-trip metrics (dashboard) *)

Module Computed.

Record t : Type := mk {
  buyAmount : Qc;
  sellAmount : Qc;
  pnl : Qc;
  returnPct : Qc
}.

End Computed.

Definition getTradeComputed (trade : Trade) : Computed.t :=
let qty := orElse (quantity trade) 0 in
let '(buyAmount, sellAmount) :=
  match type trade with
  | roundtrip =>
      let bp := nullish (buyPrice trade) 0 in
      let sp := nullish (sellPrice trade) 0 in
      (bp * qty, sp * qty)
  | buy => (price trade * qty, 0)
  | sell => (0, price trade * qty)
  end in
let pnl := nullish (realizedPnl trade) 0 in
let returnPct :=
  if Qcltb 0 buyAmount then (pnl / buyAmount) * hundred else 0 in
{| Computed.buyAmount := buyAmount;
   Computed.sellAmount := sellAmount;
   Computed.pnl := pnl;
   Computed.returnPct := returnPct |}.

Record DaySummary : Type := mkDaySummary {
  totalBuy : Qc;
  totalSell : Qc;
  totalPnl : Qc;
  avgReturn : Qc
}.

(** The accumulators of the loop of [getDaySummary]. *)
Record DayAcc : Type := mkDayAcc {
  accBuy : Qc;
  accSell : Qc;
  accPnl : Qc;
  returns : list Qc
}.

Definition dayStep (acc : DayAcc) (t : Trade) : DayAcc :=
let c := getTradeComputed t in
{| accBuy := accBuy acc + Computed.buyAmount c;
   accSell := accSell acc + Computed.sellAmount c;
   accPnl := accPnl acc + Computed.pnl c;
   returns := if Qcltb 0 (Computed.buyAmount c)
              then returns acc ++ [Computed.returnPct c]
              else returns acc |}.

(** [rets.reduce((a, b) => a + b, 0)] *)
Definition reduceSum (l : list Qc) : Qc := fold_left Qcplus l 0.

Definition getDaySummary (trades : list Trade) : DaySummary :=
let acc :=
  fold_left dayStep trades
    {| accBuy := 0; accSell := 0; accPnl := 0; returns := [] |} in
let avg :=
  match length (returns acc) with
  | O => 0
  | n => reduceSum (returns acc) / ofNat n
  end in
{| totalBuy := accBuy acc;
   totalSell := accSell acc;
   totalPnl := accPnl acc;
   avgReturn := avg |}.

(** The [map] callback of [avgReturnPct]; [None] is JavaScript's [null]. *)
Definition investedReturn (t : Trade) : option Qc :=
let invested := fieldOr (buyPrice t) 0 * quantity t in
let pnl := fieldOr (realizedPnl t) 0 in
if Qcltb 0 invested then Some ((pnl / invested) * hundred) else None.

(** [.filter(v => v !== null && Number.isFinite(v))]: every rational is
    finite. *)
Fixpoint keepNumbers (l : list (option Qc)) : list Qc :=
match l with
| [] => []
| Some v :: rest => v :: keepNumbers rest
| None :: rest => keepNumbers rest
end.

Definition avgReturnPct (list : list Trade) : Qc :=
let rets := keepNumbers (map investedReturn list) in
match length rets with
| O => 0
| n => reduceSum rets / ofNat n
end.

(** * Further code of the same files and of their callers *)

(** ** [getTradesForDate] ([helpers.ts]) *)

Definition getTradesForDate (trades : list Trade) (dateStr : string)
  : list Trade :=
filter (fun t => String.eqb (date t) dateStr) trades.

(** [.filter(Boolean)] on an array of objects or [undefined]. *)
Fixpoint filterBoolean {A : Type} (l : list (option A)) : list A :=
match l with
| [] => []
| Some v :: rest => v :: filterBoolean rest
| None :: rest => filterBoolean rest
end.

Definition Qcleb (x y : Qc) : bool := negb (Qcltb y x).

(** ** The dashboard ([Dashboard], in [Bitcoin.tsx]) *)

Module Dashboard.

Definition isRoundtrip (t : Trade) : bool :=
match type t with
| roundtrip => true
| _ => false
end.

(** [trades.filter((t) => t.type === 'roundtrip')] *)
Definition rtTrades (trades : list Trade) : list Trade :=
filter isRoundtrip trades.

(** [list.reduce((s, t) => s + Number(t.realizedPnl || 0), 0)] *)
Definition sumPnl (list : list Trade) : Qc :=
fold_left (fun s t => s + fieldOr (realizedPnl t) 0) list 0.

Definition totalRealizedPnL (trades : list Trade) : Qc :=
sumPnl (rtTrades trades).

Definition totalAvgReturn (trades : list Trade) : Qc :=
avgReturnPct (rtTrades trades).

(** [rtTrades.filter((t) => t.date === todayStr)] *)
Definition todayTrades (todayStr : string) (trades : list Trade) : list Trade :=
filter (fun t => String.eqb (date t) todayStr) (rtTrades trades).

Definition todayPnL (todayStr : string) (trades : list Trade) : Qc :=
sumPnl (todayTrades todayStr trades).

Definition todayReturn (todayStr : string) (trades : list Trade) : Qc :=
avgReturnPct (todayTrades todayStr trades).

(** [positions.filter((p) => p.holdingQuantity > 0).length] *)
Definition holdingCount (trades : list Trade) : nat :=
length (filter (fun p => Qcltb 0 (holdingQuantity p))
          (calculatePositions trades)).

(** The part of the component state that the calendar buttons change. *)
Record CalendarState : Type := mkCalendarState {
  currentYear : Z;
  currentMonth : Z;
  selectedDate : option string;
  deleteConfirm : option string
}.

Definition goToPrevMonth (st : CalendarState) : CalendarState :=
if (currentMonth st =? 0)%Z then
  {| currentYear := (currentYear st - 1)%Z;
     currentMonth := 11%Z;
     selectedDate := None;
     deleteConfirm := None |}
else
  {| currentYear := currentYear st;
     currentMonth := (currentMonth st - 1)%Z;
     selectedDate := None;
     deleteConfirm := None |}.

Definition goToNextMonth (st : CalendarState) : CalendarState :=
if (currentMonth st =? 11)%Z then
  {| currentYear := (currentYear st + 1)%Z;
     currentMonth := 0%Z;
     selectedDate := None;
     deleteConfirm := None |}
else
  {| currentYear := currentYear st;
     currentMonth := (currentMonth st + 1)%Z;
     selectedDate := None;
     deleteConfirm := None |}.

(** The two [for] loops that fill [cells]; [None] is [null]. *)
Definition cellsOfMonth (firstDay daysInMonth : nat) : list (option nat) :=
repeat None firstDay ++ map Some (seq 1 daysInMonth).

(** [while (cells.length % 7 !== 0) cells.push(null)], with a bound on the
    number of iterations; [None] when the bound is reached. *)
Fixpoint padCells (fuel : nat) (cells : list (option nat))
  : option (list (option nat)) :=
match fuel with
| O => None
| S fuel' =>
    if Nat.eqb (length cells mod 7) 0 then Some cells
    else padCells fuel' (cells ++ [None])
end.

Definition cells (fuel firstDay daysInMonth : nat)
  : option (list (option nat)) :=
padCells fuel (cellsOfMonth firstDay daysInMonth).

(** [selectedTrades.find((t) => t.id === selectedTradeId)
     || (selectedTrades[0] ?? null)] *)
Definition selectedTrade (selectedTrades : list Trade)
  (selectedTradeId : option string) : option Trade :=
let found :=
  match selectedTradeId with
  | Some i => find (fun t => String.eqb (id t) i) selectedTrades
  | None => None
  end in
match found with
| Some t => Some t
| None => hd_error selectedTrades
end.

(** The effect that keeps [selectedTradeId] in step with the selected day:
    the new value of [selectedTradeId], given its previous one. *)
Definition syncSelectedTradeId (selectedDate : option string)
  (selectedTrades : list Trade) (prev : option string) : option string :=
match selectedDate with
| None => None
| Some d =>
    if String.eqb d "" then None
    else
      match selectedTrades with
      | [] => None
      | first :: _ =>
          match prev with
          | Some p =>
              if negb (String.eqb p "")
                 && existsb (fun t => String.eqb (id t) p) selectedTrades
              then Some p
              else Some (id first)
          | None => Some (id first)
          end
      end
end.

End Dashboard.

Module DashboardSection.

Record t : Type := mk {
  id : string;
  title : string;
  visible : bool;
  order : Qc
}.

End DashboardSection.

Module Sections.

(** [(a, b) => a.order - b.order] *)
Definition orderLe (a b : DashboardSection.t) : bool :=
Qcleb (DashboardSection.order a) (DashboardSection.order b).

(** [[...settings.dashboardSections].sort(...).filter((s) => s.visible)] *)
Definition orderedSections (dashboardSections : list DashboardSection.t)
  : list DashboardSection.t :=
filter DashboardSection.visible (stableSort orderLe dashboardSections).

(** [section?.title || id] *)
Definition getSectionTitle (dashboardSections : list DashboardSection.t)
  (i : string) : string :=
match find (fun s => String.eqb (DashboardSection.id s) i) dashboardSections
with
| Some s => if String.eqb (DashboardSection.title s) "" then i
            else DashboardSection.title s
| None => i
end.

End Sections.

(** ** The market ticker ([MarketTickerBar], in [Bitcoin.tsx]) *)

Module MarketItem.

Record t : Type := mk {
  key : string;
  label : string;
  symbol : string;
  price : option Qc;
  changePercent : option Qc;
  ts : Qc
}.

End MarketItem.

Module MarketTickerBar.

Definition order : list string :=
["KOSPI"; "KOSDAQ"; "DOW"; "NASDAQ"; "SP500"; "USDKRW"; "GOLD"; "WTI"].

(** [new Map(items.map(i => [i.key, i]))] *)
Definition itemMap (items : list MarketItem.t) : JsMap.t MarketItem.t :=
fold_left (fun m i => JsMap.set (MarketItem.key i) i m) items JsMap.empty.

(** [order.map(k => map.get(k)).filter(Boolean)] *)
Definition ordered (items : list MarketItem.t) : list MarketItem.t :=
filterBoolean (map (fun k => JsMap.get k (itemMap items)) order).

End MarketTickerBar.

(** ** The portfolio page ([Portfolio]) *)

Module Portfolio.

Definition activePositions (trades : list Trade) : list StockPosition :=
filter (fun p => Qcltb 0 (holdingQuantity p)) (calculatePositions trades).

Definition closedPositions (trades : list Trade) : list StockPosition :=
filter (fun p => Qc_eq_bool (holdingQuantity p) 0 && Qcltb 0 (sellQuantity p))
  (calculatePositions trades).


Definition totalRealizedPnL (trades : list Trade) : Qc :=
fold_left (fun sum p => sum + realizedPnL p) (calculatePositions trades) 0.

End Portfolio.

(** ** Tabs ([types]) *)

Module TabConfig.

Record t : Type := mk {
  id : string;
  label : string;
  visible : bool
}.

End TabConfig.

(** ** The handlers of the collections ([App]) *)

Module App.

(** [handleAddTrade]: the new value of [trades]. *)
Definition handleAddTrade (editingTrade : option Trade) (trade : Trade)
  (prev : list Trade) : list Trade :=
match editingTrade with
| Some _ => map (fun t => if String.eqb (id t) (id trade) then trade else t) prev
| None => prev ++ [trade]
end.

Definition handleDeleteTrade (i : string) (prev : list Trade) : list Trade :=
filter (fun t => negb (String.eqb (id t) i)) prev.

(** [settings.tabs.filter((t) => t.visible)] *)
Definition visibleTabs (tabs : list TabConfig.t) : list TabConfig.t :=
filter TabConfig.visible tabs.

(** The effect that leaves a hidden tab: the new value of [activeTab].
    [settings.tabs.find(...)?.visible] is [undefined], hence falsy, when no
    tab has the id. *)
Definition syncActiveTab (tabs : list TabConfig.t) (activeTab : string)
  : string :=
match find (fun t => String.eqb (TabConfig.id t) activeTab) tabs with
| Some t => if TabConfig.visible t then activeTab else "dashboard"
| None => "dashboard"
end.

Section Collection.

(** [handleSaveNote], [handleSaveDiaryEntry] and [handleSaveBtcTrade] are the
    same code on three record types, each with a string [id]. *)
Context {A : Type} (idOf : A -> string).

Definition handleSave (x : A) (prev : list A) : list A :=
match find (fun n => String.eqb (idOf n) (idOf x)) prev with
| Some _ => map (fun n => if String.eqb (idOf n) (idOf x) then x else n) prev
| None => prev ++ [x]
end.

Definition handleDelete (i : string) (prev : list A) : list A :=
filter (fun n => negb (String.eqb (idOf n) i)) prev.

End Collection.

End App.

(** ** The settings page ([Settings]) *)

Module Settings.

Inductive Direction : Type := up | down.

Definition isUp (d : Direction) : bool :=
match d with
| up => true
| down => false
end.

(** What a handler leaves: the new value of the list it edits (the old one
    when it returns before [setDraft]), or a [TypeError]. *)
Inductive Outcome (A : Type) : Type :=
| Returned (value : A)
| Threw.

Arguments Returned {A} value.
Arguments Threw {A}.

(** [Array.prototype.findIndex]: [-1] when no element passes. *)
Fixpoint findIndex {A : Type} (p : A -> bool) (l : list A) : Z :=
match l with
| [] => (-1)%Z
| x :: rest =>
    if p x then 0%Z
    else let i := findIndex p rest in
         if (i <? 0)%Z then (-1)%Z else (i + 1)%Z
end.

(** [arr[i]]: [None] is [undefined]. *)
Definition at_ {A : Type} (l : list A) (i : Z) : option A :=
if (i <? 0)%Z then None else nth_error l (Z.to_nat i).

(** [arr[n] = v] for an index inside the array.  The handler below writes
    only at indices it has just read an element from. *)
Fixpoint setAt {A : Type} (n : nat) (v : A) (l : list A) : list A :=
match l, n with
| [], _ => []
| _ :: rest, O => v :: rest
| x :: rest, S n' => x :: setAt n' v rest
end.

(** [{ ...s, order: o }] *)
Definition withOrder (s : DashboardSection.t) (o : Qc) : DashboardSection.t :=
{| DashboardSection.id := DashboardSection.id s;
   DashboardSection.title := DashboardSection.title s;
   DashboardSection.visible := DashboardSection.visible s;
   DashboardSection.order := o |}.

(** [handleMoveSection]: the new value of [draft.dashboardSections].
    Reading [.order] of [undefined] throws. *)
Definition handleMoveSection (dashboardSections : list DashboardSection.t)
  (i : string) (direction : Direction)
  : Outcome (list DashboardSection.t) :=
let sorted := stableSort Sections.orderLe dashboardSections in
let idx := findIndex (fun s => String.eqb (DashboardSection.id s) i) sorted in
if isUp direction && (idx <=? 0)%Z then Returned dashboardSections
else if negb (isUp direction) && (idx >=? Z.of_nat (length sorted) - 1)%Z
then Returned dashboardSections
else
  let swapIdx := if isUp direction then (idx - 1)%Z else (idx + 1)%Z in
  match at_ sorted idx with
  | None => Threw
  | Some atIdx =>
      let temp := DashboardSection.order atIdx in
      match at_ sorted swapIdx with
      | None => Threw
      | Some atSwap =>
          let sorted1 :=
            setAt (Z.to_nat idx)
              (withOrder atIdx (DashboardSection.order atSwap)) sorted in
          match at_ sorted1 swapIdx with
          | None => Threw
          | Some atSwap1 =>
              Returned (setAt (Z.to_nat swapIdx) (withOrder atSwap1 temp)
                          sorted1)
          end
      end
  end.

(** [handleSectionToggle] *)
Definition handleSectionToggle (i : string)
  (dashboardSections : list DashboardSection.t) : list DashboardSection.t :=
map (fun s =>
       if String.eqb (DashboardSection.id s) i then
         {| DashboardSection.id := DashboardSection.id s;
            DashboardSection.title := DashboardSection.title s;
            DashboardSection.visible := negb (DashboardSection.visible s);
            DashboardSection.order := DashboardSection.order s |}
       else s)
  dashboardSections.

(** [handleTabToggle]: the dashboard and the settings cannot be hidden. *)
Definition handleTabToggle (i : string) (tabs : list TabConfig.t)
  : list TabConfig.t :=
if String.eqb i "dashboard" || String.eqb i "settings" then tabs
else
  map (fun t =>
         if String.eqb (TabConfig.id t) i then
           {| TabConfig.id := TabConfig.id t;
              TabConfig.label := TabConfig.label t;
              TabConfig.visible := negb (TabConfig.visible t) |}
         else t)
    tabs.

Section Presets.

(** [String.prototype.trim], whose white space is a matter of Unicode, is
    left open: what follows holds of any function in its place. *)
Variable trim : string -> string.

(** One round of the loop of [normalizePresets] on [out] and [seen]. *)
Definition presetStep (st : list string * list string) (raw : string)
  : list string * list string :=
let v := trim raw in
if String.eqb v "" then st
else if existsb (String.eqb v) (snd st) then st
else (fst st ++ [v], snd st ++ [v]).

Definition normalizePresets (arr : list string) : list string :=
fst (fold_left presetStep arr ([], [])).

(** [handleAddPreset]: the new value of [newsPresets]. *)
Definition handleAddPreset (value : string) (prev : list string)
  : list string :=
let v := trim value in
if String.eqb v "" then prev
else normalizePresets (prev ++ [v]).

End Presets.

End Settings.

(** * The aggregators on IEEE doubles *)

Module Double.

Import PrimFloat.
Local Open Scope float_scope.

(** The fields of a trade that the two aggregators read. *)
Record Trade : Type := mkTrade {
  date : string;
  stockName : string;
  stockCode : string;
  type : TradeType;
  quantity : float;
  price : float
}.

Record StockPosition : Type := mkPosition {
  posStockName : string;
  posStockCode : string;
  buyQuantity : float;
  sellQuantity : float;
  holdingQuantity : float;
  avgBuyPrice : float;
  totalBuyCost : float;
  totalSellRevenue : float;
  realizedPnL : float
}.

Definition stockKey (trade : Trade) : string :=
if String.eqb (stockCode trade) "" then stockName trade else stockCode trade.

Definition dateLe (a b : Trade) : bool := String.leb (date a) (date b).

Definition sortByDate (trades : list Trade) : list Trade :=
stableSort dateLe trades.

(** ** [calculatePositions] *)

Definition zeroPosition (trade : Trade) : StockPosition :=
{| posStockName := stockName trade;
   posStockCode := stockCode trade;
   buyQuantity := 0;
   sellQuantity := 0;
   holdingQuantity := 0;
   avgBuyPrice := 0;
   totalBuyCost := 0;
   totalSellRevenue := 0;
   realizedPnL := 0 |}.

Definition applyBuy (pos : StockPosition) (trade : Trade) : StockPosition :=
let cost := price trade * quantity trade in
let tbc := totalBuyCost pos + cost in
let bq := buyQuantity pos + quantity trade in
{| posStockName := posStockName pos;
   posStockCode := posStockCode pos;
   buyQuantity := bq;
   sellQuantity := sellQuantity pos;
   holdingQuantity := holdingQuantity pos;
   avgBuyPrice := if 0 <? bq then tbc / bq else 0;
   totalBuyCost := tbc;
   totalSellRevenue := totalSellRevenue pos;
   realizedPnL := realizedPnL pos |}.

Definition applySell (pos : StockPosition) (trade : Trade) : StockPosition :=
let revenue := price trade * quantity trade in
let costBasis := avgBuyPrice pos * quantity trade in
{| posStockName := posStockName pos;
   posStockCode := posStockCode pos;
   buyQuantity := buyQuantity pos;
   sellQuantity := sellQuantity pos + quantity trade;
   holdingQuantity := holdingQuantity pos;
   avgBuyPrice := avgBuyPrice pos;
   totalBuyCost := totalBuyCost pos;
   totalSellRevenue := totalSellRevenue pos + revenue;
   realizedPnL := realizedPnL pos + (revenue - costBasis) |}.

Definition setHolding (pos : StockPosition) : StockPosition :=
{| posStockName := posStockName pos;
   posStockCode := posStockCode pos;
   buyQuantity := buyQuantity pos;
   sellQuantity := sellQuantity pos;
   holdingQuantity := buyQuantity pos - sellQuantity pos;
   avgBuyPrice := avgBuyPrice pos;
   totalBuyCost := totalBuyCost pos;
   totalSellRevenue := totalSellRevenue pos;
   realizedPnL := realizedPnL pos |}.

Definition applyTrade (pos : StockPosition) (trade : Trade) : StockPosition :=
setHolding (if isBuy (type trade) then applyBuy pos trade
            else applySell pos trade).

Definition posUpdate (o : option StockPosition) (t : Trade) : StockPosition :=
applyTrade (match o with Some p => p | None => zeroPosition t end) t.

Definition positionStep (posMap : JsMap.t StockPosition) (trade : Trade)
  : JsMap.t StockPosition :=
let key := stockKey trade in
JsMap.set key (posUpdate (JsMap.get key posMap) trade) posMap.

Definition calculatePositions (trades : list Trade) : list StockPosition :=
JsMap.values (fold_left positionStep (sortByDate trades) JsMap.empty).

(** ** [getMonthlyStats] *)

Record CostAcc : Type := mkCostAcc {
  totalCost : float;
  totalQty : float
}.

Module Bucket.

Record t : Type := mk {
  buyAmount : float;
  sellAmount : float;
  pnl : float;
  count : nat
}.

Definition zero : t :=
{| buyAmount := 0; sellAmount := 0; pnl := 0; count := 0 |}.

End Bucket.

Record MonthlyStat : Type := mkMonthlyStat {
  month : string;
  buyAmount : float;
  sellAmount : float;
  pnl : float;
  count : nat
}.

Definition costUpdate (o : option CostAcc) (trade : Trade) : CostAcc :=
let existing :=
  match o with
  | Some e => e
  | None => {| totalCost := 0; totalQty := 0 |}
  end in
{| totalCost := totalCost existing + price trade * quantity trade;
   totalQty := totalQty existing + quantity trade |}.

Definition avgPriceStep (st : JsMap.t CostAcc * JsMap.t float) (trade : Trade)
  : JsMap.t CostAcc * JsMap.t float :=
let '(avgPrices, positions) := st in
let key := stockKey trade in
if isBuy (type trade) then
  let existing := costUpdate (JsMap.get key avgPrices) trade in
  (JsMap.set key existing avgPrices,
   JsMap.set key (totalCost existing / totalQty existing) positions)
else st.

Definition avgPricePass (sorted : list Trade) : JsMap.t float :=
snd (fold_left avgPriceStep sorted (JsMap.empty, JsMap.empty)).

Definition monthOf (trade : Trade) : string := substring 0 7 (date trade).

(** [positions.get(key) || trade.price]: [undefined], [0], [-0] and [NaN]
    are falsy. *)
Definition avgPriceFor (positions : JsMap.t float) (trade : Trade) : float :=
match JsMap.get (stockKey trade) positions with
| Some a => if (a =? 0) || PrimFloat.is_nan a then price trade else a
| None => price trade
end.

Definition bucketStep (positions : JsMap.t float) (existing : Bucket.t)
  (trade : Trade) : Bucket.t :=
let amount := price trade * quantity trade in
if isBuy (type trade) then
  {| Bucket.buyAmount := Bucket.buyAmount existing + amount;
     Bucket.sellAmount := Bucket.sellAmount existing;
     Bucket.pnl := Bucket.pnl existing;
     Bucket.count := S (Bucket.count existing) |}
else
  {| Bucket.buyAmount := Bucket.buyAmount existing;
     Bucket.sellAmount := Bucket.sellAmount existing + amount;
     Bucket.pnl := Bucket.pnl existing
                   + (price trade - avgPriceFor positions trade)
                     * quantity trade;
     Bucket.count := S (Bucket.count existing) |}.

Definition monthStep (positions : JsMap.t float) (monthMap : JsMap.t Bucket.t)
  (trade : Trade) : JsMap.t Bucket.t :=
let m := monthOf trade in
let existing :=
  match JsMap.get m monthMap with
  | Some e => e
  | None => Bucket.zero
  end in
JsMap.set m (bucketStep positions existing trade) monthMap.

Definition toMonthlyStat (e : string * Bucket.t) : MonthlyStat :=
{| month := fst e;
   buyAmount := Bucket.buyAmount (snd e);
   sellAmount := Bucket.sellAmount (snd e);
   pnl := Bucket.pnl (snd e);
   count := Bucket.count (snd e) |}.

Definition monthLe (a b : MonthlyStat) : bool := String.leb (month a) (month b).

Definition getMonthlyStats (trades : list Trade) : list MonthlyStat :=
let sorted := sortByDate trades in
sliceLast 12
  (stableSort monthLe
     (map toMonthlyStat
        (JsMap.entries
           (fold_left (monthStep (avgPricePass sorted)) sorted JsMap.empty)))).

(** ** Reading a double *)

(** The rational that a finite double is; [None] for an infinity or
    [NaN]. *)
Definition toQ (f : float) : option Q :=
match FloatOps.Prim2SF f with
| SpecFloat.S754_zero _ => Some 0%Q
| SpecFloat.S754_finite s m e =>
    Some ((if s then inject_Z (Z.neg m) else inject_Z (Z.pos m))
          * Qpower 2 e)%Q
| _ => None
end.

(** ** Sample records and values *)

Definition plainTrade (d name code : string) (ty : TradeType) (q p : float)
  : Trade :=
{| date := d; stockName := name; stockCode := code; type := ty;
   quantity := q; price := p |}.

(** Buy 100 at 10, buy 50 at 12, sell 80 at 15, at the given dates. *)
Definition workedExample (d1 d2 d3 name code : string) : list Trade :=
[plainTrade d1 name code buy 100 10;
 plainTrade d2 name code buy 50 12;
 plainTrade d3 name code sell 80 15].

(** The double written 10.666666666666666, the one nearest to 32/3. *)
Definition nearest_32_3 : float := 0x1.5555555555555p+3.

(** The double written 346.66666666666674. *)
Definition above_1040_3 : float := 0x1.5aaaaaaaaaaacp+8.

Definition seventy : float := 70.

(** The doubles written 0.1, 0.2 and 0.3. *)
Definition tenth : float := 0x1.999999999999ap-4.

Definition fifth : float := 0x1.999999999999ap-3.

Definition threeTenths : float := 0x1.3333333333333p-2.

(** The doubles written 0.6000000000000001 and 0.6. *)
Definition aboveSixTenths : float := 0x1.3333333333334p-1.

Definition sixTenths : float := 0x1.3333333333333p-1.

(** Three buys of one unit on one day, at 0.1, 0.2 and 0.3. *)
Definition tenths : list Trade :=
[plainTrade "2024-05-02" "X" "" buy 1 tenth;
 plainTrade "2024-05-02" "X" "" buy 1 fifth;
 plainTrade "2024-05-02" "X" "" buy 1 threeTenths].

End Double.

(** * Vocabulary of the statements *)

(** ** Reading the results *)

(** The key under which a returned position was accumulated: its
    [stockCode || stockName]. *)
Definition positionKey (p : StockPosition) : string :=
if String.eqb (posStockCode p) "" then posStockName p else posStockCode p.

(** The position that a caller finds for a stock key in the returned array. *)
Definition positionFor (k : string) (ps : list StockPosition)
  : option StockPosition :=
find (fun p => String.eqb (positionKey p) k) ps.

(** The realized P&L that [calculatePositions] reports for a stock key. *)
Definition realizedPnLOf (k : string) (trades : list Trade) : option Qc :=
option_map realizedPnL (positionFor k (calculatePositions trades)).

(** The [positions] map of [getMonthlyStats], built from the whole
    history. *)
Definition finalAvgPrices (trades : list Trade) : JsMap.t Qc :=
avgPricePass (sortByDate trades).

(** The average buy price that the loop of [calculatePositions] holds for the
    stock of [t] when it reaches position [i] of the sorted history. *)
Definition avgBuyPriceAtSell (trades : list Trade) (i : nat) (t : Trade) : Qc :=
match JsMap.get (stockKey t)
        (fold_left positionStep (firstn i (sortByDate trades)) JsMap.empty) with
| Some p => avgBuyPrice p
| None => 0
end.

(** ** Selecting trades, sums *)

Definition isOfKey (k : string) (t : Trade) : bool :=
String.eqb (stockKey t) k.

Definition isSell (t : Trade) : bool := negb (isBuy (type t)).

Definition isBuyOfKey (k : string) (t : Trade) : bool :=
isBuy (type t) && isOfKey k t.

Definition isOfMonth (m : string) (t : Trade) : bool :=
String.eqb (monthOf t) m.

Definition isSellOfMonth (m : string) (t : Trade) : bool :=
isSell t && String.eqb (monthOf t) m.

Definition revenueOf (t : Trade) : Qc := price t * quantity t.

Definition sumQc (l : list Qc) : Qc := fold_right Qcplus 0 l.

(** Arithmetic mean, [0] for no value at all. *)
Definition mean (l : list Qc) : Qc :=
match l with
| [] => 0
| _ => sumQc l / ofNat (length l)
end.

(** The running totals that the first loop of [getMonthlyStats] keeps for a
    key whose buys are [bs]. *)
Definition accOf (bs : list Trade) : CostAcc :=
{| totalCost := sumQc (map revenueOf bs);
   totalQty := sumQc (map quantity bs) |}.

(** The months that occur in the data, each once, ascending. *)
Definition distinctMonthsAsc (trades : list Trade) : list string :=
stableSort String.leb (nodup string_dec (map monthOf trades)).

(** Validated input: positive quantity and price (section 3 of the
    specification; the form of the application refuses anything else). *)
Definition wellFormed (t : Trade) : Prop := 0 < quantity t /\ 0 < price t.

(** ** Reordering the input *)

(** Two input lists, the second obtained from the first by exchanging
    neighbours, each exchange allowed by [ok].  Every permutation of a
    duplicate-free input that inverts only pairs allowed by [ok] is of this
    kind ([reorderBy_complete] below). *)
Inductive reorderBy (ok : Trade -> Trade -> Prop)
  : list Trade -> list Trade -> Prop :=
| reorder_done (l : list Trade) : reorderBy ok l l
| reorder_swap (l1 l2 l' : list Trade) (x y : Trade) :
    ok x y ->
    reorderBy ok (l1 ++ y :: x :: l2) l' ->
    reorderBy ok (l1 ++ x :: y :: l2) l'.



(** Exchanges of two trades of different dates and different stocks. *)
Definition otherDateOtherStock (x y : Trade) : Prop :=
date x <> date y /\ stockKey x <> stockKey y.



(** ** The two trade models *)

(** A record that is not a buy, rewritten as a plain sell at its [price]. *)
Definition asPlainSell (t : Trade) : Trade :=
if isBuy (type t) then t
else
  {| id := id t; date := date t; stockName := stockName t;
     stockCode := stockCode t; type := sell; quantity := quantity t;
     price := price t; memo := memo t; images := images t;
     buyPrice := None; sellPrice := None; realizedPnl := None |}.

(** Section 4.3 of the specification, in its words. *)
Definition specBuyAmount (t : Trade) : Qc :=
nullish (buyPrice t) 0 * quantity t.

Definition specReturnPct (t : Trade) : Qc :=
if Qcltb 0 (specBuyAmount t)
then (nullish (realizedPnl t) 0 / specBuyAmount t) * hundred
else 0.

Definition specAggregateReturn (l : list Trade) : Qc :=
mean (map specReturnPct (filter (fun t => Qcltb 0 (specBuyAmount t)) l)).

(** ** Sample records *)

Definition plainTrade (d name code : string) (ty : TradeType) (q p : Q)
  : Trade :=
{| id := ""; date := d; stockName := name; stockCode := code; type := ty;
   quantity := Q2Qc q; price := Q2Qc p; memo := ""; images := [];
   buyPrice := None; sellPrice := None; realizedPnl := None |}.

Definition roundtripTrade (d name : string) (q bp sp pl : Q) : Trade :=
{| id := ""; date := d; stockName := name; stockCode := "";
   type := roundtrip; quantity := Q2Qc q; price := Q2Qc sp; memo := "";
   images := []; buyPrice := Some (Q2Qc bp); sellPrice := Some (Q2Qc sp);
   realizedPnl := Some (Q2Qc pl) |}.

(** A single sell of 10 at 5 of a stock that was never bought. *)
Definition sampleOnlySell : list Trade :=
[plainTrade "2024-03-01" "Y" "" sell 10 5].

(** Buy 100 at 10, buy 50 at 12, sell 80 at 15, at the given dates. *)
Definition workedExample (d1 d2 d3 name code : string) : list Trade :=
[plainTrade d1 name code buy 100 10;
 plainTrade d2 name code buy 50 12;
 plainTrade d3 name code sell 80 15].

(** A buy and a sell of one stock on one day, in both input orders. *)
Definition sameDayBuyThenSell : list Trade :=
[plainTrade "2024-05-02" "X" "" buy 10 10;
 plainTrade "2024-05-02" "X" "" sell 5 15].

Definition sameDaySellThenBuy : list Trade :=
[plainTrade "2024-05-02" "X" "" sell 5 15;
 plainTrade "2024-05-02" "X" "" buy 10 10].

(** Trades of two stocks on two days, in both input orders. *)
Definition twoStocks : list Trade :=
[plainTrade "2024-05-03" "X" "" buy 10 10;
 plainTrade "2024-05-02" "Y" "000660" sell 5 15].

Definition twoStocksSwapped : list Trade :=
[plainTrade "2024-05-02" "Y" "000660" sell 5 15;
 plainTrade "2024-05-03" "X" "" buy 10 10].

(** A sell between two buys of its stock. *)
Definition sellBetweenBuys : Trade := plainTrade "2024-01-02" "X" "" sell 5 15.

Definition buySellBuy : list Trade :=
[plainTrade "2024-01-01" "X" "" buy 10 10;
 sellBetweenBuys;
 plainTrade "2024-01-03" "X" "" buy 10 20].

(** Fifteen months of trades: stock X is bought in the first month and sold
    in the last one, stock Z is bought in every month between. *)
Definition fifteenMonths : list Trade :=
[plainTrade "2024-03-10" "X" "" sell 5 15;
 plainTrade "2023-01-10" "X" "" buy 10 10;
 plainTrade "2023-02-10" "Z" "" buy 1 1;
 plainTrade "2023-03-10" "Z" "" buy 1 1;
 plainTrade "2023-04-10" "Z" "" buy 1 1;
 plainTrade "2023-05-10" "Z" "" buy 1 1;
 plainTrade "2023-06-10" "Z" "" buy 1 1;
 plainTrade "2023-07-10" "Z" "" buy 1 1;
 plainTrade "2023-08-10" "Z" "" buy 1 1;
 plainTrade "2023-09-10" "Z" "" buy 1 1;
 plainTrade "2023-10-10" "Z" "" buy 1 1;
 plainTrade "2023-11-10" "Z" "" buy 1 1;
 plainTrade "2023-12-10" "Z" "" buy 1 1;
 plainTrade "2024-01-10" "Z" "" buy 1 1;
 plainTrade "2024-02-10" "Z" "" buy 1 1].

Definition lastTwelveOfFifteen : list string :=
["2023-04"; "2023-05"; "2023-06"; "2023-07"; "2023-08"; "2023-09";
 "2023-10"; "2023-11"; "2023-12"; "2024-01"; "2024-02"; "2024-03"].

(** Two round trips of one day; the first one has no cost basis. *)
Definition zeroInvestment : Trade :=
roundtripTrade "2024-06-03" "Z" 10 0 100 1000.

Definition dayOfRoundtrips : list Trade :=
[zeroInvestment; roundtripTrade "2024-06-03" "W" 10 50 55 50].

(** A round trip recorded after a buy of the same stock. *)
Definition mixedModels : list Trade :=
[plainTrade "2024-06-01" "Z" "" buy 10 90;
 roundtripTrade "2024-06-03" "Z" 10 0 100 1000].

(** ** Vocabulary of the further properties *)

Definition isSellOfKey (k : string) (t : Trade) : bool :=
isSell t && isOfKey k t.

Definition isBuyOfMonth (m : string) (t : Trade) : bool :=
isBuy (type t) && String.eqb (monthOf t) m.

(** The distinct strings of a list, each at its first occurrence; [seen]
    holds the ones already met. *)
Fixpoint firstSeenFrom (seen l : list string) : list string :=
match l with
| [] => []
| k :: r =>
    if existsb (String.eqb k) seen then firstSeenFrom seen r
    else k :: firstSeenFrom (seen ++ [k]) r
end.

Definition firstSeen (l : list string) : list string := firstSeenFrom [] l.

(** One stock under two names, and one name with and without a code. *)
Definition renamedTicker : list Trade :=
[plainTrade "2024-02-02" "Kakao Corp" "035720" buy 10 100;
 plainTrade "2024-02-01" "Kakao" "035720" buy 10 80;
 plainTrade "2024-02-03" "Kakao" "" sell 5 120].

(** The entry of [getMonthlyStats] for a month, as sums over the trades. *)
Definition monthlyStatOf (trades : list Trade) (m : string) : MonthlyStat :=
{| month := m;
   buyAmount := sumQc (map revenueOf (filter (isBuyOfMonth m) trades));
   sellAmount := sumQc (map revenueOf (filter (isSellOfMonth m) trades));
   pnl := sumQc (map (sellPnlContribution (finalAvgPrices trades))
                   (filter (isSellOfMonth m) trades));
   count := length (filter (isOfMonth m) trades) |}.


(** A stock bought twice then sold twice, over three months. *)
Definition boughtThenSold : list Trade :=
[plainTrade "2024-04-02" "X" "" buy 10 10;
 plainTrade "2024-05-07" "X" "" sell 5 15;
 plainTrade "2024-04-20" "X" "" buy 10 20;
 plainTrade "2024-06-11" "X" "" sell 10 12].

(** A calendar on December 2024 with a day selected. *)
Definition december : Dashboard.CalendarState :=
{| Dashboard.currentYear := 2024; Dashboard.currentMonth := 11;
   Dashboard.selectedDate := Some "2024-12-03";
   Dashboard.deleteConfirm := None |}.

(** The same state with nothing selected. *)
Definition unselect (st : Dashboard.CalendarState) : Dashboard.CalendarState :=
{| Dashboard.currentYear := Dashboard.currentYear st;
   Dashboard.currentMonth := Dashboard.currentMonth st;
   Dashboard.selectedDate := None;
   Dashboard.deleteConfirm := None |}.

(** Three records with the ids a, b and c on one day. *)
Definition withId (i : string) (t : Trade) : Trade :=
{| id := i; date := date t; stockName := stockName t;
   stockCode := stockCode t; type := type t; quantity := quantity t;
   price := price t; memo := memo t; images := images t;
   buyPrice := buyPrice t; sellPrice := sellPrice t;
   realizedPnl := realizedPnl t |}.

Definition threeOfOneDay : list Trade :=
[withId "a" (plainTrade "2024-06-03" "X" "" buy 1 10);
 withId "b" (plainTrade "2024-06-03" "X" "" sell 1 12);
 withId "c" (roundtripTrade "2024-06-03" "W" 10 50 55 50)].

(** The default sections with the calendar hidden and the chart moved to the
    front. *)
Definition sampleSections : list DashboardSection.t :=
[DashboardSection.mk "stats" "Cards" true (Q2Qc 1);
 DashboardSection.mk "calendar" "Calendar" false (Q2Qc 2);
 DashboardSection.mk "monthlyChart" "" true (Q2Qc 0);
 DashboardSection.mk "news" "News" true (Q2Qc 1)].

(** The last item of a list with a given key. *)
Definition lastWithKey (k : string) (items : list MarketItem.t)
  : option MarketItem.t :=
find (fun i => String.eqb (MarketItem.key i) k) (rev items).

Definition quote (k : string) (p : Q) : MarketItem.t :=
MarketItem.mk k k k (Some (Q2Qc p)) None 0.

Definition sampleQuotes : list MarketItem.t :=
[quote "WTI" 70; quote "KOSPI" 2500; quote "BTC" 1; quote "KOSPI" 2600].

(** The days present in the data, each once, ascending. *)
Definition distinctDatesAsc (trades : list Trade) : list string :=
stableSort String.leb (nodup string_dec (map date trades)).

(** The tabs of the default settings. *)
Definition defaultTabs : list TabConfig.t :=
[TabConfig.mk "dashboard" "Dashboard" true;
 TabConfig.mk "trades" "Trades" true;
 TabConfig.mk "portfolio" "Portfolio" true;
 TabConfig.mk "study" "Study" true;
 TabConfig.mk "diary" "Diary" true;
 TabConfig.mk "bitcoin" "Bitcoin" true;
 TabConfig.mk "settings" "Settings" true].

(** The dashboard sections of the default settings. *)
Definition defaultSections : list DashboardSection.t :=
[DashboardSection.mk "stats" "Cards" true (Q2Qc 0);
 DashboardSection.mk "calendar" "Calendar" true (Q2Qc 1);
 DashboardSection.mk "monthlyChart" "Monthly" true (Q2Qc 2);
 DashboardSection.mk "recentTrades" "Recent" true (Q2Qc 3);
 DashboardSection.mk "news" "News" true (Q2Qc 4)].

(** The tabs after a series of clicks on their switches. *)
Definition afterToggles (clicks : list string) (tabs : list TabConfig.t)
  : list TabConfig.t :=
fold_left (fun ts i => Settings.handleTabToggle i ts) clicks tabs.

(** A stand-in for [trim] in the samples: it drops the leading spaces. *)
Fixpoint dropSpaces (s : string) : string :=
match s with
| EmptyString => s
| String c r => if Ascii.eqb c " " then dropSpaces r else s
end.

Definition nonEmpty (s : string) : bool := negb (String.eqb s "").

(** ** The months as sums over the trades *)

(** The average cost of a stock over the whole collection: the amount of all
    its buys over their quantity; [None] for a stock that is bought
    nowhere. *)
Definition averageCostOf (trades : list Trade) (k : string) : option Qc :=
match filter (isBuyOfKey k) trades with
| [] => None
| bs => Some (sumQc (map revenueOf bs) / sumQc (map quantity bs))
end.

(** What a record that is not a buy adds to the [pnl] of its month:
    [(price - average cost) * quantity], and nothing for a stock that is
    bought nowhere. *)
Definition sellPnlOf (trades : list Trade) (t : Trade) : Qc :=
match averageCostOf trades (stockKey t) with
| Some avg => (price t - avg) * quantity t
| None => 0
end.

(** The entry of a month, each field a sum over the trades of the month. *)
Definition monthEntryOf (trades : list Trade) (m : string) : MonthlyStat :=
{| month := m;
   buyAmount := sumQc (map revenueOf (filter (isBuyOfMonth m) trades));
   sellAmount := sumQc (map revenueOf (filter (isSellOfMonth m) trades));
   pnl := sumQc (map (sellPnlOf trades) (filter (isSellOfMonth m) trades));
   count := length (filter (isOfMonth m) trades) |}.

(** A field of the position found for a key, [0] when there is none yet. *)
Definition fieldOf (f : StockPosition -> Qc) (o : option StockPosition) : Qc :=
match o with
| Some p => f p
| None => 0
end.




(** A month with a sell of a stock that was bought and a sell of one that
    was not. *)
Definition soldUnbought : Trade := plainTrade "2024-03-07" "Y" "" sell 10 5.

Definition boughtAndUnbought : list Trade :=
[plainTrade "2024-03-01" "X" "" buy 10 10;
 plainTrade "2024-03-05" "X" "" sell 5 15;
 soldUnbought].

(** ** Doubles against rationals *)

(** The double [x] is the rational [y]. *)
Definition isRational (x : option Q) (y : Q) : Prop :=
match x with
| Some q => (q == y)%Q
| None => False
end.

(** The double [x] is within [eps] of the rational [y]. *)
Definition withinOf (eps : Q) (x : option Q) (y : Q) : Prop :=
match x with
| Some q => (Qabs (q - y) <= eps)%Q
| None => False
end.

(** ** Evaluation of closed rationals *)

Ltac qc_eq := apply Qc_is_canon; vm_compute; reflexivity.

Ltac qc_neq :=
  let H := fresh in
  intro H; apply (f_equal this) in H; vm_compute in H; discriminate H.

(** * Facts about the model *)

(** ** Numbers *)

Lemma Qcltb_true (x y : Qc) : Qcltb x y = true <-> x < y.
Proof.
unfold Qcltb. rewrite Qclt_alt.
destruct (x ?= y); split; congruence.
Qed.

Lemma Qcltb_false (x y : Qc) : Qcltb x y = false <-> y <= x.
Proof.
split; intro H.
- apply Qcnot_lt_le. intro L. apply Qcltb_true in L. congruence.
- destruct (Qcltb x y) eqn:E; trivial.
  apply Qcltb_true in E. exfalso. exact (Qcle_not_lt _ _ H E).
Qed.

Lemma Qcltb_irrefl (x : Qc) : Qcltb x x = false.
Proof. apply Qcltb_false, Qcle_refl. Qed.

Lemma Qc_eq_bool_refl (x : Qc) : Qc_eq_bool x x = true.
Proof. unfold Qc_eq_bool. destruct (Qc_eq_dec x x); congruence. Qed.

Lemma Qc_eq_bool_neq (x y : Qc) : x <> y -> Qc_eq_bool x y = false.
Proof. unfold Qc_eq_bool. destruct (Qc_eq_dec x y); congruence. Qed.

Lemma orElse_zero (b : Qc) : orElse 0 b = b.
Proof. unfold orElse. now rewrite Qc_eq_bool_refl. Qed.

Lemma orElse_nonzero (a b : Qc) : a <> 0 -> orElse a b = a.
Proof. intro H. unfold orElse. now rewrite Qc_eq_bool_neq. Qed.

Lemma orElse_self_zero (a : Qc) : orElse a 0 = a.
Proof.
unfold orElse, Qc_eq_bool. destruct (Qc_eq_dec a 0); congruence.
Qed.

Lemma Qc_add_pos (a b : Qc) : 0 <= a -> 0 < b -> 0 < a + b.
Proof.
intros Ha Hb.
apply Qcle_lt_trans with (y := a); trivial.
apply Qclt_minus_iff.
replace (a + b + - a) with b by ring. exact Hb.
Qed.

Lemma Qc_mul_pos (a b : Qc) : 0 < a -> 0 < b -> 0 < a * b.
Proof.
intros Ha Hb.
replace 0 with (0 * b) by ring.
now apply Qcmult_lt_compat_r.
Qed.

Lemma Qc_pos_neq (a : Qc) : 0 < a -> a <> 0.
Proof. intros H E. subst a. exact (Qclt_not_eq _ _ H eq_refl). Qed.

Lemma Qc_div_neq0 (a b : Qc) : a <> 0 -> b <> 0 -> a / b <> 0.
Proof.
intros Ha Hb E. unfold Qcdiv in E.
destruct (Qcmult_integral _ _ E) as [E0 | E0]; [now apply Ha |].
apply Q_apart_0_1. rewrite <- (Qcmult_inv_r b Hb), E0. ring.
Qed.

(** ** Order of strings *)

Lemma string_leb_refl (s : string) : String.leb s s = true.
Proof. destruct (String.leb_total s s); assumption. Qed.

Lemma string_compare_lt_trans (a b c : string) :
  String.compare a b = Lt -> String.compare b c = Lt -> String.compare a c = Lt.
Proof.
revert b c. induction a as [| x a IH]; intros [| y b] [| z c]; simpl;
  try discriminate; trivial.
destruct (Ascii.compare x y) eqn:Exy; try discriminate;
  destruct (Ascii.compare y z) eqn:Eyz; try discriminate; intros H1 H2.
- apply Ascii.compare_eq_iff in Exy, Eyz. subst.
  assert (R : Ascii.compare z z = Eq).
  { destruct (Ascii.compare z z) eqn:E; trivial;
      pose proof (Ascii.compare_antisym z z) as As; rewrite E in As;
      discriminate. }
  rewrite R. eauto.
- apply Ascii.compare_eq_iff in Exy. subst. now rewrite Eyz.
- apply Ascii.compare_eq_iff in Eyz. subst. now rewrite Exy.
- unfold Ascii.compare in *.
  rewrite N.compare_lt_iff in *.
  assert (L : (N_of_ascii x < N_of_ascii z)%N) by lia.
  apply N.compare_lt_iff in L. now rewrite L.
Qed.

Lemma string_leb_trans (a b c : string) :
  String.leb a b = true -> String.leb b c = true -> String.leb a c = true.
Proof.
unfold String.leb.
destruct (String.compare a b) eqn:Eab; try discriminate;
  destruct (String.compare b c) eqn:Ebc; try discriminate; intros _ _.
- apply String.compare_eq_iff in Eab, Ebc. subst.
  destruct (String.compare c c) eqn:E; trivial.
  pose proof (String.compare_antisym c c) as As. rewrite E in As. discriminate.
- apply String.compare_eq_iff in Eab. subst. now rewrite Ebc.
- apply String.compare_eq_iff in Ebc. subst. now rewrite Eab.
- now rewrite (string_compare_lt_trans a b c).
Qed.

Lemma string_leb_neq_ltb (a b : string) :
  String.leb a b = true -> a <> b -> String.ltb a b = true.
Proof.
unfold String.leb, String.ltb.
destruct (String.compare a b) eqn:E; try discriminate; trivial.
apply String.compare_eq_iff in E. congruence.
Qed.

(** ** The [Map] model *)

Section JsMapFacts.

Context {V : Type}.

Implicit Types (m : JsMap.t V) (k : string) (v : V).

Lemma get_set_same m k v : JsMap.get k (JsMap.set k v m) = Some v.
Proof.
induction m as [| [k' v'] m IH]; simpl.
- now rewrite String.eqb_refl.
- destruct (String.eqb k' k) eqn:E; simpl.
  + now rewrite String.eqb_refl.
  + now rewrite E.
Qed.

Lemma get_set_other m k k' v :
  k <> k' -> JsMap.get k' (JsMap.set k v m) = JsMap.get k' m.
Proof.
intro N. induction m as [| [k0 v0] m IH]; simpl.
- apply String.eqb_neq in N. now rewrite N.
- destruct (String.eqb k0 k) eqn:E; simpl.
  + apply String.eqb_eq in E. subst k0.
    apply String.eqb_neq in N. now rewrite N.
  + destruct (String.eqb k0 k'); trivial.
Qed.

Lemma keys_set_in m k v :
  In k (JsMap.keys m) -> JsMap.keys (JsMap.set k v m) = JsMap.keys m.
Proof.
induction m as [| [k0 v0] m IH]; simpl; [tauto |].
intros [E | H].
- subst k0. now rewrite String.eqb_refl.
- destruct (String.eqb k0 k) eqn:E; simpl.
  + apply String.eqb_eq in E. now subst.
  + f_equal. now apply IH.
Qed.

Lemma keys_set_notin m k v :
  ~ In k (JsMap.keys m) -> JsMap.keys (JsMap.set k v m) = JsMap.keys m ++ [k].
Proof.
induction m as [| [k0 v0] m IH]; simpl; trivial.
intro N. destruct (String.eqb k0 k) eqn:E; simpl.
- apply String.eqb_eq in E. tauto.
- f_equal. apply IH. tauto.
Qed.

Lemma keys_set_iff m k v k' :
  In k' (JsMap.keys (JsMap.set k v m)) <-> k' = k \/ In k' (JsMap.keys m).
Proof.
destruct (in_dec string_dec k (JsMap.keys m)) as [I | N].
- rewrite keys_set_in by assumption. split; [tauto |].
  intros [-> | H]; assumption.
- rewrite keys_set_notin by assumption. rewrite in_app_iff. simpl.
  split; [intros [H | [H | []]] | intros [H | H]]; auto.
Qed.

Lemma keys_set_NoDup m k v :
  NoDup (JsMap.keys m) -> NoDup (JsMap.keys (JsMap.set k v m)).
Proof.
intro ND. destruct (in_dec string_dec k (JsMap.keys m)) as [I | N].
- now rewrite keys_set_in.
- rewrite keys_set_notin by assumption.
  apply NoDup_rev in ND. rewrite <- (rev_involutive (_ ++ _)).
  apply NoDup_rev. rewrite rev_app_distr. simpl. constructor; trivial.
  now rewrite <- in_rev.
Qed.

Lemma get_None_iff m k : JsMap.get k m = None <-> ~ In k (JsMap.keys m).
Proof.
induction m as [| [k0 v0] m IH]; simpl; [tauto |].
destruct (String.eqb k0 k) eqn:E.
- apply String.eqb_eq in E. split; [discriminate | tauto].
- apply String.eqb_neq in E. rewrite IH. tauto.
Qed.

Lemma get_In m k v : JsMap.get k m = Some v -> In (k, v) m.
Proof.
induction m as [| [k0 v0] m IH]; simpl; [discriminate |].
destruct (String.eqb k0 k) eqn:E.
- apply String.eqb_eq in E. intros [= ->]. subst. now left.
- auto.
Qed.

Lemma In_get m k v :
  NoDup (JsMap.keys m) -> In (k, v) m -> JsMap.get k m = Some v.
Proof.
induction m as [| [k0 v0] m IH]; simpl; [tauto |].
intros ND [E | H]; inversion ND as [| ? ? N ND']; subst.
- injection E as -> ->. now rewrite String.eqb_refl.
- destruct (String.eqb k0 k) eqn:E.
  + apply String.eqb_eq in E. subst k0.
    exfalso. apply N. change k with (fst (k, v)). now apply in_map.
  + now apply IH.
Qed.

(** A loop that reads the entry of each item's key and writes it back,
    seen from one key. *)
Lemma get_fold_set {T : Type} (keyOf : T -> string) (f : option V -> T -> V)
  (l : list T) m k :
  JsMap.get k
    (fold_left (fun m t => JsMap.set (keyOf t) (f (JsMap.get (keyOf t) m) t) m)
       l m)
  = fold_left (fun o t => if String.eqb (keyOf t) k then Some (f o t) else o)
      l (JsMap.get k m).
Proof.
revert m. induction l as [| t l IH]; intro m; simpl; trivial.
rewrite IH. f_equal.
destruct (String.eqb (keyOf t) k) eqn:E.
- apply String.eqb_eq in E. subst k. apply get_set_same.
- apply String.eqb_neq in E. now apply get_set_other.
Qed.

Lemma keys_fold_set {T : Type} (keyOf : T -> string) (f : option V -> T -> V)
  (l : list T) m :
  let m' :=
    fold_left (fun m t => JsMap.set (keyOf t) (f (JsMap.get (keyOf t) m) t) m)
      l m in
  (NoDup (JsMap.keys m) -> NoDup (JsMap.keys m')) /\
  (forall k, In k (JsMap.keys m') <-> In k (JsMap.keys m) \/ In k (map keyOf l)).
Proof.
revert m. induction l as [| t l IH]; intro m; simpl.
- split; [trivial | intro k; tauto].
- destruct (IH (JsMap.set (keyOf t) (f (JsMap.get (keyOf t) m) t) m))
    as [ND I].
  split.
  + intro H. apply ND. now apply keys_set_NoDup.
  + intro k. rewrite I, keys_set_iff. intuition congruence.
Qed.

End JsMapFacts.

Lemma fold_left_filter_key {T O : Type} (p : T -> bool) (g : O -> T -> O)
  (l : list T) (o : O) :
  fold_left (fun o t => if p t then g o t else o) l o
  = fold_left g (filter p l) o.
Proof.
revert o. induction l as [| t l IH]; intro o; simpl; trivial.
destruct (p t); simpl; apply IH.
Qed.

(** ** The stable sort *)

Section StableSortFacts.

Context {A : Type} (le : A -> A -> bool).

Hypothesis le_total : forall a b, le a b = true \/ le b a = true.
Hypothesis le_trans :
  forall a b c, le a b = true -> le b c = true -> le a c = true.

Lemma stableSort_cons (x : A) (l : list A) :
  stableSort le (x :: l) = insertSorted le x (stableSort le l).
Proof. reflexivity. Qed.

Lemma insertSorted_perm (x : A) (l : list A) :
  Permutation (insertSorted le x l) (x :: l).
Proof.
induction l as [| h t IH]; simpl; trivial.
destruct (le x h); trivial.
rewrite IH. apply perm_swap.
Qed.

Lemma stableSort_perm (l : list A) : Permutation (stableSort le l) l.
Proof.
induction l as [| h t IH]; simpl; trivial.
rewrite insertSorted_perm. now constructor.
Qed.

Lemma stableSort_In (l : list A) (x : A) : In x (stableSort le l) <-> In x l.
Proof.
split; apply Permutation_in; [| symmetry]; apply stableSort_perm.
Qed.

Lemma insertSorted_sorted (x : A) (l : list A) :
  StronglySorted (fun a b => le a b = true) l ->
  StronglySorted (fun a b => le a b = true) (insertSorted le x l).
Proof.
induction 1 as [| h t S IH F]; simpl.
- repeat constructor.
- destruct (le x h) eqn:E.
  + constructor; [now constructor |].
    constructor; trivial.
    rewrite Forall_forall in *. eauto.
  + constructor; trivial.
    assert (Hh : le h x = true) by (destruct (le_total x h); congruence).
    rewrite Forall_forall in *. intros y Hy.
    apply (Permutation_in _ (insertSorted_perm x t)) in Hy.
    destruct Hy as [<- | Hy]; auto.
Qed.

Lemma stableSort_sorted (l : list A) :
  StronglySorted (fun a b => le a b = true) (stableSort le l).
Proof.
induction l as [| h t IH]; simpl; [constructor |].
now apply insertSorted_sorted.
Qed.

(** Two items of which one is strictly before the other end up in the same
    places whichever is inserted first. *)
Lemma insertSorted_comm_strict (x y : A) (s : list A) :
  le y x = false ->
  insertSorted le x (insertSorted le y s)
  = insertSorted le y (insertSorted le x s).
Proof.
intro Hyx.
assert (Hxy : le x y = true) by (destruct (le_total x y); congruence).
induction s as [| h t IH]; simpl.
- now rewrite Hxy, Hyx.
- destruct (le y h) eqn:Eyh.
  + rewrite (le_trans x y h Hxy Eyh). simpl. now rewrite Hxy, Hyx, Eyh.
  + destruct (le x h) eqn:Exh; simpl.
    * now rewrite Exh, Hyx, Eyh.
    * now rewrite Exh, Eyh, IH.
Qed.

Lemma stableSort_swap_strict (l1 l2 : list A) (x y : A) :
  le x y = false \/ le y x = false ->
  stableSort le (l1 ++ x :: y :: l2) = stableSort le (l1 ++ y :: x :: l2).
Proof.
intro H. induction l1 as [| h t IH].
- cbn [app]. rewrite !stableSort_cons. destruct H as [H | H].
  + symmetry. now apply insertSorted_comm_strict.
  + now apply insertSorted_comm_strict.
- rewrite <- !app_comm_cons, !stableSort_cons. now rewrite IH.
Qed.




(** With an antisymmetric order the result does not depend on the input
    order at all. *)
Lemma stableSort_perm_eq (l l' : list A) :
  (forall a b, le a b = true -> le b a = true -> a = b) ->
  Permutation l l' -> stableSort le l = stableSort le l'.
Proof.
intros anti P. induction P as [| x l l' P IH | x y l | l l' l'' P1 IH1 P2 IH2];
  rewrite ?stableSort_cons; trivial.
- now rewrite IH.
- destruct (le x y) eqn:Exy.
  + destruct (le y x) eqn:Eyx.
    * now rewrite (anti x y Exy Eyx).
    * symmetry. now apply insertSorted_comm_strict.
  + now apply insertSorted_comm_strict.
- congruence.
Qed.

End StableSortFacts.

Lemma stableSort_map {A B : Type} (leA : A -> A -> bool) (leB : B -> B -> bool)
  (f : A -> B) (l : list A) :
  (forall a b, leB (f a) (f b) = leA a b) ->
  stableSort leB (map f l) = map f (stableSort leA l).
Proof.
intro H.
assert (I : forall x s,
  insertSorted leB (f x) (map f s) = map f (insertSorted leA x s)).
{ intros x s. induction s as [| h t IH]; simpl; trivial.
  rewrite H. destruct (leA x h); simpl; trivial. now rewrite IH. }
induction l as [| h t IH]; trivial.
cbn [map]. rewrite !stableSort_cons. now rewrite IH, I.
Qed.

Lemma sliceLast_length {A : Type} (n : nat) (l : list A) :
  length (sliceLast n l) = Nat.min n (length l).
Proof. unfold sliceLast. rewrite length_skipn. lia. Qed.

Lemma sliceLast_map {A B : Type} (f : A -> B) (n : nat) (l : list A) :
  map f (sliceLast n l) = sliceLast n (map f l).
Proof. unfold sliceLast. now rewrite skipn_map, length_map. Qed.

Lemma sliceLast_In {A : Type} (n : nat) (l : list A) (x : A) :
  In x (sliceLast n l) -> In x l.
Proof.
unfold sliceLast. intro H.
rewrite <- (firstn_skipn (length l - n) l). apply in_or_app. now right.
Qed.

Lemma skipn_StronglySorted {A : Type} (R : A -> A -> Prop) (n : nat)
  (l : list A) :
  StronglySorted R l -> StronglySorted R (skipn n l).
Proof.
revert l. induction n as [| n IH]; intros l S; simpl; trivial.
destruct l as [| h t]; trivial.
apply IH. now inversion S.
Qed.

(** ** Order of dates *)

Lemma dateLe_total (a b : Trade) : dateLe a b = true \/ dateLe b a = true.
Proof. apply String.leb_total. Qed.

Lemma dateLe_trans (a b c : Trade) :
  dateLe a b = true -> dateLe b c = true -> dateLe a c = true.
Proof. apply string_leb_trans. Qed.

Lemma dateLe_tie (a b : Trade) :
  dateLe a b = true -> dateLe b a = true -> date a = date b.
Proof. apply String.leb_antisym. Qed.

Lemma dateLe_same (a b : Trade) : date a = date b -> dateLe a b = true.
Proof. unfold dateLe. intros ->. apply string_leb_refl. Qed.

Lemma sortByDate_perm (l : list Trade) : Permutation (sortByDate l) l.
Proof. apply stableSort_perm. Qed.

Lemma sortByDate_In (l : list Trade) (t : Trade) :
  In t (sortByDate l) <-> In t l.
Proof. apply stableSort_In. Qed.

(** ** [calculatePositions] seen from one stock key *)

Lemma positionStep_set (m : JsMap.t StockPosition) (t : Trade) :
  positionStep m t
  = JsMap.set (stockKey t) (posUpdate (JsMap.get (stockKey t) m) t) m.
Proof. reflexivity. Qed.

Lemma fold_posUpdate_Some (ts : list Trade) (p : StockPosition) :
  fold_left (fun o t => Some (posUpdate o t)) ts (Some p)
  = Some (fold_left applyTrade ts p).
Proof.
revert p. induction ts as [| t ts IH]; intro p; simpl; [reflexivity |].
apply IH.
Qed.

Lemma get_fold_positionStep (l : list Trade) (m : JsMap.t StockPosition)
  (k : string) :
  JsMap.get k (fold_left positionStep l m)
  = fold_left (fun o t => Some (posUpdate o t)) (filter (isOfKey k) l)
      (JsMap.get k m).
Proof.
rewrite <- fold_left_filter_key.
exact (get_fold_set stockKey posUpdate l m k).
Qed.

(** The entry of a key is the fold of that key's trades alone, started from
    the zeroed position of its first trade. *)
Lemma get_positionMap (trades : list Trade) (k : string) :
  JsMap.get k (positionMap trades)
  = match filter (isOfKey k) (sortByDate trades) with
    | [] => None
    | t :: ts => Some (fold_left applyTrade (t :: ts) (zeroPosition t))
    end.
Proof.
unfold positionMap. rewrite get_fold_positionStep. simpl.
destruct (filter (isOfKey k) (sortByDate trades)) as [| t ts]; trivial.
simpl. apply fold_posUpdate_Some.
Qed.

Lemma positionKey_applyTrade (p : StockPosition) (t : Trade) :
  positionKey (applyTrade p t) = positionKey p.
Proof. unfold applyTrade. now destruct (isBuy (type t)). Qed.

Lemma positionKey_posUpdate (m : JsMap.t StockPosition) (t : Trade) :
  Forall (fun e => positionKey (snd e) = fst e) m ->
  positionKey (posUpdate (JsMap.get (stockKey t) m) t) = stockKey t.
Proof.
intro F. unfold posUpdate. rewrite positionKey_applyTrade.
destruct (JsMap.get (stockKey t) m) as [p |] eqn:G; trivial.
apply get_In in G. rewrite Forall_forall in F. exact (F _ G).
Qed.

Lemma set_Forall {V : Type} (P : string * V -> Prop) (m : JsMap.t V)
  (k : string) (v : V) :
  Forall P m -> P (k, v) -> Forall P (JsMap.set k v m).
Proof.
intros F H. induction F as [| [k0 v0] m H0 F IH]; simpl.
- now constructor.
- destruct (String.eqb k0 k); constructor; trivial.
Qed.

Lemma fold_positionStep_keys (l : list Trade) (m : JsMap.t StockPosition) :
  Forall (fun e => positionKey (snd e) = fst e) m ->
  Forall (fun e => positionKey (snd e) = fst e) (fold_left positionStep l m).
Proof.
revert m. induction l as [| t l IH]; intros m F; simpl; trivial.
apply IH. rewrite positionStep_set. apply set_Forall; trivial.
simpl. now apply positionKey_posUpdate.
Qed.

Lemma positionFor_values (m : JsMap.t StockPosition) (k : string) :
  Forall (fun e => positionKey (snd e) = fst e) m ->
  positionFor k (JsMap.values m) = JsMap.get k m.
Proof.
unfold positionFor. induction 1 as [| [k0 p] m H F IH]; simpl; trivial.
simpl in H. rewrite H. destruct (String.eqb k0 k); trivial.
Qed.

Lemma positionFor_calculatePositions (trades : list Trade) (k : string) :
  positionFor k (calculatePositions trades) = JsMap.get k (positionMap trades).
Proof.
apply positionFor_values, fold_positionStep_keys. constructor.
Qed.

(** ** Sums *)

Lemma sumQc_app (l1 l2 : list Qc) : sumQc (l1 ++ l2) = sumQc l1 + sumQc l2.
Proof.
induction l1 as [| x l1 IH]; simpl.
- ring.
- rewrite IH. ring.
Qed.

Lemma sumQc_perm (l1 l2 : list Qc) : Permutation l1 l2 -> sumQc l1 = sumQc l2.
Proof.
induction 1; simpl; try congruence.
ring.
Qed.

Lemma reduceSum_sumQc (l : list Qc) : reduceSum l = sumQc l.
Proof.
unfold reduceSum.
assert (G : forall a, fold_left Qcplus l a = a + sumQc l).
{ induction l as [| x l IH]; intro a; simpl.
  - ring.
  - rewrite IH. ring. }
rewrite G. ring.
Qed.

Lemma filter_perm {A : Type} (p : A -> bool) (l l' : list A) :
  Permutation l l' -> Permutation (filter p l) (filter p l').
Proof.
induction 1 as [| x l l' P IH | x y l | l l' l'' P1 IH1 P2 IH2]; simpl.
- constructor.
- destruct (p x); auto.
- destruct (p x), (p y); auto. apply perm_swap.
- now transitivity (filter p l').
Qed.

Lemma sum_over_sorted (f : Trade -> Qc) (p : Trade -> bool)
  (trades : list Trade) :
  sumQc (map f (filter p (sortByDate trades)))
  = sumQc (map f (filter p trades)).
Proof.
apply sumQc_perm, Permutation_map, filter_perm, sortByDate_perm.
Qed.

(** ** Folding the trades of one stock *)

Lemma isOfKey_true (k : string) (t : Trade) : isOfKey k t = true <-> stockKey t = k.
Proof. apply String.eqb_eq. Qed.

Lemma holding_applyTrade (p : StockPosition) (t : Trade) :
  holdingQuantity (applyTrade p t)
  = buyQuantity (applyTrade p t) - sellQuantity (applyTrade p t).
Proof. unfold applyTrade. now destruct (isBuy (type t)). Qed.

Lemma holding_fold (ts : list Trade) (p : StockPosition) :
  holdingQuantity p = buyQuantity p - sellQuantity p ->
  holdingQuantity (fold_left applyTrade ts p)
  = buyQuantity (fold_left applyTrade ts p)
    - sellQuantity (fold_left applyTrade ts p).
Proof.
revert p. induction ts as [| t ts IH]; intros p H; simpl; trivial.
apply IH, holding_applyTrade.
Qed.

(** Sells alone leave a zero average at zero and book their whole revenue. *)
Lemma fold_applyTrade_sells (ts : list Trade) (p : StockPosition) :
  Forall (fun t => isBuy (type t) = false) ts ->
  avgBuyPrice p = 0 ->
  avgBuyPrice (fold_left applyTrade ts p) = 0 /\
  buyQuantity (fold_left applyTrade ts p) = buyQuantity p /\
  realizedPnL (fold_left applyTrade ts p)
  = realizedPnL p + sumQc (map revenueOf ts) /\
  totalSellRevenue (fold_left applyTrade ts p)
  = totalSellRevenue p + sumQc (map revenueOf ts) /\
  sellQuantity (fold_left applyTrade ts p)
  = sellQuantity p + sumQc (map quantity ts).
Proof.
intro F. revert p. induction F as [| t ts Ht F IH]; intros p Hp; simpl.
- repeat split; trivial; ring.
- assert (Ha : avgBuyPrice (applyTrade p t) = 0).
  { unfold applyTrade. now rewrite Ht. }
  destruct (IH _ Ha) as (H1 & H2 & H3 & H4 & H5).
  rewrite H1, H2, H3, H4, H5. unfold applyTrade. rewrite Ht. simpl.
  rewrite Hp. unfold revenueOf. repeat split; ring.
Qed.

Lemma filter_key_sells (trades : list Trade) (k : string) :
  (forall t, In t trades -> stockKey t = k -> isBuy (type t) = false) ->
  Forall (fun t => isBuy (type t) = false)
    (filter (isOfKey k) (sortByDate trades)).
Proof.
intro H. apply Forall_forall. intros t Ht.
apply filter_In in Ht. destruct Ht as [I K].
apply (proj1 (sortByDate_In _ _)) in I.
apply (proj1 (isOfKey_true _ _)) in K. exact (H t I K).
Qed.

(** The trades of a key that has records but no buy: a non-empty run of
    sells. *)
Lemma sells_only_run (trades : list Trade) (k : string) :
  (exists t, In t trades /\ stockKey t = k) ->
  (forall t, In t trades -> stockKey t = k -> isBuy (type t) = false) ->
  exists t ts,
    filter (isOfKey k) (sortByDate trades) = t :: ts /\
    Forall (fun t => isBuy (type t) = false) (t :: ts).
Proof.
intros (t0 & I0 & K0) NoBuy.
pose proof (filter_key_sells trades k NoBuy) as F.
destruct (filter (isOfKey k) (sortByDate trades)) as [| t ts] eqn:E.
- exfalso.
  assert (I : In t0 (filter (isOfKey k) (sortByDate trades))).
  { apply filter_In. split; [now apply sortByDate_In | now apply isOfKey_true]. }
  now rewrite E in I.
- now exists t, ts.
Qed.

(** C3. For every trade collection and every stock key that has records but
    no buy among them, [calculatePositions] returns a position of that key
    with [avgBuyPrice = 0] whose [realizedPnL] is the whole sell revenue of
    the key; nothing rejects the over-sell, and [holdingQuantity] is minus
    the quantity sold. *)
Theorem calculatePositions_sells_without_buys (trades : list Trade)
  (k : string) :
  (exists t, In t trades /\ stockKey t = k) ->
  (forall t, In t trades -> stockKey t = k -> isBuy (type t) = false) ->
  exists p,
    positionFor k (calculatePositions trades) = Some p /\
    avgBuyPrice p = 0 /\
    realizedPnL p = sumQc (map revenueOf (filter (isOfKey k) trades)) /\
    totalSellRevenue p = realizedPnL p /\
    holdingQuantity p = - sumQc (map quantity (filter (isOfKey k) trades)).
Proof.
intros Some1 NoBuy.
destruct (sells_only_run trades k Some1 NoBuy) as (t & ts & E & F).
rewrite positionFor_calculatePositions, get_positionMap, E.
rewrite <- (sum_over_sorted revenueOf), <- (sum_over_sorted quantity), E.
eexists. split; [reflexivity |].
destruct (fold_applyTrade_sells (t :: ts) (zeroPosition t) F eq_refl)
  as (H1 & H2 & H3 & H4 & H5).
rewrite (holding_fold (t :: ts) (zeroPosition t)) by (simpl; ring).
rewrite H1, H2, H3, H4, H5.
cbn [zeroPosition buyQuantity sellQuantity realizedPnL totalSellRevenue].
repeat split; ring.
Qed.

Lemma calculatePositions_sells_without_buys_witness :
  (exists t, In t sampleOnlySell /\ stockKey t = "Y") /\
  (forall t, In t sampleOnlySell -> stockKey t = "Y" ->
     isBuy (type t) = false) /\
  exists p,
    positionFor "Y" (calculatePositions sampleOnlySell) = Some p /\
    avgBuyPrice p = 0 /\
    realizedPnL p = Q2Qc 50 /\
    holdingQuantity p = Q2Qc (-10).
Proof.
assert (H1 : exists t, In t sampleOnlySell /\ stockKey t = "Y").
{ eexists. split; [left; reflexivity | reflexivity]. }
assert (H2 : forall t, In t sampleOnlySell -> stockKey t = "Y" ->
               isBuy (type t) = false).
{ intros t [<- | []] _. reflexivity. }
split; [exact H1 | split; [exact H2 |]].
destruct (calculatePositions_sells_without_buys sampleOnlySell "Y" H1 H2)
  as (p & Hp & Ha & Hr & _ & Hh).
exists p. split; [exact Hp | split; [exact Ha | split]].
- rewrite Hr. apply Qc_is_canon. reflexivity.
- rewrite Hh. apply Qc_is_canon. reflexivity.
Defined.

Lemma worked_example_exact (d1 d2 d3 name code : string) :
  String.leb d1 d2 = true ->
  String.leb d2 d3 = true ->
  exists p,
    calculatePositions (workedExample d1 d2 d3 name code) = [p] /\
    avgBuyPrice p = Q2Qc (32 # 3) /\
    realizedPnL p = Q2Qc (1040 # 3) /\
    holdingQuantity p = Q2Qc 70.
Proof.
intros H12 H23.
assert (S : sortByDate (workedExample d1 d2 d3 name code)
            = workedExample d1 d2 d3 name code).
{ unfold sortByDate, workedExample, stableSort, dateLe.
  cbn [fold_right insertSorted date plainTrade]. rewrite H23.
  cbn [insertSorted date plainTrade]. now rewrite H12. }
unfold calculatePositions, positionMap. rewrite S.
unfold workedExample. cbn [fold_left].
rewrite !positionStep_set.
change (stockKey (plainTrade d1 name code buy 100 10))
  with (if String.eqb code "" then name else code).
change (stockKey (plainTrade d2 name code buy 50 12))
  with (if String.eqb code "" then name else code).
change (stockKey (plainTrade d3 name code sell 80 15))
  with (if String.eqb code "" then name else code).
set (k := if String.eqb code "" then name else code).
repeat (cbn [JsMap.get JsMap.set JsMap.empty]; rewrite ?String.eqb_refl).
cbn [JsMap.values map snd].
eexists. split; [reflexivity |].
repeat split; apply Qc_is_canon; vm_compute; reflexivity.
Qed.

Lemma worked_example_doubles (d1 d2 d3 name code : string) :
  String.leb d1 d2 = true ->
  String.leb d2 d3 = true ->
  exists p,
    Double.calculatePositions (Double.workedExample d1 d2 d3 name code) = [p] /\
    Double.avgBuyPrice p = Double.nearest_32_3 /\
    Double.realizedPnL p = Double.above_1040_3 /\
    Double.holdingQuantity p = Double.seventy.
Proof.
intros H12 H23.
assert (S : Double.sortByDate (Double.workedExample d1 d2 d3 name code)
            = Double.workedExample d1 d2 d3 name code).
{ unfold Double.sortByDate, Double.workedExample, stableSort, Double.dateLe.
  cbn [fold_right insertSorted Double.date Double.plainTrade]. rewrite H23.
  cbn [insertSorted Double.date Double.plainTrade]. now rewrite H12. }
unfold Double.calculatePositions. rewrite S.
unfold Double.workedExample. cbn [fold_left].
unfold Double.positionStep, Double.stockKey, Double.plainTrade. cbv zeta.
cbn [Double.stockCode Double.stockName].
set (k := if String.eqb code "" then name else code).
repeat (cbn [JsMap.get JsMap.set JsMap.empty]; rewrite ?String.eqb_refl).
cbn [JsMap.values map snd].
eexists. split; [reflexivity |].
repeat split; vm_compute; reflexivity.
Qed.

(** What the two doubles are, as rationals. *)
Lemma worked_example_values :
  withinOf (1 # 1125899906842624) (Double.toQ Double.nearest_32_3) (32 # 3) /\
  ~ isRational (Double.toQ Double.nearest_32_3) (32 # 3) /\
  withinOf (1 # 10000000000000) (Double.toQ Double.above_1040_3) (1040 # 3) /\
  ~ isRational (Double.toQ Double.above_1040_3) (1040 # 3) /\
  isRational (Double.toQ Double.seventy) 70.
Proof.
repeat split; vm_compute; discriminate.
Qed.

(** C4, as amended. Buy 100 at 10, buy 50 at 12, then sell 80 at 15 of one
    stock, in chronological order.  The code computes in doubles: its
    [avgBuyPrice] is the double 10.666666666666666, within half a unit in
    the last place (2^-50) of (1000+600)/150 = 32/3 and not 32/3; its
    [realizedPnL] is the double 346.66666666666674, which is 1200 minus the
    rounded product of that average and 80, within 10^-13 of (15 - 32/3) *
    80 = 1040/3 and not 1040/3; its [holdingQuantity] is 150 - 80 = 70.  In
    exact arithmetic the same steps give 32/3, 1040/3 and 70. *)
Theorem calculatePositions_worked_example (d1 d2 d3 name code : string) :
  String.leb d1 d2 = true ->
  String.leb d2 d3 = true ->
  (exists p,
     Double.calculatePositions (Double.workedExample d1 d2 d3 name code) = [p] /\
     Double.avgBuyPrice p = Double.nearest_32_3 /\
     withinOf (1 # 1125899906842624) (Double.toQ (Double.avgBuyPrice p))
       ((1000 + 600) / 150) /\
     ~ isRational (Double.toQ (Double.avgBuyPrice p)) (32 # 3) /\
     Double.realizedPnL p = Double.above_1040_3 /\
     withinOf (1 # 10000000000000) (Double.toQ (Double.realizedPnL p))
       ((15 - (32 # 3)) * 80) /\
     ~ isRational (Double.toQ (Double.realizedPnL p)) (1040 # 3) /\
     isRational (Double.toQ (Double.holdingQuantity p)) (150 - 80)) /\
  (exists q,
     calculatePositions (workedExample d1 d2 d3 name code) = [q] /\
     avgBuyPrice q = Q2Qc (32 # 3) /\
     realizedPnL q = Q2Qc (1040 # 3) /\
     holdingQuantity q = Q2Qc 70).
Proof.
intros H12 H23. split; [| now apply worked_example_exact].
destruct (worked_example_doubles d1 d2 d3 name code H12 H23)
  as (p & Hp & Ha & Hr & Hh).
destruct worked_example_values as (V1 & V2 & V3 & V4 & V5).
exists p. rewrite Ha, Hr, Hh. repeat split; assumption.
Qed.

Lemma calculatePositions_worked_example_witness :
  String.leb "2024-01-05" "2024-02-10" = true /\
  String.leb "2024-02-10" "2024-03-15" = true /\
  exists p,
    Double.calculatePositions
      (Double.workedExample "2024-01-05" "2024-02-10" "2024-03-15" "X" "")
    = [p] /\
    Double.avgBuyPrice p = Double.nearest_32_3 /\
    Double.realizedPnL p = Double.above_1040_3 /\
    isRational (Double.toQ (Double.holdingQuantity p)) 70.
Proof.
split; [reflexivity | split; [reflexivity |]].
destruct (calculatePositions_worked_example
            "2024-01-05" "2024-02-10" "2024-03-15" "X" "" eq_refl eq_refl)
  as ((p & Hp & Ha & _ & _ & Hr & _ & _ & Hh) & _).
exists p. repeat split; assumption.
Defined.

(** C4, as stated, fails: at this input the [avgBuyPrice] that the code
    returns is not 32/3 and its [realizedPnL] is not 1040/3; no double is
    either. *)
Lemma calculatePositions_worked_example_inexact :
  exists p,
    Double.calculatePositions
      (Double.workedExample "2024-01-05" "2024-02-10" "2024-03-15" "X" "")
    = [p] /\
    ~ isRational (Double.toQ (Double.avgBuyPrice p)) (32 # 3) /\
    ~ isRational (Double.toQ (Double.realizedPnL p)) (1040 # 3).
Proof.
eexists. split; [vm_compute; reflexivity |].
split; vm_compute; discriminate.
Qed.

(** ** Reordering the input *)








Lemma sortByDate_swap_other_date (l1 l2 : list Trade) (x y : Trade) :
  date x <> date y ->
  sortByDate (l1 ++ x :: y :: l2) = sortByDate (l1 ++ y :: x :: l2).
Proof.
intro N. apply stableSort_swap_strict.
- exact dateLe_total.
- exact dateLe_trans.
- destruct (dateLe x y) eqn:Exy; [| now left].
  destruct (dateLe y x) eqn:Eyx; [| now right].
  exfalso. now apply N, dateLe_tie.
Qed.


(** C6. Exchanging, in the input, trades of different dates that belong to
    different stocks changes nothing in what [calculatePositions] returns:
    every field of every position, and their order. *)
Theorem calculatePositions_reorder_other_stocks (l l' : list Trade) :
  reorderBy otherDateOtherStock l l' ->
  calculatePositions l = calculatePositions l'.
Proof.
induction 1 as [l | l1 l2 l' x y [Hd _] _ IH]; trivial.
rewrite <- IH. unfold calculatePositions, positionMap.
now rewrite (sortByDate_swap_other_date l1 l2 x y Hd).
Qed.

Lemma calculatePositions_reorder_other_stocks_witness :
  reorderBy otherDateOtherStock twoStocks twoStocksSwapped /\
  calculatePositions twoStocks = calculatePositions twoStocksSwapped.
Proof.
assert (R : reorderBy otherDateOtherStock twoStocks twoStocksSwapped).
{ apply (reorder_swap otherDateOtherStock [] [] twoStocksSwapped).
  - split; discriminate.
  - apply reorder_done. }
split; [exact R |].
exact (calculatePositions_reorder_other_stocks _ _ R).
Defined.

(** ** Positions up to their names *)














(** ** [getMonthlyStats] seen from one month *)

Lemma filter_filter_andb {A : Type} (p q : A -> bool) (l : list A) :
  filter p (filter q l) = filter (fun x => p x && q x) l.
Proof.
induction l as [| x l IH]; simpl; trivial.
destruct (q x); simpl; rewrite ?andb_true_r, ?andb_false_r;
  [destruct (p x) |]; now rewrite IH.
Qed.

Lemma get_fold_monthStep (positions : JsMap.t Qc) (l : list Trade)
  (m : JsMap.t Bucket.t) (k : string) :
  JsMap.get k (fold_left (monthStep positions) l m)
  = fold_left
      (fun o t =>
         Some (bucketStep positions
                 (match o with Some e => e | None => Bucket.zero end) t))
      (filter (isOfMonth k) l) (JsMap.get k m).
Proof.
rewrite <- fold_left_filter_key.
exact (get_fold_set monthOf
         (fun o t =>
            bucketStep positions
              (match o with Some e => e | None => Bucket.zero end) t) l m k).
Qed.

Lemma fold_bucket_Some (positions : JsMap.t Qc) (ts : list Trade)
  (b : Bucket.t) :
  fold_left
    (fun o t =>
       Some (bucketStep positions
               (match o with Some e => e | None => Bucket.zero end) t))
    ts (Some b)
  = Some (fold_left (bucketStep positions) ts b).
Proof.
revert b. induction ts as [| t ts IH]; intro b; simpl; [reflexivity |].
apply IH.
Qed.

Lemma get_monthMapOf (trades : list Trade) (k : string) :
  JsMap.get k (monthMapOf trades)
  = match filter (isOfMonth k) (sortByDate trades) with
    | [] => None
    | ts => Some (fold_left (bucketStep (finalAvgPrices trades)) ts Bucket.zero)
    end.
Proof.
unfold monthMapOf, finalAvgPrices. cbv zeta. rewrite get_fold_monthStep.
destruct (filter (isOfMonth k) (sortByDate trades)) as [| t ts]; trivial.
cbn [fold_left JsMap.get JsMap.empty]. apply fold_bucket_Some.
Qed.

(** A bucket after a run of trades: each field is a sum over the run. *)
Lemma fold_bucketStep (positions : JsMap.t Qc) (ts : list Trade)
  (b : Bucket.t) :
  Bucket.buyAmount (fold_left (bucketStep positions) ts b)
  = Bucket.buyAmount b
    + sumQc (map revenueOf (filter (fun t => isBuy (type t)) ts)) /\
  Bucket.sellAmount (fold_left (bucketStep positions) ts b)
  = Bucket.sellAmount b + sumQc (map revenueOf (filter isSell ts)) /\
  Bucket.pnl (fold_left (bucketStep positions) ts b)
  = Bucket.pnl b
    + sumQc (map (sellPnlContribution positions) (filter isSell ts)) /\
  Bucket.count (fold_left (bucketStep positions) ts b)
  = (Bucket.count b + length ts)%nat.
Proof.
revert b. induction ts as [| t ts IH]; intro b; simpl.
- repeat split; try ring; lia.
- destruct (IH (bucketStep positions b t)) as (H1 & H2 & H3 & H4).
  rewrite H1, H2, H3, H4. unfold bucketStep, isSell, revenueOf.
  destruct (isBuy (type t)); simpl; repeat split; try ring; lia.
Qed.

Lemma monthMapOf_keys (trades : list Trade) :
  NoDup (JsMap.keys (monthMapOf trades)) /\
  (forall k, In k (JsMap.keys (monthMapOf trades))
             <-> In k (map monthOf trades)).
Proof.
unfold monthMapOf. cbv zeta.
destruct (keys_fold_set monthOf
            (fun o t =>
               bucketStep (avgPricePass (sortByDate trades))
                 (match o with Some e => e | None => Bucket.zero end) t)
            (sortByDate trades) JsMap.empty) as [ND I].
split.
- apply ND. constructor.
- intro k. etransitivity; [apply I |]. simpl.
  split.
  + intros [[] | H]. rewrite in_map_iff in *.
    destruct H as (t & E & H). exists t. split; trivial.
    now apply sortByDate_In.
  + intro H. right. rewrite in_map_iff in *.
    destruct H as (t & E & H). exists t. split; trivial.
    now apply sortByDate_In.
Qed.

Lemma StronglySorted_strict {A : Type} (le lt : A -> A -> Prop) (l : list A) :
  (forall a b, le a b -> a <> b -> lt a b) ->
  StronglySorted le l -> NoDup l -> StronglySorted lt l.
Proof.
intros H S. induction S as [| h t S IH F]; intro ND; constructor;
  inversion ND as [| ? ? N ND']; subst; auto.
rewrite Forall_forall in *. intros x Hx. apply H; auto.
intros ->. contradiction.
Qed.

Lemma StronglySorted_of_map {A B : Type} (R : B -> B -> Prop) (f : A -> B)
  (l : list A) :
  StronglySorted R (map f l) -> StronglySorted (fun a b => R (f a) (f b)) l.
Proof.
induction l as [| h t IH]; simpl; intro S; constructor;
  inversion S as [| ? ? S' F]; subst; auto.
rewrite Forall_forall in *. intros x Hx. apply F. now apply in_map.
Qed.

Lemma distinctMonthsAsc_strict (trades : list Trade) :
  StronglySorted (fun a b => String.ltb a b = true) (distinctMonthsAsc trades).
Proof.
unfold distinctMonthsAsc.
apply StronglySorted_strict with (le := fun a b => String.leb a b = true).
- apply string_leb_neq_ltb.
- apply stableSort_sorted; [apply String.leb_total | apply string_leb_trans].
- eapply Permutation_NoDup.
  + symmetry. apply stableSort_perm.
  + apply NoDup_nodup.
Qed.

(** Before the final slice there is one entry per month of the data,
    ascending. *)
Lemma allMonthlyStats_months (trades : list Trade) :
  map month (allMonthlyStats trades) = distinctMonthsAsc trades.
Proof.
unfold allMonthlyStats, distinctMonthsAsc, JsMap.entries.
rewrite <- (stableSort_map monthLe String.leb month) by reflexivity.
rewrite map_map. change (map (fun x => month (toMonthlyStat x)) ?m)
  with (JsMap.keys m).
destruct (monthMapOf_keys trades) as [ND I].
apply stableSort_perm_eq.
- apply String.leb_total.
- apply string_leb_trans.
- apply String.leb_antisym.
- apply NoDup_Permutation; trivial.
  + apply NoDup_nodup.
  + intro k. rewrite I. symmetry. apply nodup_In.
Qed.

Lemma allMonthlyStats_entry (trades : list Trade) (e : MonthlyStat) :
  In e (allMonthlyStats trades) ->
  exists b,
    JsMap.get (month e) (monthMapOf trades) = Some b /\
    e = toMonthlyStat (month e, b).
Proof.
unfold allMonthlyStats, JsMap.entries. intro H.
apply (proj1 (stableSort_In _ _ _)) in H.
apply in_map_iff in H. destruct H as ([k b] & <- & H).
exists b. split; [| reflexivity].
apply In_get; trivial. apply monthMapOf_keys.
Qed.

(** ** The first loop of [getMonthlyStats] *)

Lemma costUpdate_accOf (bs : list Trade) (t : Trade) :
  costUpdate
    (match bs with [] => None | b :: bs' => Some (accOf (b :: bs')) end) t
  = accOf (bs ++ [t]).
Proof.
unfold costUpdate, accOf. rewrite !map_app, !sumQc_app.
destruct bs; cbn [totalCost totalQty map sumQc fold_right];
  unfold revenueOf; f_equal; ring.
Qed.

Lemma avgPriceStep_fold (l : list Trade) (k : string) :
  JsMap.get k (fst (fold_left avgPriceStep l (JsMap.empty, JsMap.empty)))
  = match filter (isBuyOfKey k) l with
    | [] => None
    | bs => Some (accOf bs)
    end /\
  JsMap.get k (snd (fold_left avgPriceStep l (JsMap.empty, JsMap.empty)))
  = match filter (isBuyOfKey k) l with
    | [] => None
    | bs => Some (totalCost (accOf bs) / totalQty (accOf bs))
    end.
Proof.
induction l as [| t l IH] using rev_ind; [split; reflexivity |].
rewrite fold_left_app, filter_app. cbn [fold_left filter].
destruct (fold_left avgPriceStep l (JsMap.empty, JsMap.empty))
  as [avgPrices positions].
cbn [fst snd] in IH. destruct IH as [IH1 IH2].
assert (Hk : isBuyOfKey k t = isBuy (type t) && isOfKey k t) by reflexivity.
rewrite Hk. unfold avgPriceStep.
destruct (isBuy (type t)); cbn [andb fst snd].
2:{ rewrite app_nil_r. now split. }
destruct (isOfKey k t) eqn:K; unfold isOfKey in K.
- apply String.eqb_eq in K. subst k.
  rewrite !get_set_same, IH1, costUpdate_accOf.
  destruct (filter _ l ++ [t]) eqn:X; [now destruct (filter _ l) |].
  now split.
- apply String.eqb_neq in K.
  rewrite !get_set_other by assumption. rewrite app_nil_r. now split.
Qed.

Lemma Permutation_match_nil {A B : Type} (l l' : list A) (x : B)
  (f : list A -> B) :
  Permutation l l' -> f l = f l' ->
  match l with [] => x | a :: r => f (a :: r) end
  = match l' with [] => x | a :: r => f (a :: r) end.
Proof.
intros P E. destruct l as [| a l].
- apply Permutation_nil in P. now subst.
- destruct l' as [| a' l'']; [| exact E].
  symmetry in P. apply Permutation_nil in P. discriminate.
Qed.

(** The average price that a sell is compared with is the total cost over
    the total quantity of all the buys of its stock, wherever they are in
    the history. *)
Lemma finalAvgPrices_get (trades : list Trade) (k : string) :
  JsMap.get k (finalAvgPrices trades)
  = match filter (isBuyOfKey k) trades with
    | [] => None
    | bs => Some (sumQc (map revenueOf bs) / sumQc (map quantity bs))
    end.
Proof.
unfold finalAvgPrices, avgPricePass.
destruct (avgPriceStep_fold (sortByDate trades) k) as [_ ->].
unfold accOf. cbn [totalCost totalQty].
apply (Permutation_match_nil _ _ None
         (fun bs => Some (sumQc (map revenueOf bs) / sumQc (map quantity bs)))).
- apply filter_perm, sortByDate_perm.
- now rewrite !sum_over_sorted.
Qed.

(** The [pnl] of a returned month is the sum of what its sells add. *)
Lemma getMonthlyStats_pnl (trades : list Trade) (e : MonthlyStat) :
  In e (getMonthlyStats trades) ->
  pnl e
  = sumQc (map (sellPnlContribution (finalAvgPrices trades))
             (filter (isSellOfMonth (month e)) trades)).
Proof.
intro He. apply sliceLast_In in He.
destruct (allMonthlyStats_entry trades e He) as (b & G & ->).
cbn [month pnl toMonthlyStat fst snd] in *.
rewrite get_monthMapOf in G.
rewrite <- sum_over_sorted.
destruct (filter (isOfMonth (month e)) (sortByDate trades)) as [| t ts] eqn:F;
  [discriminate |].
injection G as <-.
destruct (fold_bucketStep (finalAvgPrices trades) (t :: ts) Bucket.zero)
  as (_ & _ & P & _).
cbn [fold_left] in P. rewrite P.
rewrite <- F, filter_filter_andb. cbn [Bucket.pnl Bucket.zero].
unfold isSellOfMonth, isOfMonth. ring.
Qed.

Lemma StronglySorted_app_lt {A : Type} (R : A -> A -> Prop) (l1 l2 : list A) :
  StronglySorted R (l1 ++ l2) ->
  forall x y, In x l1 -> In y l2 -> R x y.
Proof.
induction l1 as [| h t IH]; simpl; intros S x y Hx Hy; [contradiction |].
inversion S as [| ? ? S' F]; subst. destruct Hx as [-> | Hx].
- rewrite Forall_forall in F. apply F, in_or_app. now right.
- now apply IH.
Qed.

(** A month of the data is returned, or it is before every returned month. *)
Lemma getMonthlyStats_most_recent (trades : list Trade) (t : Trade) :
  In t trades ->
  In (monthOf t) (map month (getMonthlyStats trades)) \/
  (forall e, In e (getMonthlyStats trades) ->
     String.ltb (monthOf t) (month e) = true).
Proof.
intro I.
assert (M : map month (getMonthlyStats trades)
            = sliceLast 12 (distinctMonthsAsc trades)).
{ unfold getMonthlyStats. now rewrite sliceLast_map, allMonthlyStats_months. }
assert (D : In (monthOf t) (distinctMonthsAsc trades)).
{ unfold distinctMonthsAsc. apply stableSort_In, nodup_In. now apply in_map. }
pose proof (distinctMonthsAsc_strict trades) as S.
rewrite M. unfold sliceLast in *.
set (n := (length (distinctMonthsAsc trades) - 12)%nat) in *.
rewrite <- (firstn_skipn n (distinctMonthsAsc trades)) in D, S.
apply in_app_or in D. destruct D as [D | D]; [right | now left].
intros e He.
apply (StronglySorted_app_lt _ _ _ S); trivial.
rewrite <- M. now apply in_map.
Qed.

(** ** The average price of the second loop and the final position *)

Lemma applyTrade_buy_fields (p : StockPosition) (t : Trade) :
  isBuy (type t) = true ->
  totalBuyCost (applyTrade p t) = totalBuyCost p + price t * quantity t /\
  buyQuantity (applyTrade p t) = buyQuantity p + quantity t /\
  avgBuyPrice (applyTrade p t)
  = if Qcltb 0 (buyQuantity p + quantity t)
    then (totalBuyCost p + price t * quantity t)
         / (buyQuantity p + quantity t)
    else 0.
Proof. intro B. unfold applyTrade. rewrite B. now repeat split. Qed.

Lemma applyTrade_sell_fields (p : StockPosition) (t : Trade) :
  isBuy (type t) = false ->
  totalBuyCost (applyTrade p t) = totalBuyCost p /\
  buyQuantity (applyTrade p t) = buyQuantity p /\
  avgBuyPrice (applyTrade p t) = avgBuyPrice p.
Proof. intro B. unfold applyTrade. rewrite B. now repeat split. Qed.

Lemma fold_applyTrade_buys (ts : list Trade) (t0 : Trade) :
  totalBuyCost (fold_left applyTrade ts (zeroPosition t0))
  = sumQc (map revenueOf (filter (fun t => isBuy (type t)) ts)) /\
  buyQuantity (fold_left applyTrade ts (zeroPosition t0))
  = sumQc (map quantity (filter (fun t => isBuy (type t)) ts)) /\
  avgBuyPrice (fold_left applyTrade ts (zeroPosition t0))
  = match filter (fun t => isBuy (type t)) ts with
    | [] => 0
    | b :: bs =>
        if Qcltb 0 (sumQc (map quantity (b :: bs)))
        then sumQc (map revenueOf (b :: bs)) / sumQc (map quantity (b :: bs))
        else 0
    end.
Proof.
induction ts as [| t ts IH] using rev_ind; [repeat split |].
destruct IH as (H1 & H2 & H3).
rewrite fold_left_app, filter_app. cbn [fold_left filter].
destruct (isBuy (type t)) eqn:B.
- destruct (applyTrade_buy_fields
              (fold_left applyTrade ts (zeroPosition t0)) t B)
    as (-> & -> & ->).
  rewrite H1, H2.
  assert (E1 : forall bs,
    sumQc (map revenueOf bs) + price t * quantity t
    = sumQc (map revenueOf (bs ++ [t]))).
  { intro bs. rewrite map_app, sumQc_app. simpl. unfold revenueOf. ring. }
  assert (E2 : forall bs,
    sumQc (map quantity bs) + quantity t = sumQc (map quantity (bs ++ [t]))).
  { intro bs. rewrite map_app, sumQc_app. simpl. ring. }
  rewrite E1, E2. repeat split.
  destruct (filter _ ts ++ [t]) eqn:X; [now destruct (filter _ ts) |].
  reflexivity.
- destruct (applyTrade_sell_fields
              (fold_left applyTrade ts (zeroPosition t0)) t B)
    as (-> & -> & ->).
  rewrite app_nil_r. now repeat split.
Qed.

Lemma positionMap_buy_totals (trades : list Trade) (k : string)
  (p : StockPosition) :
  JsMap.get k (positionMap trades) = Some p ->
  buyQuantity p = sumQc (map quantity (filter (isBuyOfKey k) trades)) /\
  avgBuyPrice p
  = match filter (isBuyOfKey k) trades with
    | [] => 0
    | b :: bs =>
        if Qcltb 0 (sumQc (map quantity (b :: bs)))
        then sumQc (map revenueOf (b :: bs)) / sumQc (map quantity (b :: bs))
        else 0
    end.
Proof.
rewrite get_positionMap.
destruct (filter (isOfKey k) (sortByDate trades)) as [| t ts] eqn:F;
  [discriminate |].
intros [= <-].
destruct (fold_applyTrade_buys (t :: ts) t) as (_ & H2 & H3).
cbn [fold_left] in H2, H3.
rewrite H2, H3, <- F, filter_filter_andb.
change (fun x => isBuy (type x) && isOfKey k x) with (isBuyOfKey k).
split; [apply sum_over_sorted |].
apply (Permutation_match_nil _ _ 0
         (fun bs => if Qcltb 0 (sumQc (map quantity bs))
                    then sumQc (map revenueOf bs) / sumQc (map quantity bs)
                    else 0)).
- apply filter_perm, sortByDate_perm.
- now rewrite !sum_over_sorted.
Qed.

Lemma position_exists (trades : list Trade) (t : Trade) :
  In t trades ->
  exists p, JsMap.get (stockKey t) (positionMap trades) = Some p.
Proof.
intro I. rewrite get_positionMap.
destruct (filter (isOfKey (stockKey t)) (sortByDate trades)) as [| u us] eqn:F.
- exfalso.
  assert (J : In t (filter (isOfKey (stockKey t)) (sortByDate trades))).
  { apply filter_In. split; [now apply sortByDate_In |].
    now apply isOfKey_true. }
  now rewrite F in J.
- eexists. reflexivity.
Qed.

Lemma sumQc_pos (f : Trade -> Qc) (b : Trade) (bs : list Trade) :
  Forall (fun t => 0 < f t) (b :: bs) -> 0 < sumQc (map f (b :: bs)).
Proof.
revert b. induction bs as [| c bs IH]; intros b F; simpl.
- inversion F; subst. now replace (f b + 0) with (f b) by ring.
- inversion F as [| ? ? Hb F']; subst.
  rewrite Qcplus_comm. apply Qc_add_pos; trivial.
  apply Qclt_le_weak. now apply IH.
Qed.

Lemma no_buys_of_key (trades : list Trade) (k : string) :
  (forall u, In u trades -> stockKey u = k -> isBuy (type u) = false) ->
  filter (isBuyOfKey k) trades = [].
Proof.
induction trades as [| u l IH]; intro H; simpl; trivial.
rewrite IH by (intros; apply H; simpl; auto).
unfold isBuyOfKey. destruct (isOfKey k u) eqn:K.
- apply isOfKey_true in K. rewrite (H u (or_introl eq_refl) K). reflexivity.
- now rewrite andb_false_r.
Qed.

Lemma wellFormed_buys (trades : list Trade) (k : string) :
  Forall wellFormed trades ->
  Forall (fun t => 0 < quantity t) (filter (isBuyOfKey k) trades) /\
  Forall (fun t => 0 < revenueOf t) (filter (isBuyOfKey k) trades).
Proof.
intro WF. rewrite Forall_forall in WF.
split; apply Forall_forall; intros t Ht; apply filter_In in Ht;
  destruct Ht as [I _]; destruct (WF t I) as [Hq Hp]; trivial.
unfold revenueOf. now apply Qc_mul_pos.
Qed.

(** For validated input, the amount that the second loop of
    [getMonthlyStats] adds for a record is [sellPnlOf]: the [positions] map
    holds the average cost of every stock that is bought somewhere, and a
    positive one, so that [||] keeps it. *)
Lemma sellPnlContribution_closed (trades : list Trade) (t : Trade) :
  Forall wellFormed trades ->
  sellPnlContribution (finalAvgPrices trades) t = sellPnlOf trades t.
Proof.
intro WF.
destruct (wellFormed_buys trades (stockKey t) WF) as (Fq & Fr).
unfold sellPnlContribution, avgPriceFor, sellPnlOf, averageCostOf.
rewrite finalAvgPrices_get.
destruct (filter (isBuyOfKey (stockKey t)) trades) as [| b bs].
- cbn [fieldOr]. ring.
- pose proof (sumQc_pos quantity b bs Fq) as Pq.
  pose proof (sumQc_pos revenueOf b bs Fr) as Pr.
  cbn [fieldOr]. rewrite orElse_nonzero; trivial.
  apply Qc_div_neq0; now apply Qc_pos_neq.
Qed.

(** C1. The code does not do what the claim says.  With a buy of 10 at 10,
    then a sell of 5 at 15, then a buy of 10 at 20 of one stock,
    [calculatePositions] holds an average of 10 when it reaches the sell and
    books (15 - 10) * 5 = 25; [getMonthlyStats] refreshes its [positions]
    map at every buy of the sorted history but reads it only after that
    loop, prices the sell against the last value, 15, and reports 0 for the
    month.  The months no longer add up to the realized P&L. *)
Lemma monthly_pnl_point_in_time_fails :
  nth_error (sortByDate buySellBuy) 1 = Some sellBetweenBuys /\
  avgBuyPriceAtSell buySellBuy 1 sellBetweenBuys = Q2Qc 10 /\
  (price sellBetweenBuys - avgBuyPriceAtSell buySellBuy 1 sellBetweenBuys)
  * quantity sellBetweenBuys = Q2Qc 25 /\
  sellPnlContribution (finalAvgPrices buySellBuy) sellBetweenBuys = 0 /\
  map pnl (getMonthlyStats buySellBuy) = [0] /\
  realizedPnLOf "X" buySellBuy = Some (Q2Qc 25) /\
  sellPnlContribution (finalAvgPrices buySellBuy) sellBetweenBuys
  <> (price sellBetweenBuys - avgBuyPriceAtSell buySellBuy 1 sellBetweenBuys)
     * quantity sellBetweenBuys.
Proof.
split; [vm_compute; reflexivity |].
split; [qc_eq |]. split; [qc_eq |]. split; [qc_eq |].
split; [vm_compute; apply f_equal2; [qc_eq | reflexivity] |].
split; [vm_compute; apply f_equal; qc_eq |].
qc_neq.
Qed.

(** ** The months in closed form *)

Lemma monthMapOf_entry (trades : list Trade) (k : string) (b : Bucket.t) :
  In (k, b) (monthMapOf trades) ->
  toMonthlyStat (k, b) = monthlyStatOf trades k.
Proof.
intro I. apply In_get in I; [| apply monthMapOf_keys].
rewrite get_monthMapOf in I.
destruct (filter (isOfMonth k) (sortByDate trades)) as [| t ts] eqn:F;
  [discriminate |].
injection I as <-.
destruct (fold_bucketStep (finalAvgPrices trades) (t :: ts) Bucket.zero)
  as (H1 & H2 & H3 & H4).
cbn [fold_left] in H1, H2, H3, H4.
unfold toMonthlyStat, monthlyStatOf. cbn [fst snd].
rewrite H1, H2, H3, H4, <- F, !filter_filter_andb.
change (fun x => isBuy (type x) && isOfMonth k x) with (isBuyOfMonth k).
change (fun x => isSell x && isOfMonth k x) with (isSellOfMonth k).
rewrite !sum_over_sorted.
rewrite (Permutation_length (filter_perm (isOfMonth k) _ _
                               (sortByDate_perm trades))).
cbn [Bucket.zero Bucket.buyAmount Bucket.sellAmount Bucket.pnl Bucket.count].
f_equal; ring.
Qed.

Lemma allMonthlyStats_closed_form (trades : list Trade) :
  allMonthlyStats trades
  = map (monthlyStatOf trades) (distinctMonthsAsc trades).
Proof.
assert (E : map toMonthlyStat (monthMapOf trades)
            = map (monthlyStatOf trades) (JsMap.keys (monthMapOf trades))).
{ unfold JsMap.keys. rewrite map_map. apply map_ext_in.
  intros [k b] I. now apply monthMapOf_entry. }
assert (S : allMonthlyStats trades
            = map (monthlyStatOf trades)
                (stableSort String.leb (JsMap.keys (monthMapOf trades)))).
{ unfold allMonthlyStats, JsMap.entries. rewrite E.
  now apply stableSort_map. }
rewrite S. f_equal.
rewrite <- allMonthlyStats_months, S, map_map.
symmetry. apply map_id.
Qed.

Lemma sumQc_cons (x : Qc) (l : list Qc) : sumQc (x :: l) = x + sumQc l.
Proof. reflexivity. Qed.

Lemma monthlyStatOf_closed (trades : list Trade) (m : string) :
  Forall wellFormed trades -> monthlyStatOf trades m = monthEntryOf trades m.
Proof.
intro WF. unfold monthlyStatOf, monthEntryOf. do 2 f_equal.
apply map_ext. intro t. now apply sellPnlContribution_closed.
Qed.

(** For validated input the result is one entry per month among the last 12
    months of the data, each a sum over the trades of its month. *)
Lemma getMonthlyStats_entries (trades : list Trade) :
  Forall wellFormed trades ->
  getMonthlyStats trades
  = map (monthEntryOf trades) (sliceLast 12 (distinctMonthsAsc trades)).
Proof.
intro WF. unfold getMonthlyStats.
rewrite allMonthlyStats_closed_form, sliceLast_map.
f_equal. apply map_ext. intro m. now apply monthlyStatOf_closed.
Qed.

(** C5. [getMonthlyStats] returns at most 12 entries, ascending by month key;
    their months are the last 12 of the months present in the data, so
    exactly 12 when the data span 12 months or more, and every month of the
    data that is left out is before every returned one.  For validated input
    the [pnl] of a returned month is the sum, over the sells of that month,
    of [(price - average) * quantity], where the average of a stock is the
    amount of all its buys in the whole collection over their quantity:
    the buys of the months that are not returned count in it. *)
Theorem getMonthlyStats_last_twelve_months (trades : list Trade) :
  (length (getMonthlyStats trades) <= 12)%nat /\
  StronglySorted (fun a b => String.ltb (month a) (month b) = true)
    (getMonthlyStats trades) /\
  map month (getMonthlyStats trades)
  = sliceLast 12 (distinctMonthsAsc trades) /\
  ((12 <= length (distinctMonthsAsc trades))%nat ->
   length (getMonthlyStats trades) = 12%nat) /\
  (forall t, In t trades ->
     In (monthOf t) (map month (getMonthlyStats trades)) \/
     (forall e, In e (getMonthlyStats trades) ->
        String.ltb (monthOf t) (month e) = true)) /\
  (Forall wellFormed trades ->
   forall e, In e (getMonthlyStats trades) ->
     pnl e
     = sumQc
         (map (fun t =>
                 match filter (isBuyOfKey (stockKey t)) trades with
                 | [] => 0
                 | b :: bs =>
                     (price t
                      - sumQc (map revenueOf (b :: bs))
                        / sumQc (map quantity (b :: bs)))
                     * quantity t
                 end)
            (filter (isSellOfMonth (month e)) trades))).
Proof.
assert (M : map month (getMonthlyStats trades)
            = sliceLast 12 (distinctMonthsAsc trades)).
{ unfold getMonthlyStats. now rewrite sliceLast_map, allMonthlyStats_months. }
assert (L : length (getMonthlyStats trades)
            = Nat.min 12 (length (distinctMonthsAsc trades))).
{ rewrite <- (length_map month), M. apply sliceLast_length. }
split; [lia |]. split; [| split; [exact M | split; [lia | split]]].
- apply StronglySorted_of_map with (R := fun a b => String.ltb a b = true).
  rewrite M. apply skipn_StronglySorted, distinctMonthsAsc_strict.
- apply getMonthlyStats_most_recent.
- intros WF e He. rewrite (getMonthlyStats_pnl trades e He).
  f_equal. apply map_ext. intro t.
  rewrite (sellPnlContribution_closed trades t WF).
  unfold sellPnlOf, averageCostOf.
  now destruct (filter (isBuyOfKey (stockKey t)) trades).
Qed.

(** Stock X is bought at 10 in January 2023, a month that is not returned,
    and sold at 15 in March 2024: the month of the sell has (15 - 10) * 5 =
    25. *)
Lemma getMonthlyStats_last_twelve_months_witness :
  (12 <= length (distinctMonthsAsc fifteenMonths))%nat /\
  Forall wellFormed fifteenMonths /\
  length (getMonthlyStats fifteenMonths) = 12%nat /\
  map month (getMonthlyStats fifteenMonths) = lastTwelveOfFifteen /\
  In (plainTrade "2023-01-10" "X" "" buy 10 10) fifteenMonths /\
  ~ In "2023-01" (map month (getMonthlyStats fifteenMonths)) /\
  exists e,
    In e (getMonthlyStats fifteenMonths) /\
    month e = "2024-03" /\
    pnl e = Q2Qc 25.
Proof.
destruct (getMonthlyStats_last_twelve_months fifteenMonths)
  as (_ & _ & Hmonths & Hlen & _ & Hpnl).
assert (H : (12 <= length (distinctMonthsAsc fifteenMonths))%nat).
{ vm_compute. lia. }
assert (WF : Forall wellFormed fifteenMonths).
{ repeat constructor. }
assert (M : map month (getMonthlyStats fifteenMonths) = lastTwelveOfFifteen).
{ rewrite Hmonths. vm_compute. reflexivity. }
split; [exact H | split; [exact WF | split; [exact (Hlen H) |]]].
split; [exact M | split; [right; left; reflexivity | split]].
- rewrite M. simpl. intuition discriminate.
- set (e := last (getMonthlyStats fifteenMonths) (mkMonthlyStat "" 0 0 0 0)).
  assert (I : In e (getMonthlyStats fifteenMonths)).
  { vm_compute. do 11 right. left. reflexivity. }
  assert (E : month e = "2024-03") by (vm_compute; reflexivity).
  exists e. split; [exact I | split; [exact E |]].
  rewrite (Hpnl WF e I), E. qc_eq.
Defined.

(** C10. A sell of a stock that is bought nowhere in the collection adds
    exactly 0 to the [pnl] of its month in [getMonthlyStats], its whole
    amount to [sellAmount] and 1 to [count]: the returned entry of its month
    has the [pnl] of the other sells of the month alone.  In
    [calculatePositions] the realized P&L of that stock is its whole sell
    revenue. *)
Theorem monthly_sell_without_buys (l1 l2 : list Trade) (t : Trade) :
  Forall wellFormed (l1 ++ t :: l2) ->
  isSell t = true ->
  (forall u, In u (l1 ++ t :: l2) -> stockKey u = stockKey t ->
     isBuy (type u) = false) ->
  In (monthOf t) (sliceLast 12 (distinctMonthsAsc (l1 ++ t :: l2))) ->
  (exists e,
     In e (getMonthlyStats (l1 ++ t :: l2)) /\
     month e = monthOf t /\
     pnl e
     = sumQc (map (sellPnlOf (l1 ++ t :: l2))
                (filter (isSellOfMonth (monthOf t)) (l1 ++ l2))) /\
     sellAmount e
     = sumQc (map revenueOf (filter (isSellOfMonth (monthOf t)) (l1 ++ l2)))
       + price t * quantity t /\
     count e = S (length (filter (isOfMonth (monthOf t)) (l1 ++ l2)))) /\
  (exists p,
     positionFor (stockKey t) (calculatePositions (l1 ++ t :: l2)) = Some p /\
     avgBuyPrice p = 0 /\
     realizedPnL p = totalSellRevenue p /\
     realizedPnL p
     = sumQc (map revenueOf (filter (isOfKey (stockKey t)) (l1 ++ l2)))
       + price t * quantity t).
Proof.
intros WF S NoBuy Returned. split.
- exists (monthEntryOf (l1 ++ t :: l2) (monthOf t)).
  split; [| split; [reflexivity |]].
  + rewrite (getMonthlyStats_entries _ WF). now apply in_map.
  + assert (Z : sellPnlOf (l1 ++ t :: l2) t = 0).
    { unfold sellPnlOf, averageCostOf.
      now rewrite (no_buys_of_key _ _ NoBuy). }
    assert (Ms : isSellOfMonth (monthOf t) t = true).
    { unfold isSellOfMonth. now rewrite S, String.eqb_refl. }
    assert (Mo : isOfMonth (monthOf t) t = true) by apply String.eqb_refl.
    cbn [monthEntryOf pnl sellAmount count].
    rewrite !filter_app. cbn [filter]. rewrite Ms, Mo.
    rewrite !map_app, !sumQc_app, !length_app. cbn [map length].
    rewrite !sumQc_cons, Z. unfold revenueOf at 2.
    repeat split; first [ring | lia].
- destruct (sells_only_run (l1 ++ t :: l2) (stockKey t)) as (u & us & E & F).
  { exists t. split; [apply in_or_app; right; now left | reflexivity]. }
  { exact NoBuy. }
  rewrite positionFor_calculatePositions, get_positionMap, E.
  assert (R : sumQc (map revenueOf (u :: us))
              = sumQc (map revenueOf (filter (isOfKey (stockKey t)) (l1 ++ l2)))
                + price t * quantity t).
  { rewrite <- E, sum_over_sorted, !filter_app. cbn [filter].
    unfold isOfKey at 2. rewrite String.eqb_refl.
    rewrite !map_app, !sumQc_app. cbn [map]. rewrite sumQc_cons.
    unfold revenueOf at 2. ring. }
  eexists. split; [reflexivity |].
  destruct (fold_applyTrade_sells (u :: us) (zeroPosition u) F eq_refl)
    as (H1 & _ & H3 & H4 & _).
  rewrite H1, H3, H4, R. cbn [zeroPosition realizedPnL totalSellRevenue].
  repeat split; ring.
Qed.

(** In March 2024 a sell of X, bought before at 10, and a sell of Y, never
    bought: the month has the (15 - 10) * 5 = 25 of X alone, both amounts,
    75 + 50, and the three trades; the position of Y has its whole revenue,
    50. *)
Lemma monthly_sell_without_buys_witness :
  Forall wellFormed boughtAndUnbought /\
  In "2024-03" (sliceLast 12 (distinctMonthsAsc boughtAndUnbought)) /\
  (exists e,
     In e (getMonthlyStats boughtAndUnbought) /\
     month e = "2024-03" /\
     pnl e = Q2Qc 25 /\
     sellAmount e = Q2Qc 125 /\
     count e = 3%nat) /\
  (exists p,
     positionFor "Y" (calculatePositions boughtAndUnbought) = Some p /\
     realizedPnL p = Q2Qc 50).
Proof.
assert (WF : Forall wellFormed boughtAndUnbought) by (repeat constructor).
assert (R : In "2024-03" (sliceLast 12 (distinctMonthsAsc boughtAndUnbought)))
  by (left; reflexivity).
assert (NoBuy : forall u, In u boughtAndUnbought ->
                  stockKey u = stockKey soldUnbought -> isBuy (type u) = false).
{ intros u [<- | [<- | [<- | []]]] K; trivial. discriminate K. }
destruct (monthly_sell_without_buys
            [plainTrade "2024-03-01" "X" "" buy 10 10;
             plainTrade "2024-03-05" "X" "" sell 5 15] [] soldUnbought
            WF eq_refl NoBuy R)
  as ((e & Ie & Me & Pe & Se & Ce) & (p & Pp & _ & _ & Rp)).
split; [exact WF | split; [exact R | split]].
- exists e. split; [exact Ie | split; [exact Me |]].
  rewrite Pe, Se, Ce. repeat split; qc_eq.
- exists p. split; [exact Pp |]. rewrite Rp. qc_eq.
Defined.

(** ** Day-level round-trip metrics *)

Lemma fieldOr_zero (f : option Qc) : fieldOr f 0 = nullish f 0.
Proof. destruct f as [v |]; simpl; trivial. apply orElse_self_zero. Qed.

Lemma getTradeComputed_roundtrip (t : Trade) :
  type t = roundtrip ->
  Computed.buyAmount (getTradeComputed t) = specBuyAmount t /\
  Computed.returnPct (getTradeComputed t) = specReturnPct t.
Proof.
intro R. unfold getTradeComputed, specReturnPct, specBuyAmount.
rewrite R, orElse_self_zero. now split.
Qed.

(** C8. For a round-trip record [returnPct] is [realizedPnl / buyAmount * 100]
    when [buyAmount = buyPrice * quantity] is strictly positive, and exactly
    [0] otherwise: the division is guarded. *)
Theorem getTradeComputed_return_guard (t : Trade) :
  type t = roundtrip ->
  Computed.buyAmount (getTradeComputed t)
  = nullish (buyPrice t) 0 * quantity t /\
  (0 < nullish (buyPrice t) 0 * quantity t ->
   Computed.returnPct (getTradeComputed t)
   = (nullish (realizedPnl t) 0 / (nullish (buyPrice t) 0 * quantity t))
     * hundred) /\
  (~ 0 < nullish (buyPrice t) 0 * quantity t ->
   Computed.returnPct (getTradeComputed t) = 0).
Proof.
intro R. destruct (getTradeComputed_roundtrip t R) as [-> ->].
unfold specReturnPct, specBuyAmount. split; [reflexivity |].
destruct (Qcltb 0 (nullish (buyPrice t) 0 * quantity t)) eqn:E.
- apply Qcltb_true in E. split; [reflexivity | contradiction].
- split; [| reflexivity].
  intro H. apply Qcltb_true in H. congruence.
Qed.

Lemma getTradeComputed_return_guard_witness :
  type zeroInvestment = roundtrip /\
  Computed.returnPct (getTradeComputed zeroInvestment) = 0.
Proof.
split; [reflexivity |].
destruct (getTradeComputed_return_guard zeroInvestment eq_refl)
  as (_ & _ & H).
apply H. intro L. vm_compute in L. discriminate L.
Defined.

Lemma fold_dayStep_returns (l : list Trade) (acc : DayAcc) :
  returns (fold_left dayStep l acc)
  = returns acc
    ++ map (fun t => Computed.returnPct (getTradeComputed t))
         (filter (fun t => Qcltb 0 (Computed.buyAmount (getTradeComputed t)))
            l).
Proof.
revert acc. induction l as [| t l IH]; intro acc; simpl.
- now rewrite app_nil_r.
- rewrite IH. unfold dayStep. cbn [returns].
  destruct (Qcltb 0 (Computed.buyAmount (getTradeComputed t))); simpl; trivial.
  now rewrite <- app_assoc.
Qed.

Lemma average_mean (rets : list Qc) :
  match length rets with
  | O => 0
  | n => reduceSum rets / ofNat n
  end = mean rets.
Proof.
destruct rets as [| r rets]; simpl; trivial.
now rewrite reduceSum_sumQc.
Qed.

Lemma roundtrip_returns (l : list Trade) :
  Forall (fun t => type t = roundtrip) l ->
  map (fun t => Computed.returnPct (getTradeComputed t))
    (filter (fun t => Qcltb 0 (Computed.buyAmount (getTradeComputed t))) l)
  = map specReturnPct (filter (fun t => Qcltb 0 (specBuyAmount t)) l).
Proof.
induction 1 as [| t l R F IH]; simpl; trivial.
destruct (getTradeComputed_roundtrip t R) as [-> E].
destruct (Qcltb 0 (specBuyAmount t)); simpl; congruence.
Qed.

Lemma investedReturn_one (t : Trade) :
  investedReturn t
  = if Qcltb 0 (specBuyAmount t) then Some (specReturnPct t) else None.
Proof.
unfold investedReturn, specReturnPct, specBuyAmount. rewrite !fieldOr_zero.
now destruct (Qcltb 0 (nullish (buyPrice t) 0 * quantity t)).
Qed.

Lemma investedReturn_spec (l : list Trade) :
  keepNumbers (map investedReturn l)
  = map specReturnPct (filter (fun t => Qcltb 0 (specBuyAmount t)) l).
Proof.
induction l as [| t l IH]; simpl; trivial.
rewrite investedReturn_one.
destruct (Qcltb 0 (specBuyAmount t)); simpl; congruence.
Qed.

(** C7. Over round-trip records, the average return of [getDaySummary] and
    the one of [avgReturnPct] both are the arithmetic mean of [returnPct]
    over exactly the records with [buyAmount > 0]; records without a cost
    basis are left out of the mean, and the result is [0] when none is
    eligible. *)
Theorem aggregate_return_is_mean_of_eligible (l : list Trade) :
  Forall (fun t => type t = roundtrip) l ->
  avgReturn (getDaySummary l) = specAggregateReturn l /\
  avgReturnPct l = specAggregateReturn l /\
  (filter (fun t => Qcltb 0 (specBuyAmount t)) l = [] ->
   avgReturn (getDaySummary l) = 0 /\ avgReturnPct l = 0).
Proof.
intro R.
assert (A : avgReturn (getDaySummary l) = specAggregateReturn l).
{ unfold getDaySummary. cbn [avgReturn]. rewrite average_mean.
  rewrite fold_dayStep_returns. cbn [returns app].
  unfold specAggregateReturn. now rewrite roundtrip_returns. }
assert (B : avgReturnPct l = specAggregateReturn l).
{ unfold avgReturnPct. cbv zeta. rewrite average_mean.
  unfold specAggregateReturn. now rewrite investedReturn_spec. }
split; [exact A | split; [exact B |]].
intro E. rewrite A, B. unfold specAggregateReturn. rewrite E. now split.
Qed.

Lemma aggregate_return_is_mean_of_eligible_witness :
  Forall (fun t => type t = roundtrip) dayOfRoundtrips /\
  avgReturn (getDaySummary dayOfRoundtrips) = Q2Qc 10 /\
  avgReturnPct dayOfRoundtrips = Q2Qc 10.
Proof.
assert (R : Forall (fun t => type t = roundtrip) dayOfRoundtrips).
{ repeat constructor. }
split; [exact R |].
destruct (aggregate_return_is_mean_of_eligible dayOfRoundtrips R)
  as (A & B & _).
rewrite A, B. split; qc_eq.
Defined.

(** ** The two trade models inside the aggregators *)

Lemma fold_left_map_step {S T : Type} (step : S -> T -> S) (f : T -> T)
  (l : list T) (s : S) :
  (forall s t, step s (f t) = step s t) ->
  fold_left step (map f l) s = fold_left step l s.
Proof.
intro H. revert s. induction l as [| t l IH]; intro s; simpl; trivial.
now rewrite H, IH.
Qed.

Lemma asPlainSell_fields (t : Trade) :
  date (asPlainSell t) = date t /\
  stockKey (asPlainSell t) = stockKey t /\
  isBuy (type (asPlainSell t)) = isBuy (type t) /\
  price (asPlainSell t) = price t /\
  quantity (asPlainSell t) = quantity t /\
  zeroPosition (asPlainSell t) = zeroPosition t.
Proof.
unfold asPlainSell. destruct (isBuy (type t)) eqn:B; repeat split; trivial.
Qed.

Lemma sortByDate_asPlainSell (l : list Trade) :
  sortByDate (map asPlainSell l) = map asPlainSell (sortByDate l).
Proof.
apply stableSort_map. intros a b. unfold dateLe.
destruct (asPlainSell_fields a) as (-> & _).
now destruct (asPlainSell_fields b) as (-> & _).
Qed.

Lemma positionStep_asPlainSell (m : JsMap.t StockPosition) (t : Trade) :
  positionStep m (asPlainSell t) = positionStep m t.
Proof.
destruct (asPlainSell_fields t) as (_ & K & B & P & Q & Z).
unfold positionStep, posUpdate, applyTrade, applyBuy, applySell.
now rewrite K, B, P, Q, Z.
Qed.

Lemma avgPriceStep_asPlainSell (st : JsMap.t CostAcc * JsMap.t Qc)
  (t : Trade) :
  avgPriceStep st (asPlainSell t) = avgPriceStep st t.
Proof.
destruct (asPlainSell_fields t) as (_ & K & B & P & Q & _).
unfold avgPriceStep, costUpdate. now rewrite K, B, P, Q.
Qed.

Lemma monthStep_asPlainSell (positions : JsMap.t Qc) (m : JsMap.t Bucket.t)
  (t : Trade) :
  monthStep positions m (asPlainSell t) = monthStep positions m t.
Proof.
destruct (asPlainSell_fields t) as (D & K & B & P & Q & _).
unfold monthStep, bucketStep, sellPnlContribution, avgPriceFor, monthOf.
now rewrite D, K, B, P, Q.
Qed.

Lemma applyTrade_sell_side (p : StockPosition) (t : Trade) :
  sellQuantity (applyTrade p t)
  = sellQuantity p + (if isSell t then quantity t else 0) /\
  totalSellRevenue (applyTrade p t)
  = totalSellRevenue p + (if isSell t then revenueOf t else 0).
Proof.
unfold applyTrade, isSell, revenueOf.
destruct (isBuy (type t)); simpl; split; ring.
Qed.

Lemma fold_applyTrade_sell_side (ts : list Trade) (p : StockPosition) :
  sellQuantity (fold_left applyTrade ts p)
  = sellQuantity p + sumQc (map quantity (filter isSell ts)) /\
  totalSellRevenue (fold_left applyTrade ts p)
  = totalSellRevenue p + sumQc (map revenueOf (filter isSell ts)).
Proof.
revert p. induction ts as [| t ts IH]; intro p; simpl.
- split; ring.
- destruct (IH (applyTrade p t)) as [-> ->].
  destruct (applyTrade_sell_side p t) as [-> ->].
  destruct (isSell t); simpl; split; ring.
Qed.

(** The totals of the position of a key, over the trades of that key. *)
Lemma positionMap_totals (trades : list Trade) (k : string)
  (p : StockPosition) :
  JsMap.get k (positionMap trades) = Some p ->
  buyQuantity p = sumQc (map quantity (filter (isBuyOfKey k) trades)) /\
  totalBuyCost p = sumQc (map revenueOf (filter (isBuyOfKey k) trades)) /\
  sellQuantity p = sumQc (map quantity (filter (isSellOfKey k) trades)) /\
  totalSellRevenue p = sumQc (map revenueOf (filter (isSellOfKey k) trades)) /\
  holdingQuantity p = buyQuantity p - sellQuantity p.
Proof.
rewrite get_positionMap.
destruct (filter (isOfKey k) (sortByDate trades)) as [| t ts] eqn:F;
  [discriminate |].
intros [= <-].
destruct (fold_applyTrade_buys (t :: ts) t) as (H1 & H2 & _).
destruct (fold_applyTrade_sell_side (t :: ts) (zeroPosition t)) as (H3 & H4).
pose proof (holding_fold (t :: ts) (zeroPosition t)) as H5.
cbn [fold_left] in H1, H2, H3, H4, H5.
split; [| split; [| split; [| split]]]; [| | | | apply H5; simpl; ring].
all: rewrite ?H1, ?H2, ?H3, ?H4, <- F, !filter_filter_andb.
all: change (fun x => isBuy (type x) && isOfKey k x) with (isBuyOfKey k).
all: change (fun x => isSell x && isOfKey k x) with (isSellOfKey k).
all: rewrite !sum_over_sorted.
all: cbn [zeroPosition sellQuantity totalSellRevenue]; ring.
Qed.

Lemma insertSorted_snoc {A : Type} (le : A -> A -> bool) (x r : A)
  (s : list A) :
  le x r = true -> insertSorted le x (s ++ [r]) = insertSorted le x s ++ [r].
Proof.
intro H. induction s as [| h s IH]; cbn [app insertSorted].
- now rewrite H.
- destruct (le x h); trivial. cbn [app]. now rewrite IH.
Qed.

(** A record dated on or after every other one, given last, is processed
    last. *)
Lemma sortByDate_snoc (l : list Trade) (r : Trade) :
  (forall x, In x l -> String.leb (date x) (date r) = true) ->
  sortByDate (l ++ [r]) = sortByDate l ++ [r].
Proof.
unfold sortByDate. induction l as [| x l IH]; intro H; trivial.
cbn [app]. rewrite !stableSort_cons, IH by (intros; apply H; now right).
apply insertSorted_snoc. apply H. now left.
Qed.

Lemma positionFor_snoc (l : list Trade) (r : Trade) :
  (forall x, In x l -> String.leb (date x) (date r) = true) ->
  positionFor (stockKey r) (calculatePositions (l ++ [r]))
  = Some (posUpdate (positionFor (stockKey r) (calculatePositions l)) r).
Proof.
intro H. rewrite !positionFor_calculatePositions.
unfold positionMap. rewrite (sortByDate_snoc l r H), fold_left_app.
cbn [fold_left]. rewrite positionStep_set. apply get_set_same.
Qed.

(** C9. Both aggregators send every record that is not a buy, a round trip
    included, through their sell branch with its [price] as the sell price.
    Their results do not change when each such record is replaced by a plain
    sell of the same date, stock, quantity and [price].  In
    [calculatePositions] the sell side of a position sums [quantity] and
    [price * quantity] over all the records of its stock that are not buys,
    and such a record processed last adds [price * quantity] minus the
    average cost times [quantity] to the realized P&L.  In [getMonthlyStats]
    (validated input) the entry of a returned month has [price * quantity]
    of these records in [sellAmount] and [(price - average) * quantity] in
    [pnl]. *)
Theorem aggregators_take_non_buy_as_sell (trades : list Trade) :
  (calculatePositions (map asPlainSell trades) = calculatePositions trades /\
   getMonthlyStats (map asPlainSell trades) = getMonthlyStats trades) /\
  (forall t, type t = roundtrip -> isSell t = true) /\
  (forall k p, positionFor k (calculatePositions trades) = Some p ->
     sellQuantity p = sumQc (map quantity (filter (isSellOfKey k) trades)) /\
     totalSellRevenue p
     = sumQc (map (fun t => price t * quantity t)
                (filter (isSellOfKey k) trades))) /\
  (forall r, isSell r = true ->
     (forall x, In x trades -> String.leb (date x) (date r) = true) ->
     exists p',
       positionFor (stockKey r) (calculatePositions (trades ++ [r])) = Some p' /\
       sellQuantity p'
       = fieldOf sellQuantity
           (positionFor (stockKey r) (calculatePositions trades))
         + quantity r /\
       totalSellRevenue p'
       = fieldOf totalSellRevenue
           (positionFor (stockKey r) (calculatePositions trades))
         + price r * quantity r /\
       realizedPnL p'
       = fieldOf realizedPnL
           (positionFor (stockKey r) (calculatePositions trades))
         + (price r * quantity r
            - fieldOf avgBuyPrice
                (positionFor (stockKey r) (calculatePositions trades))
              * quantity r)) /\
  (Forall wellFormed trades ->
   forall m, In m (sliceLast 12 (distinctMonthsAsc trades)) ->
     exists e,
       In e (getMonthlyStats trades) /\
       month e = m /\
       sellAmount e
       = sumQc (map (fun t => price t * quantity t)
                  (filter (isSellOfMonth m) trades)) /\
       pnl e = sumQc (map (sellPnlOf trades) (filter (isSellOfMonth m) trades))).
Proof.
split; [split | split; [| split; [| split]]].
- unfold calculatePositions, positionMap.
  rewrite sortByDate_asPlainSell. f_equal.
  apply fold_left_map_step, positionStep_asPlainSell.
- unfold getMonthlyStats, allMonthlyStats, monthMapOf, avgPricePass. cbv zeta.
  rewrite sortByDate_asPlainSell.
  rewrite (fold_left_map_step avgPriceStep asPlainSell)
    by apply avgPriceStep_asPlainSell.
  do 3 f_equal.
  apply fold_left_map_step, monthStep_asPlainSell.
- intros t R. unfold isSell. now rewrite R.
- intros k p H. rewrite positionFor_calculatePositions in H.
  destruct (positionMap_totals trades k p H) as (_ & _ & H3 & H4 & _).
  now split.
- intros r S H. rewrite (positionFor_snoc trades r H).
  eexists. split; [reflexivity |].
  unfold isSell in S. apply negb_true_iff in S.
  unfold posUpdate, applyTrade. rewrite S.
  destruct (positionFor (stockKey r) (calculatePositions trades)) as [p |];
    cbn; repeat split; ring.
- intros WF m Hm. exists (monthEntryOf trades m).
  split; [| repeat split].
  rewrite (getMonthlyStats_entries trades WF). now apply in_map.
Qed.

(** A round trip with [price] 100 and quantity 10 after a buy of 10 at 90 of
    the same stock is booked as a sell: realized P&L (100 - 90) * 10 = 100,
    sell revenue 1000, and in the month 1000 of [sellAmount] and 100 of
    [pnl]; its [realizedPnl] field (1000) is not read. *)
Lemma aggregators_take_non_buy_as_sell_witness :
  isSell zeroInvestment = true /\
  Forall wellFormed mixedModels /\
  In "2024-06" (sliceLast 12 (distinctMonthsAsc mixedModels)) /\
  (exists p',
     positionFor "Z" (calculatePositions mixedModels) = Some p' /\
     sellQuantity p' = Q2Qc 10 /\
     totalSellRevenue p' = Q2Qc 1000 /\
     realizedPnL p' = Q2Qc 100) /\
  (exists e,
     In e (getMonthlyStats mixedModels) /\
     month e = "2024-06" /\
     sellAmount e = Q2Qc 1000 /\
     pnl e = Q2Qc 100).
Proof.
assert (WF : Forall wellFormed mixedModels) by (repeat constructor).
assert (M : In "2024-06" (sliceLast 12 (distinctMonthsAsc mixedModels)))
  by (left; reflexivity).
assert (D : forall x, In x [plainTrade "2024-06-01" "Z" "" buy 10 90] ->
              String.leb (date x) (date zeroInvestment) = true).
{ intros x [<- | []]. reflexivity. }
destruct (aggregators_take_non_buy_as_sell
            [plainTrade "2024-06-01" "Z" "" buy 10 90])
  as (_ & _ & _ & Last & _).
destruct (Last zeroInvestment eq_refl D) as (p' & Hp & Hq & Hr & Hpnl).
destruct (aggregators_take_non_buy_as_sell mixedModels)
  as (_ & _ & _ & _ & Months).
destruct (Months WF "2024-06" M) as (e & Ie & Me & Se & Pe).
split; [reflexivity | split; [exact WF | split; [exact M | split]]].
- exists p'. split; [exact Hp |].
  rewrite Hq, Hr, Hpnl. repeat split; qc_eq.
- exists e. split; [exact Ie | split; [exact Me |]].
  rewrite Se, Pe. split; qc_eq.
Defined.

(** * Further properties of the code *)

(** ** [calculatePositions]: one position per stock key *)

Lemma existsb_eqb_In (k : string) (l : list string) :
  existsb (String.eqb k) l = true <-> In k l.
Proof.
rewrite existsb_exists. split.
- intros (x & I & E). apply String.eqb_eq in E. now subst.
- intro I. exists k. split; trivial. apply String.eqb_refl.
Qed.

Lemma keys_fold_set_order {V T : Type} (keyOf : T -> string)
  (f : option V -> T -> V) (l : list T) (m : JsMap.t V) :
  JsMap.keys
    (fold_left (fun m t => JsMap.set (keyOf t) (f (JsMap.get (keyOf t) m) t) m)
       l m)
  = JsMap.keys m ++ firstSeenFrom (JsMap.keys m) (map keyOf l).
Proof.
revert m. induction l as [| t l IH]; intro m; simpl.
- now rewrite app_nil_r.
- rewrite IH.
  destruct (existsb (String.eqb (keyOf t)) (JsMap.keys m)) eqn:E.
  + apply existsb_eqb_In in E. now rewrite keys_set_in.
  + assert (N : ~ In (keyOf t) (JsMap.keys m)).
    { intro I. apply existsb_eqb_In in I. congruence. }
    rewrite keys_set_notin by assumption. now rewrite <- app_assoc.
Qed.

Lemma values_positionKey (m : JsMap.t StockPosition) :
  Forall (fun e => positionKey (snd e) = fst e) m ->
  map positionKey (JsMap.values m) = JsMap.keys m.
Proof.
induction 1 as [| e m H F IH]; simpl; trivial.
now rewrite H, IH.
Qed.

Lemma positionMap_keyed (trades : list Trade) :
  Forall (fun e => positionKey (snd e) = fst e) (positionMap trades).
Proof. apply fold_positionStep_keys. constructor. Qed.

Lemma positionMap_keys (trades : list Trade) :
  NoDup (JsMap.keys (positionMap trades)) /\
  (forall k, In k (JsMap.keys (positionMap trades))
             <-> exists t, In t trades /\ stockKey t = k).
Proof.
destruct (keys_fold_set stockKey posUpdate (sortByDate trades) JsMap.empty)
  as [ND I].
split; [apply ND; constructor |].
intro k. etransitivity; [apply I |]. simpl. rewrite in_map_iff.
split.
- intros [[] | (t & E & H)]. exists t. split; trivial.
  now apply sortByDate_In.
- intros (t & H & E). right. exists t. split; trivial.
  now apply sortByDate_In.
Qed.

(** X1. [calculatePositions] returns exactly one position per stock key
    ([stockCode || stockName]) that occurs in the trades, in the order in
    which the keys first occur in the date-sorted history. *)
Theorem calculatePositions_one_per_key (trades : list Trade) :
  map positionKey (calculatePositions trades)
  = firstSeen (map stockKey (sortByDate trades)) /\
  NoDup (map positionKey (calculatePositions trades)) /\
  (forall k, In k (map positionKey (calculatePositions trades))
             <-> exists t, In t trades /\ stockKey t = k).
Proof.
unfold calculatePositions.
rewrite (values_positionKey _ (positionMap_keyed trades)).
split; [| apply positionMap_keys].
exact (keys_fold_set_order stockKey posUpdate (sortByDate trades) JsMap.empty).
Qed.

(** Under one code two names are one position; one name with and without a
    code are two. *)
Example calculatePositions_grouping :
  map positionKey (calculatePositions renamedTicker) = ["035720"; "Kakao"] /\
  map posStockName (calculatePositions renamedTicker) = ["Kakao"; "Kakao"].
Proof. split; reflexivity. Qed.

Lemma In_values_get (trades : list Trade) (p : StockPosition) :
  In p (calculatePositions trades) ->
  JsMap.get (positionKey p) (positionMap trades) = Some p.
Proof.
unfold calculatePositions, JsMap.values. intro I.
apply in_map_iff in I. destruct I as ([k q] & E & I). simpl in E. subst q.
pose proof (positionMap_keyed trades) as K. rewrite Forall_forall in K.
pose proof (K _ I) as Hk. simpl in Hk. rewrite Hk.
apply In_get; trivial. apply positionMap_keys.
Qed.

(** X2. Conservation: in every returned position the quantities and amounts
    are the sums over the trades of its key, buys on one side and all other
    records on the other, and the holding is their difference. *)
Theorem calculatePositions_conservation (trades : list Trade)
  (p : StockPosition) :
  In p (calculatePositions trades) ->
  buyQuantity p
  = sumQc (map quantity (filter (isBuyOfKey (positionKey p)) trades)) /\
  totalBuyCost p
  = sumQc (map revenueOf (filter (isBuyOfKey (positionKey p)) trades)) /\
  sellQuantity p
  = sumQc (map quantity (filter (isSellOfKey (positionKey p)) trades)) /\
  totalSellRevenue p
  = sumQc (map revenueOf (filter (isSellOfKey (positionKey p)) trades)) /\
  holdingQuantity p = buyQuantity p - sellQuantity p.
Proof.
intro I. apply positionMap_totals. now apply In_values_get.
Qed.

Lemma calculatePositions_conservation_witness :
  exists p,
    In p (calculatePositions buySellBuy) /\
    positionKey p = "X" /\
    buyQuantity p = Q2Qc 20 /\
    totalBuyCost p = Q2Qc 300 /\
    sellQuantity p = Q2Qc 5 /\
    totalSellRevenue p = Q2Qc 75 /\
    holdingQuantity p = Q2Qc 15.
Proof.
set (p := hd (zeroPosition sellBetweenBuys) (calculatePositions buySellBuy)).
assert (I : In p (calculatePositions buySellBuy)).
{ vm_compute. left. reflexivity. }
assert (K : positionKey p = "X") by reflexivity.
destruct (calculatePositions_conservation buySellBuy p I)
  as (H1 & H2 & H3 & H4 & H5).
exists p. split; [exact I | split; [exact K |]].
rewrite K in H1, H2, H3, H4.
rewrite H5, H1, H2, H3, H4. repeat split; qc_eq.
Defined.

(** X3. The average of a returned position is its total buy cost over its
    buy quantity whenever that quantity is positive, and 0 otherwise: the
    guard of the buy branch holds of the final state. *)
Theorem calculatePositions_average (trades : list Trade)
  (p : StockPosition) :
  In p (calculatePositions trades) ->
  avgBuyPrice p
  = if Qcltb 0 (buyQuantity p) then totalBuyCost p / buyQuantity p else 0.
Proof.
intro I. apply In_values_get in I.
destruct (positionMap_totals _ _ _ I) as (Hq & Hc & _).
destruct (positionMap_buy_totals _ _ _ I) as (_ & Ha).
rewrite Ha, Hq, Hc.
destruct (filter (isBuyOfKey (positionKey p)) trades) as [| b bs];
  reflexivity.
Qed.

Lemma calculatePositions_average_witness :
  exists p,
    In p (calculatePositions buySellBuy) /\
    avgBuyPrice p
    = if Qcltb 0 (buyQuantity p) then totalBuyCost p / buyQuantity p else 0.
Proof.
set (p := hd (zeroPosition sellBetweenBuys) (calculatePositions buySellBuy)).
assert (I : In p (calculatePositions buySellBuy)).
{ vm_compute. left. reflexivity. }
exists p. split; [exact I |].
exact (calculatePositions_average buySellBuy p I).
Defined.

Lemma filter_StronglySorted {A : Type} (R : A -> A -> Prop) (p : A -> bool)
  (l : list A) :
  StronglySorted R l -> StronglySorted R (filter p l).
Proof.
induction 1 as [| h t S IH F]; simpl; [constructor |].
destruct (p h); trivial. constructor; trivial.
rewrite Forall_forall in *. intros x Hx. apply filter_In in Hx. now apply F.
Qed.

Lemma names_fold (ts : list Trade) (p : StockPosition) :
  posStockName (fold_left applyTrade ts p) = posStockName p /\
  posStockCode (fold_left applyTrade ts p) = posStockCode p.
Proof.
revert p. induction ts as [| t ts IH]; intro p; simpl; [now split |].
destruct (IH (applyTrade p t)) as [-> ->].
unfold applyTrade. now destruct (isBuy (type t)).
Qed.

(** X4. A returned position carries the [stockName] and [stockCode] of the
    earliest trade of its key: no trade of the key has a date before that
    trade's, and later records of the key never rename the position. *)
Theorem calculatePositions_names (trades : list Trade) (p : StockPosition) :
  In p (calculatePositions trades) ->
  exists t,
    In t trades /\
    stockKey t = positionKey p /\
    posStockName p = stockName t /\
    posStockCode p = stockCode t /\
    (forall u, In u trades -> stockKey u = positionKey p ->
       String.leb (date t) (date u) = true).
Proof.
intro I. apply In_values_get in I. rewrite get_positionMap in I.
pose proof (filter_StronglySorted _ (isOfKey (positionKey p)) _
              (stableSort_sorted dateLe dateLe_total dateLe_trans trades))
  as S.
fold (sortByDate trades) in S.
destruct (filter (isOfKey (positionKey p)) (sortByDate trades))
  as [| t ts] eqn:F; [discriminate |].
injection I as I.
assert (J : forall u, In u (t :: ts)
                      <-> In u trades /\ stockKey u = positionKey p).
{ intro u. rewrite <- F, filter_In, sortByDate_In.
  now rewrite isOfKey_true. }
destruct (names_fold (t :: ts) (zeroPosition t)) as [N C].
cbn [fold_left] in N, C. rewrite I in N, C.
exists t. destruct (proj1 (J t) (or_introl eq_refl)) as [It Kt].
repeat split; trivial.
intros u Iu Ku.
destruct (proj2 (J u) (conj Iu Ku)) as [<- | Hu].
- apply string_leb_refl.
- inversion S as [| ? ? _ Fa]; subst. rewrite Forall_forall in Fa.
  exact (Fa u Hu).
Qed.

Lemma calculatePositions_names_witness :
  exists p t,
    In p (calculatePositions renamedTicker) /\
    In t renamedTicker /\
    date t = "2024-02-01" /\
    posStockName p = stockName t /\
    (forall u, In u renamedTicker -> stockKey u = positionKey p ->
       String.leb (date t) (date u) = true).
Proof.
set (p := hd (zeroPosition sellBetweenBuys) (calculatePositions renamedTicker)).
assert (I : In p (calculatePositions renamedTicker)).
{ vm_compute. left. reflexivity. }
destruct (calculatePositions_names renamedTicker p I)
  as (t & It & Kt & Nt & Ct & Et).
exists p, t. repeat split; trivial.
destruct It as [<- | [<- | [<- | []]]].
- assert (L := Et (plainTrade "2024-02-01" "Kakao" "035720" buy 10 80)
                 (or_intror (or_introl eq_refl)) eq_refl).
  vm_compute in L. discriminate L.
- reflexivity.
- vm_compute in Kt. discriminate Kt.
Defined.

(** ** [getMonthlyStats] in closed form *)

(** X5. [getMonthlyStats] in closed form, for validated input: the last 12
    of the months of the data in ascending order, each with the amount of
    its buys, the amount of its sells, the number of its trades, and as
    [pnl] the sum over its sells of [(price - average) * quantity], the
    average of a stock being the amount of all its buys in the collection
    over their quantity; a sell of a stock bought nowhere adds nothing. *)
Theorem getMonthlyStats_closed_form (trades : list Trade) :
  Forall wellFormed trades ->
  getMonthlyStats trades
  = sliceLast 12 (map (monthEntryOf trades) (distinctMonthsAsc trades)).
Proof.
intro WF. rewrite (getMonthlyStats_entries trades WF). apply sliceLast_map.
Qed.

(** Two buys of X, at 10 and at 20, and two sells, at 15 and at 12, over
    three months: the months have 0, (15 - 15) * 5 = 0 and (12 - 15) * 10 =
    -30. *)
Lemma getMonthlyStats_closed_form_witness :
  Forall wellFormed boughtThenSold /\
  getMonthlyStats boughtThenSold
  = sliceLast 12
      (map (monthEntryOf boughtThenSold) (distinctMonthsAsc boughtThenSold)) /\
  map month (getMonthlyStats boughtThenSold)
  = ["2024-04"; "2024-05"; "2024-06"] /\
  map pnl (getMonthlyStats boughtThenSold) = [0; 0; Q2Qc (-30)].
Proof.
assert (WF : Forall wellFormed boughtThenSold) by (repeat constructor).
pose proof (getMonthlyStats_closed_form boughtThenSold WF) as H.
split; [exact WF | split; [exact H | split]].
- rewrite H. vm_compute. reflexivity.
- rewrite H. cbn [map]. vm_compute.
  repeat (apply f_equal2; [qc_eq |]). reflexivity.
Defined.

(** ** [getMonthlyStats] and the order of the input *)

Lemma distinctMonthsAsc_NoDup (trades : list Trade) :
  NoDup (distinctMonthsAsc trades).
Proof.
unfold distinctMonthsAsc. eapply Permutation_NoDup.
- symmetry. apply stableSort_perm.
- apply NoDup_nodup.
Qed.

Lemma distinctMonthsAsc_In (trades : list Trade) (m : string) :
  In m (distinctMonthsAsc trades) <-> In m (map monthOf trades).
Proof.
unfold distinctMonthsAsc. rewrite stableSort_In. apply nodup_In.
Qed.

Lemma distinctMonthsAsc_perm (l l' : list Trade) :
  Permutation l l' -> distinctMonthsAsc l = distinctMonthsAsc l'.
Proof.
intro P. unfold distinctMonthsAsc. apply stableSort_perm_eq.
- apply String.leb_total.
- apply string_leb_trans.
- apply String.leb_antisym.
- apply NoDup_Permutation; try apply NoDup_nodup.
  intro m. rewrite !nodup_In.
  split; apply Permutation_in, Permutation_map; [| symmetry]; exact P.
Qed.

Lemma finalAvgPrices_perm (l l' : list Trade) (k : string) :
  Permutation l l' ->
  JsMap.get k (finalAvgPrices l) = JsMap.get k (finalAvgPrices l').
Proof.
intro P. rewrite !finalAvgPrices_get.
apply (Permutation_match_nil _ _ None
         (fun bs => Some (sumQc (map revenueOf bs) / sumQc (map quantity bs)))).
- now apply filter_perm.
- do 2 f_equal; apply sumQc_perm, Permutation_map, filter_perm, P.
Qed.

Lemma monthlyStatOf_perm (l l' : list Trade) (m : string) :
  Permutation l l' -> monthlyStatOf l m = monthlyStatOf l' m.
Proof.
intro P. unfold monthlyStatOf. f_equal.
- apply sumQc_perm, Permutation_map, filter_perm, P.
- apply sumQc_perm, Permutation_map, filter_perm, P.
- rewrite (map_ext (sellPnlContribution (finalAvgPrices l))
             (sellPnlContribution (finalAvgPrices l'))).
  + apply sumQc_perm, Permutation_map, filter_perm, P.
  + intro t. unfold sellPnlContribution, avgPriceFor.
    now rewrite (finalAvgPrices_perm l l' _ P).
- apply Permutation_length, filter_perm, P.
Qed.

(** In exact arithmetic the whole result is the same for every order of the
    input. *)
Lemma getMonthlyStats_perm_exact (l l' : list Trade) :
  Permutation l l' -> getMonthlyStats l = getMonthlyStats l'.
Proof.
intro P. unfold getMonthlyStats.
rewrite !allMonthlyStats_closed_form, (distinctMonthsAsc_perm l l' P).
f_equal. apply map_ext. intro m. now apply monthlyStatOf_perm.
Qed.

(** X6. For every order of the input [getMonthlyStats] returns the same
    months with the same [count]s.  The amounts are sums of doubles taken in
    the order of the sorted input, and do depend on it: three buys of one
    day at 0.1, 0.2 and 0.3 give a [buyAmount] of 0.6000000000000001, and
    of 0.6 in the reverse order. *)
Theorem getMonthlyStats_any_order (l l' : list Trade) :
  (Permutation l l' ->
   map month (getMonthlyStats l) = map month (getMonthlyStats l') /\
   map count (getMonthlyStats l) = map count (getMonthlyStats l')) /\
  Permutation Double.tenths (rev Double.tenths) /\
  map Double.buyAmount (Double.getMonthlyStats Double.tenths)
  = [Double.aboveSixTenths] /\
  map Double.buyAmount (Double.getMonthlyStats (rev Double.tenths))
  = [Double.sixTenths] /\
  Double.aboveSixTenths <> Double.sixTenths.
Proof.
split; [| split; [apply Permutation_rev | split; [| split]]].
- intro P. now rewrite (getMonthlyStats_perm_exact l l' P).
- vm_compute. reflexivity.
- vm_compute. reflexivity.
- intro E. apply (f_equal Double.toQ) in E. vm_compute in E. discriminate E.
Qed.

Lemma getMonthlyStats_any_order_witness :
  Permutation sameDayBuyThenSell sameDaySellThenBuy /\
  map month (getMonthlyStats sameDayBuyThenSell)
  = map month (getMonthlyStats sameDaySellThenBuy) /\
  map count (getMonthlyStats sameDayBuyThenSell) = [2%nat].
Proof.
assert (P : Permutation sameDayBuyThenSell sameDaySellThenBuy)
  by apply perm_swap.
destruct (proj1 (getMonthlyStats_any_order _ _) P) as [M C].
split; [exact P | split; [exact M | reflexivity]].
Defined.

(** ** Sums over groups *)

Lemma list_sum_map_add {A : Type} (f g : A -> nat) (l : list A) :
  list_sum (map (fun x => (f x + g x)%nat) l)
  = (list_sum (map f l) + list_sum (map g l))%nat.
Proof. induction l as [| x l IH]; simpl; lia. Qed.

Lemma sumQc_map_add {A : Type} (f g : A -> Qc) (l : list A) :
  sumQc (map (fun x => f x + g x) l) = sumQc (map f l) + sumQc (map g l).
Proof.
induction l as [| x l IH]; simpl.
- ring.
- rewrite IH. ring.
Qed.

Lemma list_sum_indicator (x : string) (ks : list string) :
  NoDup ks -> In x ks ->
  list_sum (map (fun k => if String.eqb x k then 1 else 0)%nat ks) = 1%nat.
Proof.
induction 1 as [| k ks N ND IH]; simpl; [tauto |].
intros [-> | I].
- rewrite String.eqb_refl.
  assert (Z : list_sum (map (fun k => if String.eqb x k then 1 else 0)%nat ks)
              = 0%nat).
  { clear IH ND. induction ks as [| k ks IH]; simpl; trivial.
    destruct (String.eqb x k) eqn:E.
    - apply String.eqb_eq in E. subst. exfalso. apply N. now left.
    - apply IH. intro H. apply N. now right. }
  now rewrite Z.
- destruct (String.eqb x k) eqn:E.
  + apply String.eqb_eq in E. subst. contradiction.
  + now apply IH.
Qed.

Lemma sumQc_indicator (x : string) (v : Qc) (ks : list string) :
  NoDup ks -> In x ks ->
  sumQc (map (fun k => if String.eqb x k then v else 0) ks) = v.
Proof.
induction 1 as [| k ks N ND IH]; simpl; [tauto |].
intros [-> | I].
- rewrite String.eqb_refl.
  assert (Z : sumQc (map (fun k => if String.eqb x k then v else 0) ks) = 0).
  { clear IH ND. induction ks as [| k ks IH]; simpl; trivial.
    destruct (String.eqb x k) eqn:E.
    - apply String.eqb_eq in E. subst. exfalso. apply N. now left.
    - rewrite IH; [ring |]. intro H. apply N. now right. }
  rewrite Z. ring.
- destruct (String.eqb x k) eqn:E.
  + apply String.eqb_eq in E. subst. contradiction.
  + rewrite IH by assumption. ring.
Qed.

(** Grouping by a label loses nothing and counts nothing twice. *)
Lemma partition_length {T : Type} (label : T -> string) (ks : list string)
  (l : list T) :
  NoDup ks ->
  (forall t, In t l -> In (label t) ks) ->
  list_sum
    (map (fun k => length (filter (fun t => String.eqb (label t) k) l)) ks)
  = length l.
Proof.
intros ND. induction l as [| t l IH]; intro C; simpl.
- clear. induction ks; simpl; auto.
- rewrite (map_ext _
    (fun k => ((if String.eqb (label t) k then 1 else 0)
               + length (filter (fun t => String.eqb (label t) k) l))%nat)).
  + rewrite list_sum_map_add, IH by (intros; apply C; now right).
    rewrite list_sum_indicator; trivial. apply C. now left.
  + intro k. now destruct (String.eqb (label t) k).
Qed.

Lemma partition_sum {T : Type} (label : T -> string) (f : T -> Qc)
  (ks : list string) (l : list T) :
  NoDup ks ->
  (forall t, In t l -> In (label t) ks) ->
  sumQc
    (map (fun k => sumQc (map f (filter (fun t => String.eqb (label t) k) l)))
       ks)
  = sumQc (map f l).
Proof.
intros ND. induction l as [| t l IH]; intro C; simpl.
- clear. induction ks as [| k ks IH]; simpl; trivial.
  rewrite IH. ring.
- rewrite (map_ext _
    (fun k => (if String.eqb (label t) k then f t else 0)
              + sumQc (map f (filter (fun t => String.eqb (label t) k) l)))).
  + rewrite sumQc_map_add, IH by (intros; apply C; now right).
    rewrite sumQc_indicator; trivial. apply C. now left.
  + intro k. destruct (String.eqb (label t) k); simpl; ring.
Qed.

Lemma list_sum_skipn (n : nat) (l : list nat) :
  (list_sum (skipn n l) <= list_sum l)%nat.
Proof.
revert l. induction n as [| n IH]; intro l; simpl; [lia |].
destruct l as [| x l]; simpl; [lia |]. specialize (IH l). lia.
Qed.

Lemma sliceLast_all {A : Type} (n : nat) (l : list A) :
  (length l <= n)%nat -> sliceLast n l = l.
Proof.
intro H. unfold sliceLast. replace (length l - n)%nat with 0%nat by lia.
reflexivity.
Qed.

(** X7. The [count]s of the returned months never add up to more than the
    number of trades, and when the data span at most 12 months nothing is
    left out: the counts add up to the number of trades, the [buyAmount]s to
    the amount of all buys and the [sellAmount]s to the amount of all other
    records. *)
Theorem getMonthlyStats_accounts_for_all (trades : list Trade) :
  (list_sum (map count (getMonthlyStats trades)) <= length trades)%nat /\
  ((length (distinctMonthsAsc trades) <= 12)%nat ->
   list_sum (map count (getMonthlyStats trades)) = length trades /\
   sumQc (map buyAmount (getMonthlyStats trades))
   = sumQc (map revenueOf (filter (fun t => isBuy (type t)) trades)) /\
   sumQc (map sellAmount (getMonthlyStats trades))
   = sumQc (map revenueOf (filter isSell trades))).
Proof.
assert (Cover : forall (l : list Trade) t,
          incl l trades -> In t l -> In (monthOf t) (distinctMonthsAsc trades)).
{ intros l t Hl It. apply distinctMonthsAsc_In, in_map, Hl, It. }
assert (Total : list_sum (map count (allMonthlyStats trades)) = length trades).
{ rewrite allMonthlyStats_closed_form, map_map. cbn [count monthlyStatOf].
  apply (partition_length monthOf).
  - apply distinctMonthsAsc_NoDup.
  - intros t It. now apply (Cover trades), It; [apply incl_refl]. }
split.
- rewrite <- Total. unfold getMonthlyStats, sliceLast.
  rewrite <- skipn_map. apply list_sum_skipn.
- intro Few. unfold getMonthlyStats. rewrite sliceLast_all.
  2:{ now rewrite allMonthlyStats_closed_form, length_map. }
  split; [exact Total |].
  rewrite allMonthlyStats_closed_form, !map_map.
  cbn [buyAmount sellAmount monthlyStatOf].
  split.
  + rewrite <- (partition_sum monthOf revenueOf (distinctMonthsAsc trades)
                  (filter (fun t => isBuy (type t)) trades)).
    * f_equal. apply map_ext. intro m. rewrite filter_filter_andb.
      do 2 f_equal. apply filter_ext. intro t. apply andb_comm.
    * apply distinctMonthsAsc_NoDup.
    * intros t It. apply (Cover (filter (fun t => isBuy (type t)) trades));
        trivial. intros x Hx. now apply filter_In in Hx.
  + rewrite <- (partition_sum monthOf revenueOf (distinctMonthsAsc trades)
                  (filter isSell trades)).
    * f_equal. apply map_ext. intro m. rewrite filter_filter_andb.
      do 2 f_equal. apply filter_ext. intro t. apply andb_comm.
    * apply distinctMonthsAsc_NoDup.
    * intros t It. apply (Cover (filter isSell trades)); trivial.
      intros x Hx. now apply filter_In in Hx.
Qed.

Lemma getMonthlyStats_accounts_for_all_witness :
  (length (distinctMonthsAsc buySellBuy) <= 12)%nat /\
  list_sum (map count (getMonthlyStats buySellBuy)) = 3%nat /\
  (list_sum (map count (getMonthlyStats fifteenMonths)) < 15)%nat.
Proof.
assert (Few : (length (distinctMonthsAsc buySellBuy) <= 12)%nat).
{ vm_compute. lia. }
split; [exact Few | split].
- destruct (getMonthlyStats_accounts_for_all buySellBuy) as (_ & H).
  destruct (H Few) as (-> & _). reflexivity.
- vm_compute. lia.
Defined.

(** ** The positions together, and the portfolio page *)

Lemma fold_left_sum {A : Type} (f : A -> Qc) (l : list A) (a : Qc) :
  fold_left (fun s x => s + f x) l a = a + sumQc (map f l).
Proof.
revert a. induction l as [| x l IH]; intro a; simpl.
- ring.
- rewrite IH. ring.
Qed.

Lemma positionKeys (trades : list Trade) :
  NoDup (map positionKey (calculatePositions trades)) /\
  (forall k, In k (map positionKey (calculatePositions trades))
             <-> exists t, In t trades /\ stockKey t = k).
Proof.
unfold calculatePositions.
rewrite (values_positionKey _ (positionMap_keyed trades)).
apply positionMap_keys.
Qed.

Lemma stockKey_covered (trades l : list Trade) (t : Trade) :
  incl l trades -> In t l ->
  In (stockKey t) (map positionKey (calculatePositions trades)).
Proof.
intros Hl It. apply positionKeys. exists t. split; auto.
Qed.

Lemma sum_over_positions (trades : list Trade) (f : StockPosition -> Qc)
  (g : Trade -> Qc) (sel : Trade -> bool) :
  (forall p, In p (calculatePositions trades) ->
     f p = sumQc (map g (filter (fun t => sel t && isOfKey (positionKey p) t)
                           trades))) ->
  sumQc (map f (calculatePositions trades)) = sumQc (map g (filter sel trades)).
Proof.
intro H.
rewrite <- (partition_sum stockKey g
              (map positionKey (calculatePositions trades))
              (filter sel trades)).
- rewrite map_map. f_equal. apply map_ext_in. intros p Ip.
  rewrite (H p Ip), filter_filter_andb. do 2 f_equal.
  apply filter_ext. intro t. apply andb_comm.
- apply positionKeys.
- intros t It. apply (stockKey_covered trades (filter sel trades)); trivial.
  intros x Hx. now apply filter_In in Hx.
Qed.


(** X8. Over all returned positions nothing is lost and nothing is counted
    twice: the [totalBuyCost]s add up to the amount of all buys, the
    [totalSellRevenue]s to the amount of all other records, and likewise the
    quantities. *)
Theorem calculatePositions_accounts_for_all (trades : list Trade) :
  sumQc (map totalBuyCost (calculatePositions trades))
  = sumQc (map revenueOf (filter (fun t => isBuy (type t)) trades)) /\
  sumQc (map buyQuantity (calculatePositions trades))
  = sumQc (map quantity (filter (fun t => isBuy (type t)) trades)) /\
  sumQc (map totalSellRevenue (calculatePositions trades))
  = sumQc (map revenueOf (filter isSell trades)) /\
  sumQc (map sellQuantity (calculatePositions trades))
  = sumQc (map quantity (filter isSell trades)).
Proof.
repeat split; apply sum_over_positions; intros p Ip;
  apply In_values_get in Ip;
  destruct (positionMap_totals _ _ _ Ip) as (H1 & H2 & H3 & H4 & _);
  assumption.
Qed.

Lemma filter_all {A : Type} (p : A -> bool) (l : list A) :
  (forall x, In x l -> p x = true) -> filter p l = l.
Proof.
induction l as [| x l IH]; intro H; simpl; trivial.
rewrite (H x (or_introl eq_refl)), IH; trivial.
intros y Hy. apply H. now right.
Qed.

Lemma filter_none {A : Type} (p : A -> bool) (l : list A) :
  (forall x, In x l -> p x = false) -> filter p l = [].
Proof.
induction l as [| x l IH]; intro H; simpl; trivial.
rewrite (H x (or_introl eq_refl)), IH; trivial.
intros y Hy. apply H. now right.
Qed.







Lemma Qc_neg_of_pos (s : Qc) : 0 < s -> 0 - s < 0.
Proof.
intro H. apply Qclt_minus_iff.
now replace (0 + - (0 - s)) with s by ring.
Qed.

(** X10. A stock that was only sold (validated quantities) has a position
    with a negative holding: the portfolio page lists it neither among the
    held nor among the closed positions, although its whole sell revenue is
    part of the total realized P&L. *)
Theorem portfolio_hides_sold_only (trades : list Trade) (k : string) :
  (exists t, In t trades /\ stockKey t = k) ->
  (forall t, In t trades -> stockKey t = k ->
     isBuy (type t) = false /\ 0 < quantity t) ->
  (forall p, In p (Portfolio.activePositions trades)
             \/ In p (Portfolio.closedPositions trades) ->
     positionKey p <> k) /\
  exists p,
    In p (calculatePositions trades) /\
    positionKey p = k /\
    holdingQuantity p < 0 /\
    realizedPnL p = sumQc (map revenueOf (filter (isOfKey k) trades)).
Proof.
intros (t0 & I0 & K0) Sold.
assert (NoBuy : forall t, In t trades -> stockKey t = k ->
                  isBuy (type t) = false).
{ intros t It Kt. now apply Sold. }
assert (Neg : forall p, In p (calculatePositions trades) ->
                positionKey p = k -> holdingQuantity p < 0).
{ intros p Ip Kp. apply In_values_get in Ip. rewrite Kp in Ip.
  destruct (positionMap_totals _ _ _ Ip) as (Hq & _ & Hs & _ & Hh).
  rewrite (no_buys_of_key trades k NoBuy) in Hq.
  rewrite Hh, Hq, Hs. cbn [map sumQc fold_right]. apply Qc_neg_of_pos.
  destruct (filter (isSellOfKey k) trades) as [| s ss] eqn:Fs.
  - exfalso.
    assert (J : In t0 (filter (isSellOfKey k) trades)).
    { apply filter_In. split; trivial. unfold isSellOfKey, isSell.
      rewrite (NoBuy t0 I0 K0). now apply isOfKey_true. }
    now rewrite Fs in J.
  - apply sumQc_pos. apply Forall_forall. intros x Hx. rewrite <- Fs in Hx.
    apply filter_In in Hx. destruct Hx as [Ix Kx].
    apply andb_true_iff in Kx. destruct Kx as [_ Kx].
    apply isOfKey_true in Kx. now apply Sold. }
split.
- intros p [Ip | Ip] Kp; apply filter_In in Ip; destruct Ip as [Ip Hp];
    pose proof (Neg p Ip Kp) as N.
  + apply Qcltb_true in Hp. exact (Qclt_not_le _ _ Hp (Qclt_le_weak _ _ N)).
  + apply andb_true_iff in Hp. destruct Hp as [Hp _].
    apply Qc_eq_bool_correct in Hp. rewrite Hp in N.
    exact (Qclt_not_eq _ _ N eq_refl).
- destruct (sells_only_run trades k) as (u & us & E & F);
    [now exists t0 | exact NoBuy |].
  assert (G : JsMap.get k (positionMap trades)
              = Some (fold_left applyTrade (u :: us) (zeroPosition u))).
  { now rewrite get_positionMap, E. }
  pose proof (get_In _ _ _ G) as Ie.
  assert (Ip : In (fold_left applyTrade (u :: us) (zeroPosition u))
                 (calculatePositions trades)).
  { unfold calculatePositions, JsMap.values.
    apply in_map_iff. now exists (k, fold_left applyTrade (u :: us)
                                      (zeroPosition u)). }
  assert (Kp : positionKey (fold_left applyTrade (u :: us) (zeroPosition u))
               = k).
  { pose proof (positionMap_keyed trades) as K. rewrite Forall_forall in K.
    exact (K _ Ie). }
  eexists. split; [exact Ip | split; [exact Kp | split]].
  + now apply Neg.
  + destruct (fold_applyTrade_sells (u :: us) (zeroPosition u) F eq_refl)
      as (_ & _ & H3 & _).
    rewrite H3, <- E, sum_over_sorted. cbn [zeroPosition realizedPnL]. ring.
Qed.

Lemma portfolio_hides_sold_only_witness :
  Portfolio.activePositions sampleOnlySell = [] /\
  Portfolio.closedPositions sampleOnlySell = [] /\
  exists p,
    In p (calculatePositions sampleOnlySell) /\
    positionKey p = "Y" /\
    holdingQuantity p < 0.
Proof.
destruct (portfolio_hides_sold_only sampleOnlySell "Y")
  as (_ & p & Ip & Kp & Hp & _).
- eexists. split; [left; reflexivity | reflexivity].
- intros t [<- | []] _. split; reflexivity.
- split; [reflexivity | split; [reflexivity |]].
  exists p. now repeat split.
Defined.

(** ** The monthly P&L against the realized P&L of the positions *)

Lemma string_ltb_not_leb (a b : string) :
  String.ltb a b = true -> String.leb b a = false.
Proof.
unfold String.ltb, String.leb. rewrite (String.compare_antisym a b).
destruct (String.compare b a); simpl; congruence.
Qed.







(** Without the order of buys and sells the two totals differ: with a buy
    after the sell the months add up to 0 and the portfolio shows 25. *)
Example monthly_pnl_differs_from_realized :
  sumQc (map pnl (getMonthlyStats buySellBuy)) = 0 /\
  Portfolio.totalRealizedPnL buySellBuy = Q2Qc 25.
Proof. split; qc_eq. Qed.

(** ** The dashboard: totals of a day, selection, calendar *)

Lemma getTradeComputed_pnl (t : Trade) :
  Computed.pnl (getTradeComputed t) = nullish (realizedPnl t) 0.
Proof. unfold getTradeComputed. now destruct (type t). Qed.

Lemma fold_dayStep_totals (l : list Trade) (acc : DayAcc) :
  accBuy (fold_left dayStep l acc)
  = accBuy acc
    + sumQc (map (fun t => Computed.buyAmount (getTradeComputed t)) l) /\
  accSell (fold_left dayStep l acc)
  = accSell acc
    + sumQc (map (fun t => Computed.sellAmount (getTradeComputed t)) l) /\
  accPnl (fold_left dayStep l acc)
  = accPnl acc + sumQc (map (fun t => nullish (realizedPnl t) 0) l).
Proof.
revert acc. induction l as [| t l IH]; intro acc; simpl.
- repeat split; ring.
- destruct (IH (dayStep acc t)) as (-> & -> & ->).
  unfold dayStep. cbn [accBuy accSell accPnl].
  rewrite getTradeComputed_pnl. repeat split; ring.
Qed.

(** X12. The totals of [getDaySummary] are the sums of what
    [getTradeComputed] gives for each record, and its [totalPnl] is what
    [sumPnl] computes on the same list although one reads the field with
    [??] and the other with [||]: the day panel and the cards agree. *)
Theorem getDaySummary_totals (l : list Trade) (todayStr : string) :
  totalBuy (getDaySummary l)
  = sumQc (map (fun t => Computed.buyAmount (getTradeComputed t)) l) /\
  totalSell (getDaySummary l)
  = sumQc (map (fun t => Computed.sellAmount (getTradeComputed t)) l) /\
  totalPnl (getDaySummary l) = Dashboard.sumPnl l /\
  Dashboard.todayPnL todayStr l
  = totalPnl (getDaySummary (Dashboard.todayTrades todayStr l)).
Proof.
assert (P : forall l, totalPnl (getDaySummary l) = Dashboard.sumPnl l).
{ intro l0. unfold getDaySummary, Dashboard.sumPnl. cbn [totalPnl].
  destruct (fold_dayStep_totals l0
              {| accBuy := 0; accSell := 0; accPnl := 0; returns := [] |})
    as (_ & _ & ->).
  rewrite fold_left_sum. cbn [accPnl]. do 2 f_equal.
  apply map_ext. intro t. symmetry. apply fieldOr_zero. }
unfold getDaySummary. cbn [totalBuy totalSell].
destruct (fold_dayStep_totals l
            {| accBuy := 0; accSell := 0; accPnl := 0; returns := [] |})
  as (-> & -> & _).
cbn [accBuy accSell]. repeat split; try ring.
- apply P.
- unfold Dashboard.todayPnL. symmetry. apply P.
Qed.

Lemma find_id_In (ts : list Trade) (i : string) (t : Trade) :
  find (fun t => String.eqb (id t) i) ts = Some t -> In t ts /\ id t = i.
Proof.
intro F. apply find_some in F. destruct F as [I E].
split; trivial. now apply String.eqb_eq.
Qed.

Lemma find_id_exists (ts : list Trade) (i : string) :
  existsb (fun t => String.eqb (id t) i) ts = true ->
  exists t, find (fun t => String.eqb (id t) i) ts = Some t.
Proof.
intro E. destruct (find (fun t => String.eqb (id t) i) ts) as [t |] eqn:F.
- now exists t.
- apply existsb_exists in E. destruct E as (x & Ix & Ex).
  pose proof (find_none _ _ F x Ix) as N. simpl in N. congruence.
Qed.

(** X13. The selection of the day panel is always a record of the selected
    day: [selectedTrade] is [null] only for an empty day, otherwise it is a
    record of the list, the one with the selected id when there is one; and
    after the synchronising effect the selected id is [null] or the id of a
    record of the day, never a stale one. *)
Theorem selection_stays_in_the_day (selectedTrades : list Trade)
  (selectedDate prev : option string) :
  (forall sid, Dashboard.selectedTrade selectedTrades sid = None
               <-> selectedTrades = []) /\
  (forall sid t, Dashboard.selectedTrade selectedTrades sid = Some t ->
     In t selectedTrades) /\
  (forall i, existsb (fun t => String.eqb (id t) i) selectedTrades = true ->
     exists t, Dashboard.selectedTrade selectedTrades (Some i) = Some t /\
               id t = i) /\
  (forall i,
     Dashboard.syncSelectedTradeId selectedDate selectedTrades prev = Some i ->
     exists t, In t selectedTrades /\ id t = i /\
               Dashboard.selectedTrade selectedTrades (Some i) = Some t) /\
  (Dashboard.syncSelectedTradeId selectedDate selectedTrades prev = None
   <-> selectedDate = None \/ selectedDate = Some "" \/ selectedTrades = []).
Proof.
assert (Sel : forall i, existsb (fun t => String.eqb (id t) i) selectedTrades
                        = true ->
         exists t, Dashboard.selectedTrade selectedTrades (Some i) = Some t /\
                   id t = i).
{ intros i E. destruct (find_id_exists _ _ E) as (t & F).
  exists t. unfold Dashboard.selectedTrade. rewrite F.
  split; trivial. now apply (find_id_In selectedTrades). }
assert (In_ : forall sid t,
          Dashboard.selectedTrade selectedTrades sid = Some t ->
          In t selectedTrades).
{ intros sid t. unfold Dashboard.selectedTrade.
  destruct sid as [i |].
  - destruct (find _ selectedTrades) as [u |] eqn:F.
    + intros [= <-]. now apply (find_id_In selectedTrades i).
    + destruct selectedTrades; simpl; [discriminate | intros [= <-]; now left].
  - destruct selectedTrades; simpl; [discriminate | intros [= <-]; now left]. }
split; [| split; [exact In_ | split; [exact Sel | split]]].
- intro sid. split.
  + unfold Dashboard.selectedTrade.
    destruct selectedTrades as [| t ts]; trivial.
    destruct (match sid with Some i => _ | None => _ end); discriminate.
  + intros ->. unfold Dashboard.selectedTrade. now destruct sid.
- intros i. unfold Dashboard.syncSelectedTradeId.
  destruct selectedDate as [d |]; [| discriminate].
  destruct (String.eqb d ""); [discriminate |].
  destruct selectedTrades as [| first rest] eqn:Ets; [discriminate |].
  rewrite <- Ets in *.
  assert (First : existsb (fun t => String.eqb (id t) (id first)) selectedTrades
                  = true).
  { rewrite Ets. simpl. now rewrite String.eqb_refl. }
  assert (Done : forall j,
            existsb (fun t => String.eqb (id t) j) selectedTrades = true ->
            exists t, In t selectedTrades /\ id t = j /\
                      Dashboard.selectedTrade selectedTrades (Some j) = Some t).
  { intros j E. destruct (Sel j E) as (t & St & It).
    exists t. repeat split; trivial. exact (In_ _ _ St). }
  destruct prev as [p |].
  + destruct (negb (String.eqb p "")
              && existsb (fun t => String.eqb (id t) p) selectedTrades) eqn:C.
    * intros [= <-]. apply andb_true_iff in C. now apply Done.
    * intros [= <-]. now apply Done.
  + intros [= <-]. now apply Done.
- unfold Dashboard.syncSelectedTradeId.
  destruct selectedDate as [d |]; [| tauto].
  destruct (String.eqb d "") eqn:D.
  + apply String.eqb_eq in D. subst. tauto.
  + apply String.eqb_neq in D.
    destruct selectedTrades as [| first rest].
    * tauto.
    * split.
      -- destruct prev as [p |]; [| discriminate].
         destruct (negb (String.eqb p "") && _); discriminate.
      -- intros [H | [H | H]]; [discriminate | | discriminate].
         injection H as H. contradiction.
Qed.

(** X14. The month buttons of the calendar keep the month between 0 and 11,
    move by exactly one month, rolling the year over at its ends, undo each
    other, and clear the selection. *)
Theorem calendar_month_buttons (st : Dashboard.CalendarState) :
  (0 <= Dashboard.currentMonth st <= 11)%Z ->
  (0 <= Dashboard.currentMonth (Dashboard.goToPrevMonth st) <= 11)%Z /\
  (0 <= Dashboard.currentMonth (Dashboard.goToNextMonth st) <= 11)%Z /\
  (Dashboard.currentYear (Dashboard.goToPrevMonth st) * 12
   + Dashboard.currentMonth (Dashboard.goToPrevMonth st)
   = Dashboard.currentYear st * 12 + Dashboard.currentMonth st - 1)%Z /\
  (Dashboard.currentYear (Dashboard.goToNextMonth st) * 12
   + Dashboard.currentMonth (Dashboard.goToNextMonth st)
   = Dashboard.currentYear st * 12 + Dashboard.currentMonth st + 1)%Z /\
  Dashboard.goToNextMonth (Dashboard.goToPrevMonth st) = unselect st /\
  Dashboard.goToPrevMonth (Dashboard.goToNextMonth st) = unselect st.
Proof.
intro R. unfold Dashboard.goToPrevMonth, Dashboard.goToNextMonth, unselect.
destruct (Z.eqb_spec (Dashboard.currentMonth st) 0) as [E0 | N0];
  destruct (Z.eqb_spec (Dashboard.currentMonth st) 11) as [E1 | N1];
  cbn [Dashboard.currentMonth Dashboard.currentYear]; try lia.
- rewrite E0. simpl. repeat split; try lia. f_equal; lia.
- rewrite E1. simpl. repeat split; try lia. f_equal; lia.
- destruct (Z.eqb_spec (Dashboard.currentMonth st - 1) 11); [lia |].
  destruct (Z.eqb_spec (Dashboard.currentMonth st + 1) 0); [lia |].
  repeat split; try lia; f_equal; lia.
Qed.

Lemma calendar_month_buttons_witness :
  (0 <= Dashboard.currentMonth december <= 11)%Z /\
  Dashboard.currentYear (Dashboard.goToNextMonth december) = 2025%Z /\
  Dashboard.currentMonth (Dashboard.goToNextMonth december) = 0%Z /\
  Dashboard.goToPrevMonth (Dashboard.goToNextMonth december)
  = unselect december.
Proof.
assert (R : (0 <= Dashboard.currentMonth december <= 11)%Z) by (simpl; lia).
destruct (calendar_month_buttons december R) as (_ & _ & _ & _ & _ & H).
split; [exact R | split; [reflexivity | split; [reflexivity | exact H]]].
Defined.

Lemma selection_stays_in_the_day_witness :
  Dashboard.syncSelectedTradeId (Some "2024-06-03") threeOfOneDay (Some "gone")
  = Some "a" /\
  exists t, In t threeOfOneDay /\ id t = "a" /\
            Dashboard.selectedTrade threeOfOneDay (Some "a") = Some t.
Proof.
split; [reflexivity |].
destruct (selection_stays_in_the_day threeOfOneDay (Some "2024-06-03")
            (Some "gone")) as (_ & _ & _ & H & _).
exact (H "a" eq_refl).
Defined.

(** ** The cells of the calendar *)

Lemma padCells_enough (fuel : nat) (cs : list (option nat)) :
  ((7 - length cs mod 7) mod 7 < fuel)%nat ->
  Dashboard.padCells fuel cs
  = Some (cs ++ repeat None ((7 - length cs mod 7) mod 7)).
Proof.
revert cs. induction fuel as [| fuel IH]; intros cs H; [lia |].
cbn [Dashboard.padCells].
destruct (Nat.eqb_spec (length cs mod 7) 0) as [E | N].
- rewrite E. cbn. now rewrite app_nil_r.
- pose proof (Nat.mod_upper_bound (length cs) 7 ltac:(lia)) as B.
  assert (L : length (cs ++ [None]) = S (length cs))
    by (rewrite length_app; simpl; lia).
  assert (M : ((7 - length (cs ++ [None]) mod 7) mod 7
               = (7 - length cs mod 7) mod 7 - 1
               /\ 1 <= (7 - length cs mod 7) mod 7)%nat).
  { rewrite L.
    assert (C : (S (length cs) mod 7
                 = if Nat.eqb (length cs mod 7) 6 then 0
                   else S (length cs mod 7))%nat).
    { destruct (Nat.eqb_spec (length cs mod 7) 6) as [E6 | N6].
      - rewrite (Nat.div_mod (length cs) 7) at 1 by lia. rewrite E6.
        replace (S (7 * (length cs / 7) + 6))
          with (0 + (S (length cs / 7)) * 7)%nat by lia.
        now rewrite Nat.Div0.mod_add.
      - rewrite (Nat.div_mod (length cs) 7) at 1 by lia.
        replace (S (7 * (length cs / 7) + length cs mod 7))
          with (S (length cs mod 7) + (length cs / 7) * 7)%nat by lia.
        rewrite Nat.Div0.mod_add. apply Nat.mod_small. lia. }
    rewrite C.
    rewrite (Nat.mod_small (7 - length cs mod 7) 7) by lia.
    destruct (Nat.eqb_spec (length cs mod 7) 6) as [E6 | N6].
    - rewrite E6. simpl. lia.
    - rewrite Nat.mod_small by lia. lia. }
  destruct M as [M1 M2].
  rewrite IH by lia. rewrite M1, <- app_assoc. do 2 f_equal.
  destruct ((7 - length cs mod 7) mod 7) as [| k]; [lia |].
  simpl. now rewrite Nat.sub_0_r.
Qed.

(** X15. The loop that pads the calendar ends after at most 6 rounds: with
    any bound of 7 or more it returns the blanks of the first week, the days
    1 to [daysInMonth] in order and fewer than 7 trailing blanks, a whole
    number of weeks in all; day [d] is in cell [firstDay + d - 1]. *)
Theorem calendar_cells (firstDay daysInMonth fuel : nat) :
  (7 <= fuel)%nat ->
  exists k,
    (k < 7)%nat /\
    Dashboard.cells fuel firstDay daysInMonth
    = Some (repeat None firstDay ++ map Some (seq 1 daysInMonth)
            ++ repeat None k) /\
    ((firstDay + daysInMonth + k) mod 7 = 0)%nat /\
    (forall cs d,
       Dashboard.cells fuel firstDay daysInMonth = Some cs ->
       (1 <= d <= daysInMonth)%nat ->
       nth_error cs (firstDay + d - 1) = Some (Some d)).
Proof.
intro F. unfold Dashboard.cells.
set (base := Dashboard.cellsOfMonth firstDay daysInMonth).
assert (Lb : length base = (firstDay + daysInMonth)%nat).
{ unfold base, Dashboard.cellsOfMonth.
  now rewrite length_app, repeat_length, length_map, length_seq. }
pose proof (Nat.mod_upper_bound (length base) 7 ltac:(lia)) as B.
pose proof (Nat.mod_upper_bound (7 - length base mod 7) 7 ltac:(lia)) as K.
exists ((7 - length base mod 7) mod 7).
rewrite padCells_enough by lia.
split; [exact K | split; [| split]].
- unfold base, Dashboard.cellsOfMonth. now rewrite <- app_assoc.
- rewrite <- Lb.
  pose proof (Nat.div_mod (length base) 7 ltac:(lia)) as Hdm.
  destruct (Nat.eqb_spec (length base mod 7) 0) as [E | N].
  + rewrite E. change ((7 - 0) mod 7)%nat with 0%nat.
    now rewrite Nat.add_0_r.
  + rewrite (Nat.mod_small (7 - length base mod 7) 7) by lia.
    replace (length base + (7 - length base mod 7))%nat
      with (S (length base / 7) * 7)%nat by lia.
    apply Nat.Div0.mod_mul.
- intros cs d [= <-] D.
  rewrite nth_error_app1 by lia.
  unfold base, Dashboard.cellsOfMonth.
  rewrite nth_error_app2 by (rewrite repeat_length; lia).
  rewrite repeat_length, nth_error_map.
  replace (firstDay + d - 1 - firstDay)%nat with (d - 1)%nat by lia.
  rewrite nth_error_nth' with (d := 0%nat) by (rewrite length_seq; lia).
  rewrite seq_nth by lia. simpl. do 2 f_equal. lia.
Qed.

Lemma calendar_cells_witness :
  (7 <= 7)%nat /\
  Dashboard.cells 7 5 30
  = Some (repeat None 5 ++ map Some (seq 1 30) ++ repeat None 0) /\
  Dashboard.cells 6 0 29 = None.
Proof.
destruct (calendar_cells 5 30 7 (le_n 7)) as (k & Hk & E & M & _).
split; [apply le_n | split; [| reflexivity]].
rewrite E. do 3 f_equal.
assert (C : (k = 0 \/ k = 1 \/ k = 2 \/ k = 3 \/ k = 4 \/ k = 5 \/ k = 6)%nat)
  by lia.
destruct C as [-> | [-> | [-> | [-> | [-> | [-> | ->]]]]]];
  trivial; discriminate M.
Defined.

(** ** Sorting and filtering commute *)

Section FilterSort.

Context {A : Type} (le : A -> A -> bool) (p : A -> bool).

Hypothesis le_total : forall a b, le a b = true \/ le b a = true.
Hypothesis le_trans :
  forall a b c, le a b = true -> le b c = true -> le a c = true.

Lemma insertSorted_first (x : A) (l : list A) :
  Forall (fun e => le x e = true) l -> insertSorted le x l = x :: l.
Proof.
destruct l as [| h t]; simpl; trivial.
intro F. inversion F; subst. now rewrite H1.
Qed.

Lemma filter_insertSorted (x : A) (l : list A) :
  StronglySorted (fun a b => le a b = true) l ->
  filter p (insertSorted le x l)
  = if p x then insertSorted le x (filter p l) else filter p l.
Proof.
induction 1 as [| h t S IH F]; simpl.
- now destruct (p x).
- destruct (le x h) eqn:E.
  + cbn [filter].
    assert (G : Forall (fun e => le x e = true) (filter p (h :: t))).
    { apply Forall_forall. intros e He. apply filter_In in He.
      destruct He as [[<- | He] _]; trivial.
      rewrite Forall_forall in F. eauto. }
    cbn [filter] in G.
    destruct (p x); trivial. now rewrite (insertSorted_first x _ G).
  + cbn [filter]. rewrite IH.
    destruct (p h), (p x); trivial. simpl. now rewrite E.
Qed.

Lemma filter_stableSort (l : list A) :
  filter p (stableSort le l) = stableSort le (filter p l).
Proof.
induction l as [| x l IH]; trivial.
rewrite stableSort_cons, filter_insertSorted
  by now apply stableSort_sorted.
cbn [filter]. destruct (p x); trivial.
now rewrite stableSort_cons, IH.
Qed.

End FilterSort.

Lemma StronglySorted_impl {A : Type} (R R' : A -> A -> Prop) (l : list A) :
  (forall a b, R a b -> R' a b) ->
  StronglySorted R l -> StronglySorted R' l.
Proof.
intros H S. induction S as [| h t S IH F]; constructor; trivial.
rewrite Forall_forall in *. auto.
Qed.

Lemma Qcleb_true (x y : Qc) : Qcleb x y = true <-> x <= y.
Proof.
unfold Qcleb. rewrite negb_true_iff. apply Qcltb_false.
Qed.

Lemma orderLe_total (a b : DashboardSection.t) :
  Sections.orderLe a b = true \/ Sections.orderLe b a = true.
Proof.
unfold Sections.orderLe. rewrite !Qcleb_true.
destruct (Qclt_le_dec (DashboardSection.order b) (DashboardSection.order a));
  [right | left]; trivial. now apply Qclt_le_weak.
Qed.

Lemma orderLe_trans (a b c : DashboardSection.t) :
  Sections.orderLe a b = true -> Sections.orderLe b c = true ->
  Sections.orderLe a c = true.
Proof.
unfold Sections.orderLe. rewrite !Qcleb_true. apply Qcle_trans.
Qed.

(** X16. The dashboard shows exactly the visible sections, by ascending
    [order], sections of equal [order] in their stored order; hiding before
    sorting or after gives the same list, and a section without a title is
    shown under its id. *)
Theorem orderedSections_sorted_visible (ds : list DashboardSection.t) :
  Sections.orderedSections ds
  = stableSort Sections.orderLe (filter DashboardSection.visible ds) /\
  StronglySorted
    (fun a b => DashboardSection.order a <= DashboardSection.order b)
    (Sections.orderedSections ds) /\
  Permutation (Sections.orderedSections ds)
    (filter DashboardSection.visible ds) /\
  (forall s, In s (Sections.orderedSections ds)
             <-> In s ds /\ DashboardSection.visible s = true) /\
  (forall i, Sections.getSectionTitle ds i <> "" \/ i = "").
Proof.
assert (E : Sections.orderedSections ds
            = stableSort Sections.orderLe (filter DashboardSection.visible ds)).
{ apply filter_stableSort; [exact orderLe_total | exact orderLe_trans]. }
split; [exact E | split; [| split; [| split]]].
- rewrite E.
  apply StronglySorted_impl
    with (R := fun a b => Sections.orderLe a b = true).
  + intros a b. apply Qcleb_true.
  + apply stableSort_sorted; [exact orderLe_total | exact orderLe_trans].
- rewrite E. apply stableSort_perm.
- intro s. rewrite E, stableSort_In. apply filter_In.
- intro i. unfold Sections.getSectionTitle.
  destruct (find _ ds) as [s |].
  + destruct (String.eqb_spec (DashboardSection.title s) "") as [T | T].
    * destruct (string_dec i ""); [now right | now left].
    * now left.
  + destruct (string_dec i ""); [now right | now left].
Qed.

Example orderedSections_sample :
  map DashboardSection.id (Sections.orderedSections sampleSections)
  = ["monthlyChart"; "stats"; "news"] /\
  Sections.getSectionTitle sampleSections "monthlyChart" = "monthlyChart" /\
  Sections.getSectionTitle sampleSections "recentTrades" = "recentTrades".
Proof. repeat split. Qed.

(** ** The market ticker *)

Lemma itemMap_get (items : list MarketItem.t) (k : string) :
  JsMap.get k (MarketTickerBar.itemMap items) = lastWithKey k items.
Proof.
unfold MarketTickerBar.itemMap, lastWithKey.
rewrite (get_fold_set MarketItem.key (fun _ i => i) items JsMap.empty k).
cbn [JsMap.get JsMap.empty].
induction items as [| i items IH] using rev_ind; trivial.
rewrite fold_left_app, rev_app_distr. cbn [fold_left rev app find].
destruct (String.eqb (MarketItem.key i) k); trivial.
Qed.

Lemma filterBoolean_keys (items : list MarketItem.t) (ks : list string) :
  map MarketItem.key
    (filterBoolean (map (fun k => lastWithKey k items) ks))
  = filter (fun k => existsb (fun i => String.eqb (MarketItem.key i) k) items)
      ks.
Proof.
induction ks as [| k ks IH]; trivial. cbn [map filterBoolean filter].
unfold lastWithKey at 1.
destruct (find _ (rev items)) as [i |] eqn:F.
- apply find_some in F. destruct F as [I E].
  assert (X : existsb (fun i => String.eqb (MarketItem.key i) k) items = true).
  { apply existsb_exists. exists i. split; trivial. now apply in_rev. }
  rewrite X. cbn [map]. apply String.eqb_eq in E. now rewrite E, IH.
- assert (X : existsb (fun i => String.eqb (MarketItem.key i) k) items = false).
  { destruct (existsb _ items) eqn:X; trivial.
    apply existsb_exists in X. destruct X as (i & I & E).
    apply in_rev in I. pose proof (find_none _ _ F i I) as N.
    simpl in N. congruence. }
  now rewrite X.
Qed.

Lemma filterBoolean_In {A : Type} (l : list (option A)) (x : A) :
  In x (filterBoolean l) <-> In (Some x) l.
Proof.
induction l as [| [y |] l IH]; simpl; [tauto | |].
- rewrite IH. split; intros [H | H]; auto; left; congruence.
- rewrite IH. split; [auto | intros [H | H]; [discriminate | trivial]].
Qed.

(** X17. The ticker shows the quotes in its fixed order of 8 keys whatever
    order the server sent them in: one quote per known key that was
    received, the last one received when a key comes twice, and no quote
    with an unknown key. *)
Theorem ticker_ordered (items : list MarketItem.t) :
  map MarketItem.key (MarketTickerBar.ordered items)
  = filter (fun k => existsb (fun i => String.eqb (MarketItem.key i) k) items)
      MarketTickerBar.order /\
  (length (MarketTickerBar.ordered items) <= 8)%nat /\
  NoDup (map MarketItem.key (MarketTickerBar.ordered items)) /\
  (forall i, In i (MarketTickerBar.ordered items) ->
     In (MarketItem.key i) MarketTickerBar.order /\
     lastWithKey (MarketItem.key i) items = Some i).
Proof.
assert (E : MarketTickerBar.ordered items
            = filterBoolean (map (fun k => lastWithKey k items)
                               MarketTickerBar.order)).
{ unfold MarketTickerBar.ordered. f_equal. apply map_ext.
  intro k. apply itemMap_get. }
assert (K := filterBoolean_keys items MarketTickerBar.order).
rewrite <- E in K.
split; [exact K | split; [| split]].
- rewrite <- (length_map MarketItem.key), K.
  etransitivity; [apply filter_length_le | reflexivity].
- rewrite K. apply NoDup_filter.
  unfold MarketTickerBar.order.
  repeat (constructor; [simpl; intuition discriminate |]). constructor.
- intros i Hi. rewrite E in Hi. apply filterBoolean_In in Hi.
  apply in_map_iff in Hi. destruct Hi as (k & L & Ik).
  pose proof L as L'. unfold lastWithKey in L'. apply find_some in L'.
  destruct L' as [_ Ek]. apply String.eqb_eq in Ek. now rewrite Ek.
Qed.

Example ticker_sample :
  map MarketItem.key (MarketTickerBar.ordered sampleQuotes) = ["KOSPI"; "WTI"] /\
  option_map MarketItem.price (hd_error (MarketTickerBar.ordered sampleQuotes))
  = Some (Some (Q2Qc 2600)).
Proof. split; reflexivity. Qed.

Lemma ticker_ordered_witness :
  In (quote "KOSPI" 2600) (MarketTickerBar.ordered sampleQuotes) /\
  lastWithKey "KOSPI" sampleQuotes = Some (quote "KOSPI" 2600).
Proof.
assert (I : In (quote "KOSPI" 2600) (MarketTickerBar.ordered sampleQuotes))
  by (left; reflexivity).
destruct (ticker_ordered sampleQuotes) as (_ & _ & _ & H).
destruct (H _ I) as [_ L].
split; [exact I | exact L].
Defined.

(** ** The handlers of the collections *)

Section CollectionFacts.

Context {A : Type} (idOf : A -> string).

Lemma replace_ids (x : A) (l : list A) :
  map idOf (map (fun n => if String.eqb (idOf n) (idOf x) then x else n) l)
  = map idOf l.
Proof.
rewrite map_map. apply map_ext. intro n.
destruct (String.eqb_spec (idOf n) (idOf x)); congruence.
Qed.

Lemma replace_absent (x : A) (l : list A) :
  ~ In (idOf x) (map idOf l) ->
  map (fun n => if String.eqb (idOf n) (idOf x) then x else n) l = l.
Proof.
intro N. etransitivity; [| apply map_id]. apply map_ext_in. intros n Hn.
destruct (String.eqb_spec (idOf n) (idOf x)) as [E | _]; trivial.
exfalso. apply N. rewrite <- E. now apply in_map.
Qed.

Lemma replace_absent_tail (x : A) (l : list A) :
  map (fun n => if String.eqb (idOf n) (idOf x) then x else n) (l ++ [x])
  = map (fun n => if String.eqb (idOf n) (idOf x) then x else n) l ++ [x].
Proof. rewrite map_app. cbn [map]. now rewrite String.eqb_refl. Qed.

Lemma find_replace (x : A) (l : list A) :
  In (idOf x) (map idOf l) ->
  find (fun n => String.eqb (idOf n) (idOf x))
    (map (fun n => if String.eqb (idOf n) (idOf x) then x else n) l)
  = Some x.
Proof.
induction l as [| n l IH]; simpl; [tauto |].
intro H. destruct (String.eqb (idOf n) (idOf x)) eqn:E.
- now rewrite String.eqb_refl.
- rewrite E. apply IH. destruct H as [H | H]; trivial.
  apply String.eqb_neq in E. congruence.
Qed.

Lemma find_id_None (i : string) (l : list A) :
  find (fun n => String.eqb (idOf n) i) l = None <-> ~ In i (map idOf l).
Proof.
induction l as [| n l IH]; simpl; [tauto |].
destruct (String.eqb_spec (idOf n) i) as [E | N].
- split; [discriminate | tauto].
- rewrite IH. tauto.
Qed.

Lemma delete_absent (i : string) (l : list A) :
  ~ In i (map idOf l) -> App.handleDelete idOf i l = l.
Proof.
intro N. apply filter_all. intros n Hn. apply negb_true_iff.
apply String.eqb_neq. intro E. apply N. rewrite <- E. now apply in_map.
Qed.

(** X18. Saving a note, a diary entry or a coin trade is an upsert by id:
    afterwards the record found under its id is the saved one; a known id
    keeps the list of ids as it was, a new id is added at the end; ids that
    were pairwise distinct stay so; saving twice changes nothing more; and
    deleting a record saved under a new id gives the collection back. *)
Theorem handleSave_upsert (x : A) (prev : list A) :
  find (fun n => String.eqb (idOf n) (idOf x)) (App.handleSave idOf x prev)
  = Some x /\
  (In (idOf x) (map idOf prev) ->
   map idOf (App.handleSave idOf x prev) = map idOf prev) /\
  (~ In (idOf x) (map idOf prev) ->
   App.handleSave idOf x prev = prev ++ [x] /\
   App.handleDelete idOf (idOf x) (App.handleSave idOf x prev) = prev) /\
  (NoDup (map idOf prev) -> NoDup (map idOf (App.handleSave idOf x prev))) /\
  App.handleSave idOf x (App.handleSave idOf x prev)
  = App.handleSave idOf x prev.
Proof.
destruct (find (fun n => String.eqb (idOf n) (idOf x)) prev) as [e |] eqn:F.
- assert (S : App.handleSave idOf x prev
              = map (fun n => if String.eqb (idOf n) (idOf x) then x else n)
                  prev).
  { unfold App.handleSave. now rewrite F. }
  assert (I : In (idOf x) (map idOf prev)).
  { apply find_some in F. destruct F as [I E]. apply String.eqb_eq in E.
    rewrite <- E. now apply in_map. }
  rewrite S.
  split; [now apply find_replace | split; [intros _; apply replace_ids |]].
  split; [tauto | split; [now rewrite replace_ids |]].
  unfold App.handleSave. rewrite find_replace by assumption.
  rewrite map_map. apply map_ext. intro n.
  destruct (String.eqb (idOf n) (idOf x)) eqn:E; rewrite ?String.eqb_refl;
    now rewrite ?E.
- assert (S : App.handleSave idOf x prev = prev ++ [x]).
  { unfold App.handleSave. now rewrite F. }
  pose proof (proj1 (find_id_None _ _) F) as N.
  assert (Fx : find (fun n => String.eqb (idOf n) (idOf x)) (prev ++ [x])
               = Some x).
  { clear N S. induction prev as [| n l IH]; simpl.
    - now rewrite String.eqb_refl.
    - simpl in F. destruct (String.eqb (idOf n) (idOf x)); [discriminate |].
      now apply IH. }
  rewrite S.
  split; [exact Fx | split; [tauto | split; [| split]]].
  + intros _. split; trivial.
    unfold App.handleDelete. rewrite filter_app. cbn [filter].
    rewrite String.eqb_refl. cbn [negb]. rewrite app_nil_r.
    now apply delete_absent.
  + intro ND. rewrite map_app. cbn [map].
    apply NoDup_rev in ND. rewrite <- (rev_involutive (_ ++ _)).
    apply NoDup_rev. rewrite rev_app_distr. cbn [rev app].
    constructor; trivial. now rewrite <- in_rev.
  + unfold App.handleSave. rewrite Fx, replace_absent_tail.
    now rewrite replace_absent.
Qed.

End CollectionFacts.

Lemma handleSave_upsert_witness :
  In "b" (map id threeOfOneDay) /\
  map id (App.handleSave id (withId "b" sellBetweenBuys) threeOfOneDay)
  = ["a"; "b"; "c"] /\
  find (fun n => String.eqb (id n) "b")
    (App.handleSave id (withId "b" sellBetweenBuys) threeOfOneDay)
  = Some (withId "b" sellBetweenBuys).
Proof.
assert (I : In "b" (map id threeOfOneDay)) by (right; left; reflexivity).
destruct (handleSave_upsert id (withId "b" sellBetweenBuys) threeOfOneDay)
  as (F & K & _).
split; [exact I | split; [| exact F]].
now rewrite (K I).
Defined.

(** X19. [handleAddTrade] edits or adds according to [editingTrade], not to
    the ids present.  While editing it replaces, in place, the records with
    the id of the submitted one: ids and length never change, and when no
    record has that id the submitted record is silently dropped.  Otherwise
    it appends, even under an id that exists already. *)
Theorem handleAddTrade_modes (e trade : Trade) (prev : list Trade) :
  map id (App.handleAddTrade (Some e) trade prev) = map id prev /\
  (~ In (id trade) (map id prev) ->
   App.handleAddTrade (Some e) trade prev = prev) /\
  (In (id trade) (map id prev) ->
   find (fun t => String.eqb (id t) (id trade))
     (App.handleAddTrade (Some e) trade prev) = Some trade) /\
  (forall t, In t (App.handleAddTrade (Some e) trade prev) ->
     id t = id trade -> t = trade) /\
  App.handleAddTrade None trade prev = prev ++ [trade] /\
  (NoDup (map id prev) /\ ~ In (id trade) (map id prev)
   <-> NoDup (map id (App.handleAddTrade None trade prev))).
Proof.
unfold App.handleAddTrade.
split; [apply (replace_ids id) | split; [apply (replace_absent id) |]].
split; [apply (find_replace id) | split; [| split; [reflexivity |]]].
- intros t Ht Et. apply in_map_iff in Ht. destruct Ht as (u & Hu & _).
  destruct (String.eqb_spec (id u) (id trade)) as [E | N]; [congruence |].
  subst u. contradiction.
- rewrite map_app. cbn [map]. split.
  + intros [ND N]. apply NoDup_rev in ND.
    rewrite <- (rev_involutive (_ ++ _)). apply NoDup_rev.
    rewrite rev_app_distr. cbn [rev app]. constructor; trivial.
    now rewrite <- in_rev.
  + intro ND. apply NoDup_remove in ND. rewrite app_nil_r in ND. exact ND.
Qed.

Lemma handleAddTrade_modes_witness :
  ~ In "zz" (map id threeOfOneDay) /\
  App.handleAddTrade (Some sellBetweenBuys) (withId "zz" sellBetweenBuys)
    threeOfOneDay = threeOfOneDay /\
  map id (App.handleAddTrade None (withId "a" sellBetweenBuys) threeOfOneDay)
  = ["a"; "b"; "c"; "a"].
Proof.
assert (N : ~ In "zz" (map id threeOfOneDay)).
{ simpl. intuition discriminate. }
destruct (handleAddTrade_modes sellBetweenBuys (withId "zz" sellBetweenBuys)
            threeOfOneDay) as (_ & H & _).
split; [exact N | split; [exact (H N) | reflexivity]].
Defined.

(** X20. [handleDeleteTrade] removes every record with the given id and
    nothing else, keeps the order of the others, changes nothing when no
    record has the id, and undoes the adding of a record with a new id. *)
Theorem handleDeleteTrade_removes (i : string) (trade : Trade)
  (prev : list Trade) :
  ~ In i (map id (App.handleDeleteTrade i prev)) /\
  (forall t, In t (App.handleDeleteTrade i prev) <-> In t prev /\ id t <> i) /\
  (~ In i (map id prev) -> App.handleDeleteTrade i prev = prev) /\
  App.handleDeleteTrade (id trade) (App.handleAddTrade None trade prev)
  = App.handleDeleteTrade (id trade) prev /\
  (NoDup (map id prev) -> NoDup (map id (App.handleDeleteTrade i prev))).
Proof.
unfold App.handleDeleteTrade, App.handleAddTrade.
split; [| split; [| split; [| split]]].
- intro H. apply in_map_iff in H. destruct H as (t & E & H).
  apply filter_In in H. destruct H as [_ H].
  apply negb_true_iff, String.eqb_neq in H. contradiction.
- intro t. rewrite filter_In, negb_true_iff, String.eqb_neq. tauto.
- apply (delete_absent id).
- rewrite filter_app. cbn [filter]. rewrite String.eqb_refl. cbn [negb].
  apply app_nil_r.
- induction prev as [| t l IH]; simpl; trivial.
  intro ND. inversion ND as [| ? ? N ND']; subst.
  destruct (negb (String.eqb (id t) i)); auto.
  cbn [map]. constructor; auto.
  intro H. apply N. apply in_map_iff in H. destruct H as (u & E & H).
  apply filter_In in H. rewrite <- E. apply in_map. tauto.
Qed.

Lemma handleDeleteTrade_removes_witness :
  ~ In "zz" (map id threeOfOneDay) /\
  App.handleDeleteTrade "zz" threeOfOneDay = threeOfOneDay /\
  map id (App.handleDeleteTrade "b" threeOfOneDay) = ["a"; "c"].
Proof.
assert (N : ~ In "zz" (map id threeOfOneDay)).
{ simpl. intuition discriminate. }
destruct (handleDeleteTrade_removes "zz" sellBetweenBuys threeOfOneDay)
  as (_ & _ & H & _).
split; [exact N | split; [exact (H N) | reflexivity]].
Defined.

(** ** A position depends on the trades of its stock only *)

Lemma stableSort_ties {A : Type} (le : A -> A -> bool) (l : list A) :
  (forall a b, In a l -> In b l -> le a b = true) ->
  stableSort le l = l.
Proof.
induction l as [| x l IH]; intro H; trivial.
rewrite stableSort_cons, IH by (intros; apply H; now right).
apply insertSorted_first. apply Forall_forall. intros e He.
apply H; [now left | now right].
Qed.

Lemma filter_key_sortByDate (trades : list Trade) (k : string) :
  filter (isOfKey k) (sortByDate trades)
  = sortByDate (filter (isOfKey k) trades).
Proof.
apply filter_stableSort; [exact dateLe_total | exact dateLe_trans].
Qed.

(** X21. The position of a stock depends only on the trades of that stock,
    in their input order: two collections with the same records of a key
    give the same position for it.  So recording, editing or deleting a
    trade of one stock never changes the position of another. *)
Theorem position_of_own_trades (l l' : list Trade) (k : string) :
  filter (isOfKey k) l = filter (isOfKey k) l' ->
  positionFor k (calculatePositions l) = positionFor k (calculatePositions l').
Proof.
intro E. rewrite !positionFor_calculatePositions, !get_positionMap.
now rewrite !filter_key_sortByDate, E.
Qed.

Lemma position_of_own_trades_witness :
  filter (isOfKey "000660") (App.handleAddTrade None sellBetweenBuys twoStocks)
  = filter (isOfKey "000660") twoStocks /\
  filter (isOfKey "000660") twoStocks
  = [plainTrade "2024-05-02" "Y" "000660" sell 5 15] /\
  positionFor "000660"
    (calculatePositions (App.handleAddTrade None sellBetweenBuys twoStocks))
  = positionFor "000660" (calculatePositions twoStocks) /\
  option_map realizedPnL (positionFor "000660" (calculatePositions twoStocks))
  = Some (Q2Qc 75).
Proof.
assert (E : filter (isOfKey "000660")
              (App.handleAddTrade None sellBetweenBuys twoStocks)
            = filter (isOfKey "000660") twoStocks) by reflexivity.
split; [exact E | split; [reflexivity | split]].
- exact (position_of_own_trades _ _ "000660" E).
- vm_compute. apply f_equal. qc_eq.
Defined.

(** ** Sorting by date is grouping by day *)

Lemma StronglySorted_app {A : Type} (R : A -> A -> Prop) (a b : list A) :
  StronglySorted R a -> StronglySorted R b ->
  (forall x y, In x a -> In y b -> R x y) ->
  StronglySorted R (a ++ b).
Proof.
intros Sa Sb C. induction a as [| x a IH]; trivial.
inversion Sa as [| ? ? Sa' Fa]; subst. cbn [app]. constructor.
- apply IH; trivial. intros; apply C; trivial. now right.
- apply Forall_app. split; trivial.
  apply Forall_forall. intros y Hy. apply C; trivial. now left.
Qed.

Lemma same_day_sorted (d : string) (l : list Trade) :
  Forall (fun t => date t = d) l ->
  StronglySorted (fun a b => dateLe a b = true) l.
Proof.
induction 1 as [| x l E F IH]; constructor; trivial.
eapply Forall_impl; [| exact F]. intros y Ey. apply dateLe_same. congruence.
Qed.

Lemma getTradesForDate_In (trades : list Trade) (d : string) (t : Trade) :
  In t (getTradesForDate trades d) <-> In t trades /\ date t = d.
Proof.
unfold getTradesForDate. now rewrite filter_In, String.eqb_eq.
Qed.

Lemma getTradesForDate_flat_map (G : string -> list Trade) (d : string)
  (ds : list string) :
  (forall d' t, In t (G d') -> date t = d') ->
  NoDup ds ->
  getTradesForDate (flat_map G ds) d = if in_dec string_dec d ds then G d else [].
Proof.
intros HG ND. induction ND as [| d' ds N ND IH]; trivial.
cbn [flat_map]. unfold getTradesForDate in *. rewrite filter_app, IH.
destruct (string_dec d' d) as [E | E].
- subst d'. rewrite filter_all.
  + destruct (in_dec string_dec d ds); [contradiction |].
    destruct (in_dec string_dec d (d :: ds)) as [_ | M];
      [apply app_nil_r | exfalso; apply M; now left].
  + intros t Ht. apply String.eqb_eq. eauto.
- rewrite filter_none.
  + cbn [app]. destruct (in_dec string_dec d ds) as [I | I];
      destruct (in_dec string_dec d (d' :: ds)) as [J | J]; trivial.
    * exfalso. apply J. now right.
    * exfalso. destruct J; [congruence | contradiction].
  + intros t Ht. apply String.eqb_neq. rewrite (HG _ _ Ht). exact E.
Qed.

Lemma grouped_sorted (trades : list Trade) (ds : list string) :
  StronglySorted (fun a b => String.ltb a b = true) ds ->
  StronglySorted (fun a b => dateLe a b = true)
    (flat_map (getTradesForDate trades) ds).
Proof.
induction 1 as [| d ds S IH F]; [constructor |].
cbn [flat_map]. apply StronglySorted_app; trivial.
- apply (same_day_sorted d). apply Forall_forall. intros t Ht.
  now apply getTradesForDate_In in Ht.
- intros x y Hx Hy. apply getTradesForDate_In in Hx. destruct Hx as [_ Ex].
  apply in_flat_map in Hy. destruct Hy as (d' & Hd' & Hy).
  apply getTradesForDate_In in Hy. destruct Hy as [_ Ey].
  rewrite Forall_forall in F. specialize (F _ Hd').
  unfold dateLe. rewrite Ex, Ey.
  destruct (String.leb_total d d') as [L | L]; trivial.
  apply string_ltb_not_leb in F. congruence.
Qed.

Lemma sorted_by_days_unique (s1 s2 : list Trade) :
  StronglySorted (fun a b => dateLe a b = true) s1 ->
  StronglySorted (fun a b => dateLe a b = true) s2 ->
  (forall d, getTradesForDate s1 d = getTradesForDate s2 d) ->
  s1 = s2.
Proof.
intros S1. revert s2.
induction S1 as [| x r1 S1 IH F1]; intros s2 S2 H.
- destruct s2 as [| y r2]; trivial.
  specialize (H (date y)). unfold getTradesForDate in H. cbn [filter] in H.
  rewrite String.eqb_refl in H. discriminate.
- destruct s2 as [| y r2].
  + specialize (H (date x)). unfold getTradesForDate in H. cbn [filter] in H.
    rewrite String.eqb_refl in H. discriminate.
  + inversion S2 as [| ? ? S2' F2]; subst.
    assert (Ixy : In y (x :: r1)).
    { apply (getTradesForDate_In (x :: r1) (date y)). rewrite H.
      apply getTradesForDate_In. split; [now left | trivial]. }
    assert (Iyx : In x (y :: r2)).
    { apply (getTradesForDate_In (y :: r2) (date x)). rewrite <- H.
      apply getTradesForDate_In. split; [now left | trivial]. }
    assert (E : date x = date y).
    { apply String.leb_antisym.
      - destruct Ixy as [-> | I]; [apply string_leb_refl |].
        rewrite Forall_forall in F1. exact (F1 _ I).
      - destruct Iyx as [-> | I]; [apply string_leb_refl |].
        rewrite Forall_forall in F2. exact (F2 _ I). }
    assert (Exy : x = y).
    { specialize (H (date x)). unfold getTradesForDate in H.
      cbn [filter] in H. rewrite <- E, String.eqb_refl in H. congruence. }
    subst y. f_equal. apply IH; trivial.
    intro d. specialize (H d). unfold getTradesForDate in *.
    cbn [filter] in H. destruct (String.eqb (date x) d); congruence.
Qed.

Lemma getTradesForDate_sortByDate (trades : list Trade) (d : string) :
  getTradesForDate (sortByDate trades) d = getTradesForDate trades d.
Proof.
unfold getTradesForDate, sortByDate.
rewrite filter_stableSort by (exact dateLe_total || exact dateLe_trans).
apply stableSort_ties. intros a b Ha Hb.
apply filter_In in Ha, Hb. destruct Ha as [_ Ha], Hb as [_ Hb].
apply String.eqb_eq in Ha, Hb. apply dateLe_same. congruence.
Qed.

Lemma distinctDatesAsc_strict (trades : list Trade) :
  StronglySorted (fun a b => String.ltb a b = true) (distinctDatesAsc trades).
Proof.
unfold distinctDatesAsc.
apply StronglySorted_strict with (le := fun a b => String.leb a b = true).
- apply string_leb_neq_ltb.
- apply stableSort_sorted; [apply String.leb_total | apply string_leb_trans].
- eapply Permutation_NoDup.
  + symmetry. apply stableSort_perm.
  + apply NoDup_nodup.
Qed.

(** X22. The date order used by [calculatePositions] and [getMonthlyStats]
    is the day grouping of [getTradesForDate]: the sorted copy is the
    concatenation, over the days of the data in ascending order, of the
    trades of each day in their input order; and it shows the same trades
    for a day as the input does. *)
Theorem sortByDate_groups_by_day (trades : list Trade) :
  sortByDate trades
  = flat_map (getTradesForDate trades) (distinctDatesAsc trades) /\
  forall d, getTradesForDate (sortByDate trades) d = getTradesForDate trades d.
Proof.
split; [| apply getTradesForDate_sortByDate].
apply sorted_by_days_unique.
- apply stableSort_sorted; [exact dateLe_total | exact dateLe_trans].
- apply grouped_sorted, distinctDatesAsc_strict.
- intro d. rewrite getTradesForDate_sortByDate, getTradesForDate_flat_map.
  + destruct (in_dec string_dec d (distinctDatesAsc trades)) as [I | I];
      trivial.
    unfold getTradesForDate. apply filter_none. intros t Ht.
    apply String.eqb_neq. intro E. apply I.
    unfold distinctDatesAsc. apply stableSort_In, nodup_In.
    rewrite <- E. now apply in_map.
  + intros d' t Ht. now apply getTradesForDate_In in Ht.
  + unfold distinctDatesAsc. eapply Permutation_NoDup.
    * symmetry. apply stableSort_perm.
    * apply NoDup_nodup.
Qed.

(** ** The lists of the portfolio page, by the sign of the holding *)

Lemma sumQc_nonneg (f : Trade -> Qc) (l : list Trade) :
  Forall (fun t => 0 < f t) l -> 0 <= sumQc (map f l).
Proof.
destruct l as [| b bs]; intro F.
- apply Qcle_refl.
- apply Qclt_le_weak. now apply sumQc_pos.
Qed.

(** A position of validated trades has sold something or bought something,
    and nothing negative. *)
Lemma position_traded (trades : list Trade) (p : StockPosition) :
  Forall wellFormed trades ->
  In p (calculatePositions trades) ->
  0 <= buyQuantity p /\ 0 <= sellQuantity p /\
  (0 < buyQuantity p \/ 0 < sellQuantity p) /\
  holdingQuantity p = buyQuantity p - sellQuantity p.
Proof.
intros WF Ip.
assert (Ik : In (positionKey p) (map positionKey (calculatePositions trades)))
  by now apply in_map.
apply positionKeys in Ik. destruct Ik as (t0 & I0 & K0).
apply In_values_get in Ip.
destruct (positionMap_totals _ _ _ Ip) as (Hq & _ & Hs & _ & Hh).
assert (Q : forall sel, Forall (fun t => 0 < quantity t) (filter sel trades)).
{ intro sel. apply Forall_forall. intros t Ht. apply filter_In in Ht.
  rewrite Forall_forall in WF. now apply (WF t). }
rewrite Hq, Hs. split; [apply sumQc_nonneg, Q | split; [apply sumQc_nonneg, Q |]].
split; [| now rewrite Hh, Hq, Hs].
destruct (isBuy (type t0)) eqn:B; [left | right].
- destruct (filter (isBuyOfKey (positionKey p)) trades) as [| b bs] eqn:F.
  + exfalso.
    assert (J : In t0 (filter (isBuyOfKey (positionKey p)) trades)).
    { apply filter_In. split; trivial. unfold isBuyOfKey. rewrite B.
      now apply isOfKey_true. }
    now rewrite F in J.
  + apply sumQc_pos. rewrite <- F. apply Q.
- destruct (filter (isSellOfKey (positionKey p)) trades) as [| b bs] eqn:F.
  + exfalso.
    assert (J : In t0 (filter (isSellOfKey (positionKey p)) trades)).
    { apply filter_In. split; trivial. unfold isSellOfKey, isSell. rewrite B.
      now apply isOfKey_true. }
    now rewrite F in J.
  + apply sumQc_pos. rewrite <- F. apply Q.
Qed.

Lemma zero_holding_sold (p : StockPosition) :
  0 <= buyQuantity p -> 0 <= sellQuantity p ->
  0 < buyQuantity p \/ 0 < sellQuantity p ->
  holdingQuantity p = buyQuantity p - sellQuantity p ->
  holdingQuantity p = 0 -> 0 < sellQuantity p.
Proof.
intros _ _ [B | S] Hh Z; trivial.
rewrite Z in Hh.
replace (sellQuantity p) with (buyQuantity p); trivial.
transitivity (buyQuantity p - sellQuantity p + sellQuantity p); [ring |].
rewrite <- Hh. ring.
Qed.

Lemma three_lists (l : list StockPosition) :
  Forall (fun p => holdingQuantity p = 0 -> 0 < sellQuantity p) l ->
  (length (filter (fun p => Qcltb 0 (holdingQuantity p)) l)
   + length (filter (fun p => Qc_eq_bool (holdingQuantity p) 0
                              && Qcltb 0 (sellQuantity p)) l)
   + length (filter (fun p => Qcltb (holdingQuantity p) 0) l)
   = length l)%nat.
Proof.
induction 1 as [| p l Hp F IH]; trivial.
cbn [filter].
destruct (Qcltb 0 (holdingQuantity p)) eqn:A.
- apply Qcltb_true in A.
  rewrite Qc_eq_bool_neq by (intro E; rewrite E in A;
                             exact (Qclt_not_eq _ _ A eq_refl)).
  assert (N : Qcltb (holdingQuantity p) 0 = false)
    by now apply Qcltb_false, Qclt_le_weak.
  rewrite N. cbn [andb length]. lia.
- apply Qcltb_false in A.
  destruct (Qc_eq_dec (holdingQuantity p) 0) as [E | E].
  + rewrite E, Qc_eq_bool_refl, Qcltb_irrefl.
    rewrite (proj2 (Qcltb_true _ _) (Hp E)). cbn [andb length]. lia.
  + rewrite Qc_eq_bool_neq by exact E.
    assert (N : Qcltb (holdingQuantity p) 0 = true).
    { apply Qcltb_true. apply Qcnot_le_lt. intro G. apply E.
      now apply Qcle_antisym. }
    rewrite N. cbn [andb length]. lia.
Qed.

(** X23. For validated trades the portfolio page sorts the positions by the
    sign of the holding alone: held when it is positive, closed when it is
    zero (such a position has always sold something), and in neither list
    when it is negative.  The count of holdings on the dashboard is the
    number of held positions, and the three groups make up all positions. *)
Theorem portfolio_lists_by_holding (trades : list Trade) :
  Forall wellFormed trades ->
  (forall p, In p (calculatePositions trades) ->
     (In p (Portfolio.activePositions trades) <-> 0 < holdingQuantity p) /\
     (In p (Portfolio.closedPositions trades) <-> holdingQuantity p = 0) /\
     (~ In p (Portfolio.activePositions trades) /\
      ~ In p (Portfolio.closedPositions trades) <-> holdingQuantity p < 0)) /\
  Dashboard.holdingCount trades = length (Portfolio.activePositions trades) /\
  (Dashboard.holdingCount trades
   + length (Portfolio.closedPositions trades)
   + length (filter (fun p => Qcltb (holdingQuantity p) 0)
               (calculatePositions trades))
   = length (calculatePositions trades))%nat.
Proof.
intro WF.
assert (Z : forall p, In p (calculatePositions trades) ->
              holdingQuantity p = 0 -> 0 < sellQuantity p).
{ intros p Ip. destruct (position_traded trades p WF Ip) as (B & S & T & Hh).
  now apply zero_holding_sold. }
split; [| split; [reflexivity |]].
- intros p Ip. unfold Portfolio.activePositions, Portfolio.closedPositions.
  rewrite !filter_In, andb_true_iff, !Qcltb_true.
  assert (C : Qc_eq_bool (holdingQuantity p) 0 = true <-> holdingQuantity p = 0).
  { split; [apply Qc_eq_bool_correct | intros ->; apply Qc_eq_bool_refl]. }
  rewrite C. split; [tauto | split; [specialize (Z p Ip); tauto |]].
  split.
  + intros [NA NC]. apply Qcnot_le_lt. intro G.
    destruct (Qc_eq_dec (holdingQuantity p) 0) as [E | E].
    * apply NC. specialize (Z p Ip). tauto.
    * apply NA. split; trivial.
      apply Qcnot_le_lt. intro G'. apply E. now apply Qcle_antisym.
  + intro L. split.
    * intros [_ P]. exact (Qclt_not_le _ _ L (Qclt_le_weak _ _ P)).
    * intros [_ [E _]]. rewrite E in L. exact (Qclt_not_eq _ _ L eq_refl).
- apply three_lists. apply Forall_forall. exact Z.
Qed.

Lemma portfolio_lists_by_holding_witness :
  Forall wellFormed boughtThenSold /\
  (Dashboard.holdingCount boughtThenSold
   + length (Portfolio.closedPositions boughtThenSold)
   + length (filter (fun p => Qcltb (holdingQuantity p) 0)
               (calculatePositions boughtThenSold))
   = length (calculatePositions boughtThenSold))%nat.
Proof.
assert (WF : Forall wellFormed boughtThenSold).
{ repeat constructor; vm_compute; reflexivity. }
split; [exact WF |].
exact (proj2 (proj2 (portfolio_lists_by_holding boughtThenSold WF))).
Defined.

(** ** The cards of the dashboard *)

Lemma rtTrades_roundtrip (trades : list Trade) :
  Forall (fun t => type t = roundtrip) (Dashboard.rtTrades trades).
Proof.
apply Forall_forall. intros t Ht. apply filter_In in Ht.
destruct Ht as [_ R]. unfold Dashboard.isRoundtrip in R.
now destruct (type t).
Qed.

Lemma roundtrip_averages_agree (l : list Trade) :
  Forall (fun t => type t = roundtrip) l ->
  avgReturnPct l = avgReturn (getDaySummary l).
Proof.
intro R. unfold avgReturnPct, getDaySummary. cbv zeta. cbn [avgReturn].
rewrite !average_mean, fold_dayStep_returns. cbn [returns app].
now rewrite roundtrip_returns, investedReturn_spec.
Qed.

Lemma sumPnl_sum (l : list Trade) :
  Dashboard.sumPnl l = sumQc (map (fun t => fieldOr (realizedPnl t) 0) l).
Proof.
unfold Dashboard.sumPnl. rewrite fold_left_sum. ring.
Qed.

(** X24. The cards of the dashboard read the round-trip records only.  The
    P&L of the days of the data add up to the total realized P&L, a day
    without round trips counts 0, and the average returns of the cards are
    the ones the day summary computes on the same round trips. *)
Theorem dashboard_cards (trades : list Trade) :
  Dashboard.totalRealizedPnL trades
  = sumQc (map (fun d => Dashboard.todayPnL d trades)
             (distinctDatesAsc trades)) /\
  (forall d, Dashboard.todayTrades d trades = [] ->
     Dashboard.todayPnL d trades = 0 /\ Dashboard.todayReturn d trades = 0) /\
  Dashboard.totalAvgReturn trades
  = avgReturn (getDaySummary (Dashboard.rtTrades trades)) /\
  (forall d, Dashboard.todayReturn d trades
             = avgReturn (getDaySummary (Dashboard.todayTrades d trades))) /\
  (forall t, type t <> roundtrip ->
     Dashboard.totalRealizedPnL (App.handleAddTrade None t trades)
     = Dashboard.totalRealizedPnL trades /\
     Dashboard.totalAvgReturn (App.handleAddTrade None t trades)
     = Dashboard.totalAvgReturn trades).
Proof.
split; [| split; [| split; [| split]]].
- unfold Dashboard.totalRealizedPnL. rewrite sumPnl_sum.
  rewrite <- (partition_sum date _ (distinctDatesAsc trades)).
  + f_equal. apply map_ext. intro d.
    unfold Dashboard.todayPnL, Dashboard.todayTrades. now rewrite sumPnl_sum.
  + unfold distinctDatesAsc. eapply Permutation_NoDup.
    * symmetry. apply stableSort_perm.
    * apply NoDup_nodup.
  + intros t Ht. apply filter_In in Ht. destruct Ht as [Ht _].
    unfold distinctDatesAsc. apply stableSort_In, nodup_In. now apply in_map.
- intros d E. unfold Dashboard.todayPnL, Dashboard.todayReturn.
  rewrite E. split; reflexivity.
- apply roundtrip_averages_agree, rtTrades_roundtrip.
- intro d. apply roundtrip_averages_agree.
  apply Forall_forall. intros t Ht. apply filter_In in Ht.
  destruct Ht as [Ht _]. revert t Ht. apply Forall_forall, rtTrades_roundtrip.
- intros t N.
  assert (E : Dashboard.rtTrades (App.handleAddTrade None t trades)
              = Dashboard.rtTrades trades).
  { unfold Dashboard.rtTrades, App.handleAddTrade. rewrite filter_app.
    cbn [filter]. unfold Dashboard.isRoundtrip at 2.
    destruct (type t); try contradiction; apply app_nil_r. }
  unfold Dashboard.totalRealizedPnL, Dashboard.totalAvgReturn.
  now rewrite E.
Qed.

Lemma dashboard_cards_witness :
  Dashboard.todayTrades "2024-06-02" mixedModels = [] /\
  Dashboard.todayPnL "2024-06-02" mixedModels = 0 /\
  Dashboard.todayReturn "2024-06-02" mixedModels = 0.
Proof.
assert (E : Dashboard.todayTrades "2024-06-02" mixedModels = [])
  by reflexivity.
split; [exact E |].
exact (proj1 (proj2 (dashboard_cards mixedModels)) "2024-06-02" E).
Defined.

(** ** The switches of the tabs *)

Lemma handleTabToggle_find_dashboard (i : string) (tabs : list TabConfig.t) :
  find (fun t => String.eqb (TabConfig.id t) "dashboard")
    (Settings.handleTabToggle i tabs)
  = find (fun t => String.eqb (TabConfig.id t) "dashboard") tabs.
Proof.
unfold Settings.handleTabToggle.
destruct (String.eqb_spec i "dashboard") as [D | D]; trivial.
destruct (String.eqb i "settings"); trivial. cbn [orb].
induction tabs as [| t tabs IH]; trivial.
cbn [map find]. rewrite IH.
destruct (String.eqb_spec (TabConfig.id t) i) as [E | E]; trivial.
cbn [TabConfig.id]. rewrite E.
destruct (String.eqb_spec i "dashboard"); [contradiction | reflexivity].
Qed.

Lemma afterToggles_find_dashboard (clicks : list string)
  (tabs : list TabConfig.t) :
  find (fun t => String.eqb (TabConfig.id t) "dashboard")
    (afterToggles clicks tabs)
  = find (fun t => String.eqb (TabConfig.id t) "dashboard") tabs.
Proof.
unfold afterToggles. revert tabs.
induction clicks as [| i clicks IH]; intro tabs; trivial.
cbn [fold_left]. rewrite IH. apply handleTabToggle_find_dashboard.
Qed.

Lemma find_visible_tab (tabs : list TabConfig.t) (i : string)
  (t : TabConfig.t) :
  find (fun u => String.eqb (TabConfig.id u) i) tabs = Some t ->
  TabConfig.visible t = true ->
  In i (map TabConfig.id (App.visibleTabs tabs)).
Proof.
intros F V. apply find_some in F. destruct F as [I E].
apply String.eqb_eq in E. rewrite <- E. apply in_map.
apply filter_In. now split.
Qed.

(** X25. The switch of a tab is its own inverse and changes neither ids nor
    labels; the dashboard and the settings tabs are never touched.  So when
    the dashboard tab starts visible, after any series of clicks the effect
    that leaves a hidden tab always lands on a tab that is shown. *)
Theorem tab_switches (tabs : list TabConfig.t) (i : string) :
  Settings.handleTabToggle i (Settings.handleTabToggle i tabs) = tabs /\
  map TabConfig.id (Settings.handleTabToggle i tabs) = map TabConfig.id tabs /\
  map TabConfig.label (Settings.handleTabToggle i tabs)
  = map TabConfig.label tabs /\
  (forall t, TabConfig.id t = "dashboard" \/ TabConfig.id t = "settings" ->
     (In t (Settings.handleTabToggle i tabs) <-> In t tabs)) /\
  (forall d clicks activeTab,
     find (fun t => String.eqb (TabConfig.id t) "dashboard") tabs = Some d ->
     TabConfig.visible d = true ->
     In (App.syncActiveTab (afterToggles clicks tabs) activeTab)
        (map TabConfig.id (App.visibleTabs (afterToggles clicks tabs)))).
Proof.
split; [| split; [| split; [| split]]].
- unfold Settings.handleTabToggle.
  destruct (String.eqb i "dashboard" || String.eqb i "settings"); trivial.
  rewrite map_map. rewrite <- (map_id tabs) at 2. apply map_ext. intro t.
  destruct (String.eqb_spec (TabConfig.id t) i) as [E | E].
  + cbn [TabConfig.id]. rewrite E, String.eqb_refl.
    cbn [TabConfig.id TabConfig.label TabConfig.visible].
    rewrite negb_involutive, <- E. now destruct t.
  + now destruct (String.eqb_spec (TabConfig.id t) i).
- unfold Settings.handleTabToggle.
  destruct (String.eqb i "dashboard" || String.eqb i "settings"); trivial.
  rewrite map_map. apply map_ext. intro t.
  now destruct (String.eqb (TabConfig.id t) i).
- unfold Settings.handleTabToggle.
  destruct (String.eqb i "dashboard" || String.eqb i "settings"); trivial.
  rewrite map_map. apply map_ext. intro t.
  now destruct (String.eqb (TabConfig.id t) i).
- intros t P. unfold Settings.handleTabToggle.
  destruct (String.eqb_spec i "dashboard") as [D | D]; [reflexivity |].
  destruct (String.eqb_spec i "settings") as [S | S]; [reflexivity |].
  cbn [orb].
  assert (N : TabConfig.id t <> i) by (destruct P; congruence).
  rewrite in_map_iff. split.
  + intros (u & E & I).
    destruct (String.eqb_spec (TabConfig.id u) i) as [Eu | Eu].
    * exfalso. apply N. rewrite <- E. exact Eu.
    * now subst u.
  + intro I. exists t. split; trivial.
    now destruct (String.eqb_spec (TabConfig.id t) i).
- intros d clicks activeTab F V.
  rewrite <- (afterToggles_find_dashboard clicks) in F.
  unfold App.syncActiveTab.
  destruct (find (fun t => String.eqb (TabConfig.id t) activeTab)
              (afterToggles clicks tabs)) as [t |] eqn:Ft.
  + destruct (TabConfig.visible t) eqn:Vt.
    * exact (find_visible_tab _ _ _ Ft Vt).
    * exact (find_visible_tab _ _ _ F V).
  + exact (find_visible_tab _ _ _ F V).
Qed.

Lemma tab_switches_witness :
  find (fun t => String.eqb (TabConfig.id t) "dashboard") defaultTabs
  = Some (TabConfig.mk "dashboard" "Dashboard" true) /\
  App.syncActiveTab (afterToggles ["trades"; "dashboard"] defaultTabs) "trades"
  = "dashboard" /\
  In (App.syncActiveTab (afterToggles ["trades"; "dashboard"] defaultTabs)
        "trades")
     (map TabConfig.id
        (App.visibleTabs (afterToggles ["trades"; "dashboard"] defaultTabs))).
Proof.
split; [reflexivity | split; [reflexivity |]].
destruct (tab_switches defaultTabs "trades") as (_ & _ & _ & _ & H).
exact (H (TabConfig.mk "dashboard" "Dashboard" true)
         ["trades"; "dashboard"] "trades" eq_refl eq_refl).
Defined.

(** ** Moving a section of the dashboard *)

Lemma findIndex_absent {A : Type} (p : A -> bool) (l : list A) :
  (forall e, In e l -> p e = false) -> Settings.findIndex p l = (-1)%Z.
Proof.
induction l as [| x l IH]; intro H; trivial.
cbn [Settings.findIndex]. rewrite (H x) by now left.
rewrite IH by (intros; apply H; now right). reflexivity.
Qed.

Lemma findIndex_app {A : Type} (p : A -> bool) (a b : list A) (y : A)
  (n : nat) :
  n = length a -> (forall e, In e a -> p e = false) -> p y = true ->
  Settings.findIndex p (a ++ y :: b) = Z.of_nat n.
Proof.
intros -> H Py. induction a as [| x a IH]; cbn [app Settings.findIndex].
- now rewrite Py.
- rewrite (H x) by now left.
  rewrite IH by (intros; apply H; now right).
  destruct (Z.ltb_spec (Z.of_nat (length a)) 0); cbn [length]; lia.
Qed.

Lemma at_app {A : Type} (a b : list A) (y : A) (n : nat) :
  n = length a -> Settings.at_ (a ++ y :: b) (Z.of_nat n) = Some y.
Proof.
intros ->. unfold Settings.at_.
destruct (Z.ltb_spec (Z.of_nat (length a)) 0); [lia |].
rewrite Nat2Z.id, nth_error_app2, Nat.sub_diag by lia. reflexivity.
Qed.

Lemma setAt_app {A : Type} (a b : list A) (y v : A) (n : nat) :
  n = length a -> Settings.setAt n v (a ++ y :: b) = a ++ v :: b.
Proof.
intros ->. induction a as [| x a IH]; cbn [app length Settings.setAt]; trivial.
now rewrite IH.
Qed.

Lemma first_with {A : Type} (p : A -> bool) (l : list A) :
  existsb p l = true ->
  exists a y b, l = a ++ y :: b /\ p y = true /\
                forall e, In e a -> p e = false.
Proof.
induction l as [| x l IH]; [discriminate |].
cbn [existsb]. destruct (p x) eqn:Px.
- intros _. exists [], x, l. repeat split; trivial. intros e [].
- cbn [orb]. intro E. destruct (IH E) as (a & y & b & -> & Py & Ha).
  exists (x :: a), y, b. repeat split; trivial.
  intros e [<- | He]; auto.
Qed.

(** The sections [x] and [y], neighbours in the sorted copy, after the
    handler has exchanged their [order]s. *)
Lemma handleMoveSection_exchange (ds a b : list DashboardSection.t)
  (x y : DashboardSection.t) (i : string) (direction : Settings.Direction) :
  stableSort Sections.orderLe ds = a ++ x :: y :: b ->
  Settings.findIndex (fun s => String.eqb (DashboardSection.id s) i)
    (a ++ x :: y :: b)
  = (if Settings.isUp direction then Z.of_nat (S (length a))
     else Z.of_nat (length a)) ->
  Settings.handleMoveSection ds i direction
  = Settings.Returned
      (a ++ Settings.withOrder x (DashboardSection.order y)
         :: Settings.withOrder y (DashboardSection.order x) :: b).
Proof.
intros So I. unfold Settings.handleMoveSection. cbv zeta. rewrite So, I.
assert (Sh : forall u v, a ++ u :: v :: b = (a ++ [u]) ++ v :: b)
  by (intros; now rewrite <- app_assoc).
assert (L : forall u : DashboardSection.t, S (length a) = length (a ++ [u]))
  by (intro; rewrite length_app; cbn [length]; lia).
destruct direction; cbn [Settings.isUp andb negb].
- destruct (Z.leb_spec (Z.of_nat (S (length a))) 0) as [H | _]; [lia |].
  replace (Z.of_nat (S (length a)) - 1)%Z with (Z.of_nat (length a)) by lia.
  rewrite (Sh x y) at 1. rewrite (at_app (a ++ [x]) b y _ (L x)).
  rewrite (at_app a (y :: b) x _ eq_refl).
  rewrite !Nat2Z.id.
  rewrite (Sh x y), (setAt_app (a ++ [x]) b y _ _ (L x)), <- app_assoc.
  cbn [app]. rewrite (at_app a _ x _ eq_refl).
  now rewrite (setAt_app a _ x _ _ eq_refl).
- rewrite length_app. cbn [length].
  destruct (Z.geb_spec (Z.of_nat (length a))
              (Z.of_nat (length a + S (S (length b))) - 1)) as [H | _];
    [lia |].
  replace (Z.of_nat (length a) + 1)%Z with (Z.of_nat (S (length a))) by lia.
  rewrite (at_app a (y :: b) x _ eq_refl).
  rewrite (Sh x y) at 1. rewrite (at_app (a ++ [x]) b y _ (L x)).
  rewrite !Nat2Z.id.
  rewrite (setAt_app a _ x _ _ eq_refl).
  rewrite (Sh _ y) at 1. rewrite (at_app (a ++ [_]) b y _ (L _)).
  rewrite (Sh _ y), (setAt_app (a ++ [_]) b y _ _ (L _)), <- app_assoc.
  reflexivity.
Qed.

Lemma stableSort_sorted_id {A : Type} (le : A -> A -> bool) (l : list A) :
  StronglySorted (fun a b => le a b = true) l -> stableSort le l = l.
Proof.
induction 1 as [| x l S IH F]; trivial.
rewrite stableSort_cons, IH. now apply insertSorted_first.
Qed.

Lemma stableSort_app {A : Type} (le : A -> A -> bool) (a l : list A) :
  stableSort le (a ++ l) = fold_right (insertSorted le) (stableSort le l) a.
Proof. apply fold_right_app. Qed.

Lemma sorted_by_order (l : list DashboardSection.t) :
  StronglySorted (fun s u => Sections.orderLe s u = true) l
  <-> StronglySorted (fun p q => Qcleb p q = true)
        (map DashboardSection.order l).
Proof.
induction l as [| s l IH]; cbn [map].
- split; constructor.
- split; intro H; inversion H as [| ? ? S F]; subst; constructor;
    try (now apply IH).
  + apply Forall_map. exact F.
  + apply Forall_map in F. exact F.
Qed.

Lemma withOrder_same (s : DashboardSection.t) :
  Settings.withOrder s (DashboardSection.order s) = s.
Proof. now destruct s. Qed.

Lemma sortedSections_sorted (ds : list DashboardSection.t) :
  StronglySorted (fun s u => Sections.orderLe s u = true)
    (stableSort Sections.orderLe ds).
Proof. apply stableSort_sorted; [exact orderLe_total | exact orderLe_trans]. Qed.

(** X26. [handleMoveSection] exchanges the [order]s of the section and of
    its neighbour in the sorted copy, and stores that copy: moving [y] up is
    moving the section [x] before it down.  When the two orders differ the
    sections change places on the page; when they are equal nothing moves. *)
Theorem handleMoveSection_exchanges (ds a b : list DashboardSection.t)
  (x y : DashboardSection.t) :
  stableSort Sections.orderLe ds = a ++ x :: y :: b ->
  (forall s, In s (a ++ [x]) -> DashboardSection.id s <> DashboardSection.id y) ->
  Settings.handleMoveSection ds (DashboardSection.id y) Settings.up
  = Settings.Returned
      (a ++ Settings.withOrder x (DashboardSection.order y)
         :: Settings.withOrder y (DashboardSection.order x) :: b) /\
  ((forall s, In s a -> DashboardSection.id s <> DashboardSection.id x) ->
   Settings.handleMoveSection ds (DashboardSection.id x) Settings.down
   = Settings.handleMoveSection ds (DashboardSection.id y) Settings.up) /\
  (DashboardSection.order x <> DashboardSection.order y ->
   stableSort Sections.orderLe
     (a ++ Settings.withOrder x (DashboardSection.order y)
        :: Settings.withOrder y (DashboardSection.order x) :: b)
   = a ++ Settings.withOrder y (DashboardSection.order x)
       :: Settings.withOrder x (DashboardSection.order y) :: b) /\
  (DashboardSection.order x = DashboardSection.order y ->
   a ++ Settings.withOrder x (DashboardSection.order y)
     :: Settings.withOrder y (DashboardSection.order x) :: b
   = stableSort Sections.orderLe ds).
Proof.
intros So Hy.
assert (U : Settings.handleMoveSection ds (DashboardSection.id y) Settings.up
            = Settings.Returned
                (a ++ Settings.withOrder x (DashboardSection.order y)
                   :: Settings.withOrder y (DashboardSection.order x) :: b)).
{ apply handleMoveSection_exchange; trivial. cbn [Settings.isUp].
  replace (a ++ x :: y :: b) with ((a ++ [x]) ++ y :: b)
    by now rewrite <- app_assoc.
  apply findIndex_app.
  - rewrite length_app. cbn [length]. lia.
  - intros e He. apply String.eqb_neq. now apply Hy.
  - apply String.eqb_refl. }
pose proof (sortedSections_sorted ds) as Sd. rewrite So in Sd.
split; [exact U | split; [| split]].
- intro Hx. rewrite U. apply handleMoveSection_exchange; trivial.
  cbn [Settings.isUp]. apply findIndex_app; trivial.
  + intros e He. apply String.eqb_neq. now apply Hx.
  + apply String.eqb_refl.
- intro N.
  set (x' := Settings.withOrder x (DashboardSection.order y)).
  set (y' := Settings.withOrder y (DashboardSection.order x)).
  assert (Sw : StronglySorted (fun s u => Sections.orderLe s u = true)
                 (a ++ y' :: x' :: b)).
  { apply sorted_by_order. apply sorted_by_order in Sd.
    rewrite map_app in *. exact Sd. }
  assert (Sy : StronglySorted (fun s u => Sections.orderLe s u = true)
                 (y' :: x' :: b)).
  { clear - Sw. induction a as [| s a IH]; trivial.
    inversion Sw; subst. now apply IH. }
  assert (Lxy : Sections.orderLe x' y' = false).
  { unfold Sections.orderLe, x', y'. cbn [Settings.withOrder DashboardSection.order].
    destruct (Qcleb (DashboardSection.order y) (DashboardSection.order x))
      eqn:E; trivial.
    exfalso. apply N. apply Qcle_antisym.
    - clear - Sd. induction a as [| s a IH].
      + inversion Sd as [| ? ? _ F]; subst. inversion F; subst.
        now apply Qcleb_true.
      + inversion Sd; subst. now apply IH.
    - now apply Qcleb_true. }
  rewrite stableSort_app, !stableSort_cons.
  inversion Sy as [| ? ? Sx Fy]; subst.
  inversion Sx as [| ? ? Sb Fx]; subst.
  rewrite (stableSort_sorted_id _ b Sb).
  inversion Fy as [| ? ? _ Fyb]; subst.
  rewrite (insertSorted_first _ y' b Fyb).
  cbn [insertSorted]. rewrite Lxy.
  rewrite (insertSorted_first _ x' b Fx).
  rewrite <- (stableSort_sorted_id Sections.orderLe (y' :: x' :: b) Sy) at 1.
  rewrite <- stableSort_app. now apply stableSort_sorted_id.
- intro E. rewrite So, E, withOrder_same, <- E, withOrder_same. reflexivity.
Qed.

Lemma handleMoveSection_exchanges_witness :
  stableSort Sections.orderLe defaultSections
  = [] ++ DashboardSection.mk "stats" "Cards" true (Q2Qc 0)
       :: DashboardSection.mk "calendar" "Calendar" true (Q2Qc 1)
       :: [DashboardSection.mk "monthlyChart" "Monthly" true (Q2Qc 2);
           DashboardSection.mk "recentTrades" "Recent" true (Q2Qc 3);
           DashboardSection.mk "news" "News" true (Q2Qc 4)] /\
  Settings.handleMoveSection defaultSections "calendar" Settings.up
  = Settings.Returned
      [DashboardSection.mk "stats" "Cards" true (Q2Qc 1);
       DashboardSection.mk "calendar" "Calendar" true (Q2Qc 0);
       DashboardSection.mk "monthlyChart" "Monthly" true (Q2Qc 2);
       DashboardSection.mk "recentTrades" "Recent" true (Q2Qc 3);
       DashboardSection.mk "news" "News" true (Q2Qc 4)].
Proof.
assert (So : stableSort Sections.orderLe defaultSections
  = [] ++ DashboardSection.mk "stats" "Cards" true (Q2Qc 0)
       :: DashboardSection.mk "calendar" "Calendar" true (Q2Qc 1)
       :: [DashboardSection.mk "monthlyChart" "Monthly" true (Q2Qc 2);
           DashboardSection.mk "recentTrades" "Recent" true (Q2Qc 3);
           DashboardSection.mk "news" "News" true (Q2Qc 4)])
  by (vm_compute; reflexivity).
split; [exact So |].
refine (proj1 (handleMoveSection_exchanges defaultSections [] _ _ _ So _)).
intros s [<- | []]. cbn. discriminate.
Defined.

Lemma move_result_fields (a b : list DashboardSection.t)
  (x y : DashboardSection.t) :
  let r := a ++ Settings.withOrder x (DashboardSection.order y)
             :: Settings.withOrder y (DashboardSection.order x) :: b in
  map DashboardSection.id r = map DashboardSection.id (a ++ x :: y :: b) /\
  map DashboardSection.title r
  = map DashboardSection.title (a ++ x :: y :: b) /\
  map DashboardSection.visible r
  = map DashboardSection.visible (a ++ x :: y :: b) /\
  Permutation (map DashboardSection.order r)
    (map DashboardSection.order (a ++ x :: y :: b)).
Proof.
cbv zeta. rewrite !map_app. cbn [map Settings.withOrder DashboardSection.id
  DashboardSection.title DashboardSection.visible DashboardSection.order].
repeat split. apply Permutation_app_head, perm_swap.
Qed.

(** X27. For the id of a section [handleMoveSection] never throws: it
    leaves the list as it is (the section is at the end it is moved to) or
    stores the sorted copy with the same ids, titles and switches in the same
    places and the same [order]s overall.  For an id that no section has,
    moving up changes nothing and moving down throws unless the list is
    empty. *)
Theorem handleMoveSection_outcome (ds : list DashboardSection.t) (i : string)
  (direction : Settings.Direction) :
  (In i (map DashboardSection.id ds) ->
   exists r,
     Settings.handleMoveSection ds i direction = Settings.Returned r /\
     (r = ds \/
      (map DashboardSection.id r
       = map DashboardSection.id (stableSort Sections.orderLe ds) /\
       map DashboardSection.title r
       = map DashboardSection.title (stableSort Sections.orderLe ds) /\
       map DashboardSection.visible r
       = map DashboardSection.visible (stableSort Sections.orderLe ds) /\
       Permutation (map DashboardSection.order r)
         (map DashboardSection.order ds)))) /\
  (~ In i (map DashboardSection.id ds) ->
   Settings.handleMoveSection ds i Settings.up = Settings.Returned ds /\
   (ds = [] ->
    Settings.handleMoveSection ds i Settings.down = Settings.Returned ds) /\
   (ds <> [] ->
    Settings.handleMoveSection ds i Settings.down = Settings.Threw)).
Proof.
set (p := fun s => String.eqb (DashboardSection.id s) i).
pose proof (stableSort_perm Sections.orderLe ds) as P.
split.
- intro I.
  assert (E : existsb p (stableSort Sections.orderLe ds) = true).
  { apply existsb_exists. apply in_map_iff in I. destruct I as (s & Es & Is).
    exists s. split; [now apply stableSort_In |]. now apply String.eqb_eq. }
  destruct (first_with p _ E) as (a & y & b & So & Py & Ha).
  assert (Moved : forall a' x' y' b',
            stableSort Sections.orderLe ds = a' ++ x' :: y' :: b' ->
            Settings.findIndex p (a' ++ x' :: y' :: b')
            = (if Settings.isUp direction then Z.of_nat (S (length a'))
               else Z.of_nat (length a')) ->
            exists r,
              Settings.handleMoveSection ds i direction = Settings.Returned r /\
              (r = ds \/
               (map DashboardSection.id r
                = map DashboardSection.id (stableSort Sections.orderLe ds) /\
                map DashboardSection.title r
                = map DashboardSection.title (stableSort Sections.orderLe ds) /\
                map DashboardSection.visible r
                = map DashboardSection.visible (stableSort Sections.orderLe ds) /\
                Permutation (map DashboardSection.order r)
                  (map DashboardSection.order ds)))).
  { intros a' x' y' b' So' I'. eexists. split.
    - now apply (handleMoveSection_exchange ds a' b' x' y').
    - right. rewrite So'.
      destruct (move_result_fields a' b' x' y') as (H1 & H2 & H3 & H4).
      repeat split; trivial.
      etransitivity; [exact H4 |]. rewrite <- So'.
      now apply Permutation_map. }
  destruct direction.
  + revert So Ha. induction a as [| x a' _] using rev_ind; intros So Ha.
    * exists ds. split; [| now left].
      unfold Settings.handleMoveSection. cbv zeta. rewrite So.
      fold p. rewrite (findIndex_app p [] b y 0 eq_refl Ha Py).
      reflexivity.
    * rewrite <- app_assoc in So. cbn [app] in So.
      apply (Moved a' x y b So). cbn [Settings.isUp].
      replace (a' ++ x :: y :: b) with ((a' ++ [x]) ++ y :: b)
        by now rewrite <- app_assoc.
      apply findIndex_app; trivial. rewrite length_app. cbn [length]. lia.
  + destruct b as [| z b'].
    * exists ds. split; [| now left].
      unfold Settings.handleMoveSection. cbv zeta. rewrite So.
      fold p. rewrite (findIndex_app p a [] y _ eq_refl Ha Py).
      cbn [Settings.isUp andb negb]. rewrite length_app. cbn [length].
      destruct (Z.geb_spec (Z.of_nat (length a))
                  (Z.of_nat (length a + 1) - 1)) as [_ | H]; [reflexivity | lia].
    * apply (Moved a y z b' So). cbn [Settings.isUp].
      now apply findIndex_app.
- intro N.
  assert (A : Settings.findIndex p (stableSort Sections.orderLe ds) = (-1)%Z).
  { apply findIndex_absent. intros e He. apply String.eqb_neq. intro Ee.
    apply N. rewrite <- Ee. apply in_map. now apply stableSort_In in He. }
  unfold Settings.handleMoveSection. cbv zeta. fold p. rewrite A.
  split; [reflexivity | split].
  + intros ->. reflexivity.
  + intro Ne. cbn [Settings.isUp andb negb].
    rewrite (Permutation_length P).
    destruct ds as [| s ds']; [contradiction |]. cbn [length].
    destruct (Z.geb_spec (-1) (Z.of_nat (S (length ds')) - 1)) as [H | _];
      [lia | reflexivity].
Qed.

Lemma handleMoveSection_outcome_witness :
  ~ In "charts" (map DashboardSection.id defaultSections) /\
  defaultSections <> [] /\
  Settings.handleMoveSection defaultSections "charts" Settings.up
  = Settings.Returned defaultSections /\
  Settings.handleMoveSection defaultSections "charts" Settings.down
  = Settings.Threw.
Proof.
assert (N : ~ In "charts" (map DashboardSection.id defaultSections)).
{ simpl. intuition discriminate. }
assert (Ne : defaultSections <> []) by discriminate.
destruct (handleMoveSection_outcome defaultSections "charts" Settings.down)
  as (_ & H).
destruct (H N) as (U & _ & D).
split; [exact N | split; [exact Ne | split; [exact U | exact (D Ne)]]].
Defined.

(** X28. The switch of a dashboard section is its own inverse, and it
    leaves the other sections where they are on the page: without the
    sections of the id switched, the page shows the same list before and
    after. *)
Theorem section_switch (ds : list DashboardSection.t) (i : string) :
  Settings.handleSectionToggle i (Settings.handleSectionToggle i ds) = ds /\
  filter (fun s => negb (String.eqb (DashboardSection.id s) i))
    (Sections.orderedSections (Settings.handleSectionToggle i ds))
  = filter (fun s => negb (String.eqb (DashboardSection.id s) i))
      (Sections.orderedSections ds) /\
  (forall s, In s ds -> DashboardSection.id s = i ->
     DashboardSection.visible s = false ->
     exists s', In s' (Sections.orderedSections
                         (Settings.handleSectionToggle i ds)) /\
                DashboardSection.id s' = i /\
                DashboardSection.title s' = DashboardSection.title s).
Proof.
set (f := fun s =>
       if String.eqb (DashboardSection.id s) i then
         {| DashboardSection.id := DashboardSection.id s;
            DashboardSection.title := DashboardSection.title s;
            DashboardSection.visible := negb (DashboardSection.visible s);
            DashboardSection.order := DashboardSection.order s |}
       else s).
assert (So : stableSort Sections.orderLe (Settings.handleSectionToggle i ds)
             = map f (stableSort Sections.orderLe ds)).
{ apply stableSort_map. intros u v. unfold f, Sections.orderLe.
  now destruct (String.eqb (DashboardSection.id u) i),
               (String.eqb (DashboardSection.id v) i). }
split; [| split].
- unfold Settings.handleSectionToggle. fold f. rewrite map_map.
  rewrite <- (map_id ds) at 2. apply map_ext. intro s. unfold f.
  destruct (String.eqb_spec (DashboardSection.id s) i) as [E | E].
  + cbn [DashboardSection.id]. rewrite E, String.eqb_refl.
    cbn [DashboardSection.id DashboardSection.title DashboardSection.visible
         DashboardSection.order].
    rewrite negb_involutive, <- E. now destruct s.
  + now destruct (String.eqb_spec (DashboardSection.id s) i).
- unfold Sections.orderedSections. rewrite So. clear So.
  rewrite !filter_filter_andb.
  induction (stableSort Sections.orderLe ds) as [| s l IH]; trivial.
  cbn [map filter]. rewrite IH.
  assert (G : f s = s \/ String.eqb (DashboardSection.id s) i = true
                         /\ DashboardSection.id (f s) = DashboardSection.id s).
  { unfold f. destruct (String.eqb (DashboardSection.id s) i); auto. }
  destruct G as [-> | [E ->]]; trivial.
  now rewrite E.
- intros s Is E V. exists (f s). unfold Sections.orderedSections.
  rewrite So.
  assert (F : f s = {| DashboardSection.id := DashboardSection.id s;
                       DashboardSection.title := DashboardSection.title s;
                       DashboardSection.visible := true;
                       DashboardSection.order := DashboardSection.order s |}).
  { unfold f. rewrite (proj2 (String.eqb_eq _ _) E). now rewrite V. }
  split; [| rewrite F; now split].
  apply filter_In. split.
  + apply in_map. now apply stableSort_In.
  + now rewrite F.
Qed.

Lemma section_switch_witness :
  In (DashboardSection.mk "calendar" "Calendar" false (Q2Qc 2)) sampleSections /\
  map DashboardSection.id
    (Sections.orderedSections
       (Settings.handleSectionToggle "calendar" sampleSections))
  = ["monthlyChart"; "stats"; "news"; "calendar"].
Proof.
assert (I : In (DashboardSection.mk "calendar" "Calendar" false (Q2Qc 2))
              sampleSections) by (right; left; reflexivity).
destruct (section_switch sampleSections "calendar") as (_ & _ & H).
destruct (H _ I eq_refl eq_refl) as (s' & _).
split; [exact I | reflexivity].
Defined.

(** ** The presets of the news *)

Lemma firstSeenFrom_spec (l seen : list string) :
  NoDup (firstSeenFrom seen l) /\
  forall x, In x (firstSeenFrom seen l) <-> In x l /\ ~ In x seen.
Proof.
revert seen. induction l as [| k r IH]; intro seen; cbn [firstSeenFrom].
- split; [constructor | intro x; simpl; tauto].
- destruct (existsb (String.eqb k) seen) eqn:E.
  + destruct (IH seen) as [ND I]. split; trivial.
    intro x. rewrite I. cbn [In]. split; [tauto |].
    intros [[<- | H] N]; [| tauto].
    exfalso. apply N. apply existsb_exists in E. destruct E as (y & Hy & Ey).
    apply String.eqb_eq in Ey. now subst y.
  + destruct (IH (seen ++ [k])) as [ND I].
    assert (Nk : ~ In k seen).
    { intro H. apply Bool.not_true_iff_false in E. apply E.
      apply existsb_exists. exists k. split; trivial. apply String.eqb_refl. }
    split.
    * constructor; trivial. rewrite I, in_app_iff. cbn [In]. tauto.
    * intro x. cbn [In]. rewrite I, in_app_iff. cbn [In].
      destruct (string_dec k x) as [<- | D]; tauto.
Qed.

Lemma firstSeenFrom_NoDup (l seen : list string) :
  NoDup l -> (forall x, In x l -> ~ In x seen) -> firstSeenFrom seen l = l.
Proof.
revert seen. induction l as [| k r IH]; intros seen ND H; trivial.
inversion ND as [| ? ? Nk ND']; subst. cbn [firstSeenFrom].
destruct (existsb (String.eqb k) seen) eqn:E.
- exfalso. apply existsb_exists in E. destruct E as (y & Hy & Ey).
  apply String.eqb_eq in Ey. subst y. apply (H k); [now left | trivial].
- f_equal. apply IH; trivial. intros x Hx. rewrite in_app_iff. cbn [In].
  intros [S | [<- | []]]; [| contradiction].
  apply (H x); [now right | trivial].
Qed.

Lemma firstSeenFrom_again (l seen : list string) (v : string) :
  In v l \/ existsb (String.eqb v) seen = true ->
  firstSeenFrom seen (l ++ [v]) = firstSeenFrom seen l.
Proof.
revert seen. induction l as [| k r IH]; intros seen H.
- cbn [app firstSeenFrom]. destruct H as [[] | S]. now rewrite S.
- cbn [app firstSeenFrom]. destruct (existsb (String.eqb k) seen) eqn:Ek.
  + apply IH. destruct H as [[-> | Hr] | S]; auto.
  + f_equal. apply IH. rewrite existsb_app. cbn [existsb].
    destruct H as [[-> | Hr] | S]; auto.
    * right. now rewrite String.eqb_refl, orb_true_r.
    * right. now rewrite S.
Qed.

Lemma fold_presetStep (trim : string -> string) (arr out seen : list string) :
  fold_left (Settings.presetStep trim) arr (out, seen)
  = (out ++ firstSeenFrom seen (filter nonEmpty (map trim arr)),
     seen ++ firstSeenFrom seen (filter nonEmpty (map trim arr))).
Proof.
revert out seen. induction arr as [| raw arr IH]; intros out seen.
- cbn. now rewrite !app_nil_r.
- cbn [fold_left map filter]. unfold Settings.presetStep at 2. cbv zeta.
  replace (nonEmpty (trim raw)) with (negb (String.eqb (trim raw) ""))
    by reflexivity.
  cbn [fst snd].
  destruct (String.eqb (trim raw) ""); cbn [negb]; [apply IH |].
  cbn [firstSeenFrom].
  destruct (existsb (String.eqb (trim raw)) seen); [apply IH |].
  rewrite IH, <- !app_assoc. reflexivity.
Qed.

Lemma normalizePresets_closed (trim : string -> string) (arr : list string) :
  Settings.normalizePresets trim arr
  = firstSeen (filter nonEmpty (map trim arr)).
Proof.
unfold Settings.normalizePresets. now rewrite fold_presetStep.
Qed.

Lemma normalized_fixed (trim : string -> string) (l : list string) :
  NoDup l -> (forall x, In x l -> trim x = x /\ x <> "") ->
  Settings.normalizePresets trim l = l.
Proof.
intros ND H. rewrite normalizePresets_closed.
assert (M : map trim l = l).
{ rewrite <- (map_id l) at 2. apply map_ext_in. intros x Hx. now apply H. }
rewrite M, filter_all.
- apply firstSeenFrom_NoDup; trivial. intros x _ [].
- intros x Hx. unfold nonEmpty. apply negb_true_iff, String.eqb_neq.
  now apply H.
Qed.

(** X29. [normalizePresets] keeps the trimmed, non-empty values, each once,
    at the place of its first occurrence.  With a [trim] that changes no
    trimmed string, normalising again changes nothing, and adding a value to
    a normalised list appends its trimmed form unless that is empty or there
    already. *)
Theorem normalizePresets_distinct (trim : string -> string)
  (arr : list string) (value : string) :
  Settings.normalizePresets trim arr
  = firstSeen (filter nonEmpty (map trim arr)) /\
  NoDup (Settings.normalizePresets trim arr) /\
  ~ In "" (Settings.normalizePresets trim arr) /\
  ((forall s, trim (trim s) = trim s) ->
   Settings.normalizePresets trim (Settings.normalizePresets trim arr)
   = Settings.normalizePresets trim arr /\
   Settings.handleAddPreset trim value (Settings.normalizePresets trim arr)
   = if String.eqb (trim value) ""
        || existsb (String.eqb (trim value))
             (Settings.normalizePresets trim arr)
     then Settings.normalizePresets trim arr
     else Settings.normalizePresets trim arr ++ [trim value]).
Proof.
pose proof (normalizePresets_closed trim arr) as C.
destruct (firstSeenFrom_spec (filter nonEmpty (map trim arr)) []) as [ND I].
fold (firstSeen (filter nonEmpty (map trim arr))) in ND, I.
rewrite <- C in ND, I.
assert (El : forall x, In x (Settings.normalizePresets trim arr) ->
               x <> "" /\ exists raw, x = trim raw).
{ intros x Hx. apply I in Hx. destruct Hx as [Hx _].
  apply filter_In in Hx. destruct Hx as [Hx Ne].
  apply negb_true_iff, String.eqb_neq in Ne. split; trivial.
  apply in_map_iff in Hx. destruct Hx as (raw & <- & _). now exists raw. }
split; [exact C | split; [exact ND | split]].
- intro H. now destruct (El _ H) as [Ne _].
- intro Idem.
  assert (Fx : forall x, In x (Settings.normalizePresets trim arr) ->
                 trim x = x /\ x <> "").
  { intros x Hx. destruct (El x Hx) as (Ne & raw & ->). now rewrite Idem. }
  split; [now apply normalized_fixed |].
  unfold Settings.handleAddPreset. cbv zeta.
  destruct (String.eqb_spec (trim value) "") as [E | E]; trivial. cbn [orb].
  destruct (existsb (String.eqb (trim value))
              (Settings.normalizePresets trim arr)) eqn:X.
  + assert (M : map trim (Settings.normalizePresets trim arr)
               = Settings.normalizePresets trim arr).
    { rewrite <- (map_id (Settings.normalizePresets trim arr)) at 2.
      apply map_ext_in. intros x Hx. now apply Fx. }
    assert (F : filter nonEmpty (Settings.normalizePresets trim arr)
               = Settings.normalizePresets trim arr).
    { apply filter_all. intros x Hx. unfold nonEmpty.
      apply negb_true_iff, String.eqb_neq. now apply Fx. }
    rewrite normalizePresets_closed, map_app, filter_app, M, F.
    cbn [map filter]. rewrite Idem.
    replace (nonEmpty (trim value)) with (negb (String.eqb (trim value) ""))
      by reflexivity.
    rewrite (proj2 (String.eqb_neq _ _) E). cbn [negb].
    unfold firstSeen. rewrite firstSeenFrom_again.
    * apply firstSeenFrom_NoDup; trivial. intros x _ [].
    * left. apply existsb_exists in X. destruct X as (y & Hy & Ey).
      apply String.eqb_eq in Ey. now subst y.
  + apply normalized_fixed.
    * rewrite <- (rev_involutive (_ ++ _)). apply NoDup_rev.
      rewrite rev_app_distr. cbn [rev app]. constructor.
      -- rewrite <- in_rev. intro H.
         apply Bool.not_true_iff_false in X. apply X.
         apply existsb_exists. exists (trim value). split; trivial.
         apply String.eqb_refl.
      -- now apply NoDup_rev.
    * intros x Hx. apply in_app_iff in Hx. destruct Hx as [Hx | [<- | []]].
      -- now apply Fx.
      -- split; [apply Idem | exact E].
Qed.

Lemma dropSpaces_idem (s : string) : dropSpaces (dropSpaces s) = dropSpaces s.
Proof.
induction s as [| c r IH]; trivial.
cbn [dropSpaces]. destruct (Ascii.eqb c " ") eqn:E; trivial.
cbn [dropSpaces]. now rewrite E.
Qed.

Lemma normalizePresets_distinct_witness :
  Settings.normalizePresets dropSpaces ["  rates"; ""; "chips"; "rates"; "  "]
  = ["rates"; "chips"] /\
  Settings.handleAddPreset dropSpaces " chips"
    (Settings.normalizePresets dropSpaces
       ["  rates"; ""; "chips"; "rates"; "  "])
  = ["rates"; "chips"].
Proof.
split; [reflexivity |].
destruct (normalizePresets_distinct dropSpaces
            ["  rates"; ""; "chips"; "rates"; "  "] " chips")
  as (_ & _ & _ & H).
destruct (H dropSpaces_idem) as [_ A]. rewrite A. reflexivity.
Defined.
